(** * DMP: dynamic movement primitives (learnFromDemo, generatePlan, obstacle coupling)

    A shallow embedding of [src/src/dmp.cpp] and of the service callbacks of
    [src/nodes/dmp_server.cpp].

    Modelling conventions.
    - A C++ [double] is an exact rational ([Q]) in the main model, where a
      non-finite value from a zero row count ([calculateCentroid]) is an
      outcome of its own and every other division is the total division of
      [Q].  What rounding, infinities and NaN do is the matter of module
      [Binary64], which repeats the obstacle coupling and [generatePlan] on
      binary64 floats.
    - [std::vector] is [list]; [operator[]] out of range is undefined behaviour
      in C++ and is the outcome [OutOfBounds] here.
    - [int] values that count or index are [nat]; [integrate_iter] and
      [num_bases], which the caller may pass non-positive, are [Z].
    - The [while] loop of [generatePlan] is run with fuel; [Diverge] is the
      outcome of a run that needs more iterations than the fuel given.
    - The C math library, the [FunctionApprox] class and the contents of a
      default-constructed Eigen vector are not defined under [src/]; they are
      parameters of the model (class [Extern]).  Eigen's vector algebra is
      written out from Eigen's definitions. *)

From Stdlib Require Import String.
From Stdlib Require Import List ZArith QArith Qabs Qround Qminmax Bool Lia Lqa.
From Stdlib Require Import Floats.
Import ListNotations.

Set Implicit Arguments.
Open Scope Q_scope.

(** ** Outcomes of running a piece of the program *)

Inductive outcome (A : Type) : Type :=
| Ret (a : A)
| OutOfBounds
| NotFinite
| Diverge.

Arguments Ret {A} a.
Arguments OutOfBounds {A}.
Arguments NotFinite {A}.
Arguments Diverge {A}.

Definition bind {A B : Type} (m : outcome A) (f : A -> outcome B) : outcome B :=
  match m with
  | Ret a => f a
  | OutOfBounds => OutOfBounds
  | NotFinite => NotFinite
  | Diverge => Diverge
  end.

Notation "x <- m ;; k" := (bind m (fun x => k))
  (at level 61, m at next level, right associativity).
Notation "' pat <- m ;; k" := (bind m (fun x => match x with pat => k end))
  (at level 61, pat pattern, m at next level, right associativity).

(** [v[i]] on a [std::vector]. *)
Definition at_ {A : Type} (v : list A) (i : nat) : outcome A :=
  match nth_error v i with
  | Some a => Ret a
  | None => OutOfBounds
  end.

(** [v[i] = a] on a [std::vector]. *)
Fixpoint set_at {A : Type} (v : list A) (i : nat) (a : A) : outcome (list A) :=
  match v, i with
  | [], _ => OutOfBounds
  | _ :: tl, O => Ret (a :: tl)
  | hd :: tl, S j => tl' <- set_at tl j a ;; Ret (hd :: tl')
  end.

(** [v.resize(n, a)]. *)
Definition resize {A : Type} (v : list A) (n : nat) (a : A) : list A :=
  firstn n v ++ repeat a (n - length v).

(** ** Comparisons on doubles *)

Definition Qltb (a b : Q) : bool :=
  match a ?= b with Lt => true | _ => false end.
Definition Qgtb (a b : Q) : bool := Qltb b a.
Definition Qgeb (a b : Q) : bool := Qle_bool b a.

(** [std::min] and [std::max]: the first argument wins on a tie. *)
Definition std_min (a b : Q) : Q := if Qltb b a then b else a.
Definition std_max (a b : Q) : Q := if Qltb a b then b else a.

(** A [for] loop over the indices [idx], threading the program state. *)
Fixpoint for_each {S : Type} (idx : list nat) (body : nat -> S -> outcome S) (s : S)
  : outcome S :=
  match idx with
  | [] => Ret s
  | i :: rest => s' <- body i s ;; for_each rest body s'
  end.

(** ** What lives outside [src/] *)

Record vec3 : Type := V3 { vx : Q; vy : Q; vz : Q }.
Record mat3 : Type := M3 { row0 : vec3; row1 : vec3; row2 : vec3 }.

Class Extern : Type := {
  (* <cmath> *)
  exp : Q -> Q;
  log : Q -> Q;
  acos : Q -> Q;
  sqrt : Q -> Q;
  sin : Q -> Q;
  cos : Q -> Q;
  (* the coefficients of a default-constructed Eigen::Vector3d, which Eigen
     does not initialise *)
  Vector3d_default : vec3;
  (* FunctionApprox (FourierApprox): [evalAt] on an approximator built from
     stored weights, and the weights left by [leastSquaresWeights] on an
     approximator built with [num_bases] *)
  evalAt : list Q -> Q -> Q;
  leastSquaresWeights : Z -> list Q -> list Q -> nat -> list Q
}.

(** [M_PI] as <cmath> spells it. *)
Definition M_PI : Q := 314159265358979323846 # 100000000000000000000.

Definition MAX_PLAN_LENGTH : Q := 1000.

Definition epsilon : Q := 1 # 10000000000.

(** ** Eigen vector algebra used by the obstacle coupling *)

Definition vadd (a b : vec3) : vec3 := V3 (vx a + vx b) (vy a + vy b) (vz a + vz b).
Definition vsub (a b : vec3) : vec3 := V3 (vx a - vx b) (vy a - vy b) (vz a - vz b).
Definition vscale_l (s : Q) (a : vec3) : vec3 := V3 (s * vx a) (s * vy a) (s * vz a).
Definition vscale_r (a : vec3) (s : Q) : vec3 := V3 (vx a * s) (vy a * s) (vz a * s).
Definition vdiv (a : vec3) (s : Q) : vec3 := V3 (vx a / s) (vy a / s) (vz a / s).
Definition cwise_mul (a b : vec3) : vec3 := V3 (vx a * vx b) (vy a * vy b) (vz a * vz b).
Definition dot (a b : vec3) : Q := vx a * vx b + vy a * vy b + vz a * vz b.
Definition cross (a b : vec3) : vec3 :=
  V3 (vy a * vz b - vz a * vy b) (vz a * vx b - vx a * vz b) (vx a * vy b - vy a * vx b).
Definition mscale_l (s : Q) (m : mat3) : mat3 :=
  M3 (vscale_l s (row0 m)) (vscale_l s (row1 m)) (vscale_l s (row2 m)).
Definition mat_vec (m : mat3) (a : vec3) : vec3 :=
  V3 (dot (row0 m) a) (dot (row1 m) a) (dot (row2 m) a).
Definition vec3_to_list (a : vec3) : list Q := [vx a; vy a; vz a].

(** ** Messages *)

Record DMPPoint : Type := {
  positions : list Q;
  velocities : list Q
}.

Record DMPTraj : Type := {
  points : list DMPPoint;
  times : list Q
}.

Record DMPData : Type := {
  k_gain : Q;
  d_gain : Q;
  weights : list Q;
  f_domain : list Q;
  f_targets : list Q
}.

(** The scratch arrays of [learnFromDemo]. *)
Record DemoBuffers : Type := {
  x_demo : list Q;
  v_demo : list Q;
  v_dot_demo : list Q;
  buf_f_domain : list Q;
  buf_f_targets : list Q
}.

(** The parameters of [generatePlan] other than its two outputs. *)
Record PlanArgs : Type := {
  dmp_list : list DMPData;
  x_0 : list Q;
  x_dot_0 : list Q;
  t_0 : Q;
  goal : list Q;
  goal_thresh : list Q;
  seg_length : Q;
  tau : Q;
  total_dt : Q;
  integrate_iter : Z;
  obstacle : list (list Q);
  arg_beta : list Q;
  arg_gamma : list Q;
  arg_k : list Q;
  arg_m : Q;
  arg_n : Q
}.

(** The variables of [generatePlan] that live across turns of its [while]
    loop. *)
Record PlanState : Type := {
  t : Q;
  n_pts : nat;
  x_vecs : list (list Q);
  x_dot_vecs : list (list Q);
  t_vec : list Q;
  at_goal : bool;
  seg_end : bool;
  beta : list Q;
  gamma : list Q;
  k : list Q
}.

Section Program.

Context {E : Extern}.

Definition squaredNorm (a : vec3) : Q := dot a a.
Definition norm (a : vec3) : Q := sqrt (squaredNorm a).

(** [normalized()]: a vector of squared norm zero is returned as it is. *)
Definition normalized (a : vec3) : vec3 :=
  if Qgtb (squaredNorm a) 0 then vdiv a (sqrt (squaredNorm a)) else a.

(** [Eigen::AngleAxisd(angle, axis).toRotationMatrix()]. *)
Definition toRotationMatrix (angle : Q) (axis : vec3) : mat3 :=
  let sin_axis := vscale_l (sin angle) axis in
  let c := cos angle in
  let cos1_axis := vscale_l (1 - c) axis in
  let t01 := vx cos1_axis * vy axis in
  let t02 := vx cos1_axis * vz axis in
  let t12 := vy cos1_axis * vz axis in
  M3 (V3 (vx cos1_axis * vx axis + c) (t01 - vz sin_axis) (t02 + vy sin_axis))
     (V3 (t01 + vz sin_axis) (vy cos1_axis * vy axis + c) (t12 - vx sin_axis))
     (V3 (t02 - vy sin_axis) (t12 + vx sin_axis) (vz cos1_axis * vz axis + c)).

(** ** dmp.cpp *)

Definition alpha : Q := - log (1 # 100).

Definition calcPhase (curr_time tau : Q) : Q :=
  exp (- (alpha / tau) * curr_time).

(** *** Geometry helpers *)

(** The two nested loops of [calculate_bounding_box_dimensions]: for every
    point and every coordinate [i] of it, update [min_values[i]] and
    [max_values[i]]. *)
Definition bbox_update_point (point : list Q) (mm : list Q * list Q)
  : outcome (list Q * list Q) :=
  for_each (seq 0 (length point))
    (fun i '(min_values, max_values) =>
       p <- at_ point i ;;
       lo <- at_ min_values i ;;
       min_values' <- set_at min_values i (std_min lo p) ;;
       hi <- at_ max_values i ;;
       max_values' <- set_at max_values i (std_max hi p) ;;
       Ret (min_values', max_values'))
    mm.

Fixpoint bbox_scan (points : list (list Q)) (mm : list Q * list Q)
  : outcome (list Q * list Q) :=
  match points with
  | [] => Ret mm
  | point :: rest => mm' <- bbox_update_point point mm ;; bbox_scan rest mm'
  end.

(** [calculate_bounding_box_dimensions]; the first component of the result
    is what the call wrote to [std::cerr]. *)
Definition calculate_bounding_box_dimensions (points : list (list Q))
  : outcome (list string * vec3) :=
  match points with
  | [] => Ret (["Error: Empty input points vector."%string], Vector3d_default)
  | [] :: _ => Ret (["Error: Empty input points vector."%string], Vector3d_default)
  | p0 :: _ =>
      '(min_values, max_values) <- bbox_scan points (p0, p0) ;;
      dimensions <-
        for_each (seq 0 (length min_values))
          (fun i dimensions =>
             hi <- at_ max_values i ;;
             lo <- at_ min_values i ;;
             Ret (dimensions ++ [hi - lo]))
          [] ;;
      d0 <- at_ dimensions 0 ;;
      d1 <- at_ dimensions 1 ;;
      d2 <- at_ dimensions 2 ;;
      Ret ([], V3 d0 d1 d2)
  end.

(** [verticesVectorToEigen]: an n-by-3 matrix, one row per vertex. *)
Fixpoint verticesVectorToEigen (vertices : list (list Q)) : outcome (list vec3) :=
  match vertices with
  | [] => Ret []
  | vtx :: rest =>
      a <- at_ vtx 0 ;;
      b <- at_ vtx 1 ;;
      c <- at_ vtx 2 ;;
      rows <- verticesVectorToEigen rest ;;
      Ret (V3 a b c :: rows)
  end.

(** [calculateCentroid].  [centroid /= points.rows()] on a matrix without
    rows divides zero by zero, which is not a finite double. *)
Definition calculateCentroid (points : list vec3) : outcome vec3 :=
  let centroid := fold_left vadd points (V3 0 0 0) in
  if (length points =? 0)%nat then NotFinite
  else Ret (vdiv centroid (inject_Z (Z.of_nat (length points)))).

(** [minCoeff(&index)]: the first index of the smallest coefficient, scanning
    from coefficient 0. *)
Fixpoint minCoeff_from (rest : list Q) (i : nat) (best : Q) (index : nat) : Q * nat :=
  match rest with
  | [] => (best, index)
  | d :: rest' =>
      if Qltb d best then minCoeff_from rest' (S i) d i
      else minCoeff_from rest' (S i) best index
  end.

(** On a vector without coefficients Eigen reads coefficient 0 all the
    same. *)
Definition minCoeff (v : list Q) : outcome (Q * nat) :=
  match v with
  | [] => OutOfBounds
  | d0 :: rest => Ret (minCoeff_from rest 1 d0 0%nat)
  end.

(** [nearestObjectPoint]. *)
Definition nearestObjectPoint (vertices_matrix : list vec3) (path_point : vec3)
  : outcome vec3 :=
  let distances := map (fun r => norm (vsub r path_point)) vertices_matrix in
  '(min_dist, index) <- minCoeff distances ;;
  at_ vertices_matrix index.

(** *** Obstacle coupling *)

(** One term [g * R * v_e * theta * exp(-b * theta) * exp(-kk * dist)],
    multiplied from the left as C++ parses it. *)
Definition coupling_term (g : Q) (R : mat3) (v_e : vec3) (theta b kk dist : Q) : vec3 :=
  vscale_r
    (vscale_r (vscale_r (mat_vec (mscale_l g R) v_e) theta) (exp (- b * theta)))
    (exp (- kk * dist)).

(** [acos(d.dot(v_e) / (d.norm() * v_e.norm() + epsilon))]. *)
Definition steering_angle (d v_e : vec3) : Q :=
  acos (dot d v_e / (norm d * norm v_e + epsilon)).

(** The rotation by [0.5 * M_PI * |d x v_e|] about [d x v_e]. *)
Definition steering_rotation (d v_e : vec3) : mat3 :=
  let r := (1 # 2) * M_PI * norm (cross d v_e) in
  toRotationMatrix r (normalized (cross d v_e)).

(** The in-place padding of a coefficient vector shorter than [n]:
    [c = std::vector<double>{c[0], 0.0, ...}]. *)
Definition pad_coeffs (c : list Q) (n : nat) : outcome (list Q) :=
  if (length c <? n)%nat then c0 <- at_ c 0 ;; Ret (c0 :: repeat 0 (n - 1))
  else Ret c.

(** What [artificialPotentialFieldCoupling] leaves behind: the output vector
    and the three coefficient vectors it received by reference. *)
Record CouplingResult : Type := {
  cr_apf_ct : list Q;
  cr_beta : list Q;
  cr_gamma : list Q;
  cr_k : list Q
}.

Definition artificialPotentialFieldCoupling (apf_ct x v : list Q) (o : list (list Q))
  (beta gamma k : list Q) (m n : Q) : outcome CouplingResult :=
  x0 <- at_ x 0 ;; x1 <- at_ x 1 ;; x2 <- at_ x 2 ;;
  let x_e := V3 x0 x1 x2 in
  v0 <- at_ v 0 ;; v1 <- at_ v 1 ;; v2 <- at_ v 2 ;;
  let v_e := V3 v0 v1 v2 in
  if (length o =? 1)%nat then
    o0 <- at_ o 0 ;;
    oa <- at_ o0 0 ;; ob <- at_ o0 1 ;; oc <- at_ o0 2 ;;
    let o_e := V3 oa ob oc in
    let o_diff := vsub o_e x_e in
    let R := steering_rotation o_diff v_e in
    let theta := steering_angle o_diff v_e in
    g0 <- at_ gamma 0 ;; b0 <- at_ beta 0 ;; k0 <- at_ k 0 ;;
    let apf_ct_e := coupling_term g0 R v_e theta b0 k0 (norm o_diff) in
    Ret {| cr_apf_ct := apf_ct ++ vec3_to_list apf_ct_e;
           cr_beta := beta; cr_gamma := gamma; cr_k := k |}
  else
    '(_, dim_e) <- calculate_bounding_box_dimensions o ;;
    ov_e <- verticesVectorToEigen o ;;
    oc_e <- calculateCentroid ov_e ;;
    op_e <- nearestObjectPoint ov_e x_e ;;
    beta <- pad_coeffs beta 2 ;;
    gamma <- pad_coeffs gamma 3 ;;
    k <- pad_coeffs k 3 ;;
    (* obstacle centroid point coupling *)
    let oc_diff := vsub oc_e x_e in
    let R := steering_rotation oc_diff v_e in
    let theta_o := steering_angle oc_diff v_e in
    g0 <- at_ gamma 0 ;; b0 <- at_ beta 0 ;; k0 <- at_ k 0 ;;
    let apf_ct_e := coupling_term g0 R v_e theta_o b0 k0 (norm oc_diff) in
    (* nearest point coupling, with the rotation of the centroid *)
    let op_diff := vsub op_e x_e in
    let theta_p := steering_angle op_diff v_e in
    g1 <- at_ gamma 1 ;; b1 <- at_ beta 1 ;; k1 <- at_ k 1 ;;
    let apf_ct_e := vadd apf_ct_e (coupling_term g1 R v_e theta_p b1 k1 (norm op_diff)) in
    (* obstacle centroid point without angle *)
    g2 <- at_ gamma 2 ;; k2 <- at_ k 2 ;;
    let apf_ct_e :=
      vadd apf_ct_e
        (vscale_r (mat_vec (mscale_l g2 R) v_e) (exp (- k2 * norm op_diff))) in
    (* scale with the bounding box; the third factor uses the y extent *)
    let dim_s_e := V3 (n + m * vx dim_e) (n + m * vy dim_e) (n + m * vy dim_e) in
    let apf_ct_e := cwise_mul apf_ct_e dim_s_e in
    Ret {| cr_apf_ct := apf_ct ++ vec3_to_list apf_ct_e;
           cr_beta := beta; cr_gamma := gamma; cr_k := k |}.

(** *** learnFromDemo *)

(** [demo.points[i].positions[d]]. *)
Definition demo_position (demo : DMPTraj) (i d : nat) : outcome Q :=
  p <- at_ (points demo) i ;; at_ (positions p) d.

(** The loop that estimates [v] and [v_dot] for dimension [d]. *)
Definition demo_derivatives (demo : DMPTraj) (d n_pts : nat) (buf : DemoBuffers)
  : outcome DemoBuffers :=
  for_each (seq 1 (n_pts - 1))
    (fun i buf =>
       xi <- demo_position demo i d ;;
       xs <- set_at (x_demo buf) i xi ;;
       x_i <- at_ xs i ;;
       x_p <- at_ xs (i - 1) ;;
       let dx := x_i - x_p in
       t_i <- at_ (times demo) i ;;
       t_p <- at_ (times demo) (i - 1) ;;
       let dt := t_i - t_p in
       vs <- set_at (v_demo buf) i (dx / dt) ;;
       v_i <- at_ vs i ;;
       v_p <- at_ vs (i - 1) ;;
       vds <- set_at (v_dot_demo buf) i ((v_i - v_p) / dt) ;;
       Ret {| x_demo := xs; v_demo := vs; v_dot_demo := vds;
              buf_f_domain := buf_f_domain buf;
              buf_f_targets := buf_f_targets buf |})
    buf.

(** The loop that fills [f_domain] and [f_targets] for one dimension. *)
Definition demo_targets (demo : DMPTraj) (n_pts : nat)
  (tau curr_k curr_d x_0 goal : Q) (buf : DemoBuffers) : outcome DemoBuffers :=
  for_each (seq 0 n_pts)
    (fun i buf =>
       t_i <- at_ (times demo) i ;;
       let phase := calcPhase t_i tau in
       doms <- set_at (buf_f_domain buf) i (t_i / tau) ;;
       v_dot_i <- at_ (v_dot_demo buf) i ;;
       v_i <- at_ (v_demo buf) i ;;
       x_i <- at_ (x_demo buf) i ;;
       tgts <- set_at (buf_f_targets buf) i
                 ((tau * tau * v_dot_i + curr_d * tau * v_i) / curr_k
                  - (goal - x_i) + (goal - x_0) * phase) ;;
       tgt <- at_ tgts i ;;
       tgts <- set_at tgts i (tgt / phase) ;;
       Ret {| x_demo := x_demo buf; v_demo := v_demo buf;
              v_dot_demo := v_dot_demo buf;
              buf_f_domain := doms; buf_f_targets := tgts |})
    buf.

(** [for(i...) out.push_back(arr[i])]. *)
Definition copy_out (arr : list Q) (n_pts : nat) : outcome (list Q) :=
  for_each (seq 0 n_pts) (fun i out => a <- at_ arr i ;; Ret (out ++ [a])) [].

(** One turn of the loop over the dimensions. *)
Definition learn_dimension (demo : DMPTraj) (k_gains d_gains : list Q)
  (num_bases : Z) (n_pts : nat) (tau : Q) (d : nat)
  (s : DemoBuffers * list DMPData) : outcome (DemoBuffers * list DMPData) :=
  let '(buf, dmp_list) := s in
  curr_k <- at_ k_gains d ;;
  curr_d <- at_ d_gains d ;;
  x_0 <- demo_position demo 0 d ;;
  goal <- demo_position demo (n_pts - 1) d ;;
  x00 <- demo_position demo 0 d ;;
  xs <- set_at (x_demo buf) 0 x00 ;;
  vs <- set_at (v_demo buf) 0 0 ;;
  vds <- set_at (v_dot_demo buf) 0 0 ;;
  let buf := {| x_demo := xs; v_demo := vs; v_dot_demo := vds;
                buf_f_domain := buf_f_domain buf;
                buf_f_targets := buf_f_targets buf |} in
  buf <- demo_derivatives demo d n_pts buf ;;
  buf <- demo_targets demo n_pts tau curr_k curr_d x_0 goal buf ;;
  let w := leastSquaresWeights num_bases (buf_f_domain buf) (buf_f_targets buf) n_pts in
  dom <- copy_out (buf_f_domain buf) n_pts ;;
  tgt <- copy_out (buf_f_targets buf) n_pts ;;
  let curr_dmp := {| k_gain := curr_k; d_gain := curr_d; weights := w;
                     f_domain := dom; f_targets := tgt |} in
  Ret (buf, dmp_list ++ [curr_dmp]).

(** [learnFromDemo]: the result is the output argument [dmp_list] on return.
    The five arrays come from [new double[n_pts]], which does not initialise
    them: [heap] is what they hold on allocation. *)
Definition learnFromDemo (heap : DemoBuffers) (demo : DMPTraj)
  (k_gains d_gains : list Q) (num_bases : Z) (dmp_list : list DMPData)
  : outcome (list DMPData) :=
  let n_pts := length (points demo) in
  if (n_pts <? 1)%nat then Ret dmp_list
  else
    p0 <- at_ (points demo) 0 ;;
    let dims := length (positions p0) in
    tau <- at_ (times demo) (n_pts - 1) ;;
    '(_, dmp_list) <-
      for_each (seq 0 dims)
        (learn_dimension demo k_gains d_gains num_bases n_pts tau)
        (heap, dmp_list) ;;
    Ret dmp_list.

(** *** generatePlan *)

Section Plan.

Variable a : PlanArgs.

Definition dims : nat := length (dmp_list a).

(** [double dt = total_dt / integrate_iter]. *)
Definition dt : Q := total_dt a / inject_Z (integrate_iter a).

(** The variables on entry to the [while] loop. *)
Definition plan_init : PlanState :=
  {| t := 0; n_pts := 0;
     x_vecs := repeat [] dims; x_dot_vecs := repeat [] dims;
     t_vec := []; at_goal := false; seg_end := false;
     beta := arg_beta a; gamma := arg_gamma a; k := arg_k a |}.

(** The condition of the [while] loop. *)
Definition plan_cond (st : PlanState) : bool :=
  (Qltb (t st + t_0 a) (tau a)
   || (negb (at_goal st) && Qltb (t st) MAX_PLAN_LENGTH))
  && negb (seg_end st).

(** [if(seg_length > 0){ if (t > seg_length) seg_end = true; }]. *)
Definition check_segment (st : PlanState) : bool :=
  if Qgtb (seg_length a) 0 then
    if Qgtb (t st) (seg_length a) then true else seg_end st
  else seg_end st.

(** [{v[0][n_pts-1], v[1][n_pts-1], v[2][n_pts-1]}]. *)
Definition last_three (vecs : list (list Q)) (n_pts : nat) : outcome (list Q) :=
  v0 <- at_ vecs 0 ;; a0 <- at_ v0 (n_pts - 1) ;;
  v1 <- at_ vecs 1 ;; a1 <- at_ v1 (n_pts - 1) ;;
  v2 <- at_ vecs 2 ;; a2 <- at_ v2 (n_pts - 1) ;;
  Ret [a0; a1; a2].

Definition first_three (v : list Q) : outcome (list Q) :=
  a0 <- at_ v 0 ;; a1 <- at_ v 1 ;; a2 <- at_ v 2 ;; Ret [a0; a1; a2].

(** The coupling vector [apf_ct] of one turn, with the coefficient vectors as
    the call leaves them. *)
Definition plan_coupling (st : PlanState) : outcome CouplingResult :=
  if (0 <? length (obstacle a))%nat && ((dims =? 3)%nat || (dims =? 6)%nat) then
    x_avd <- (if (n_pts st =? 0)%nat then first_three (x_0 a)
              else last_three (x_vecs st) (n_pts st)) ;;
    v_avd <- (if (n_pts st =? 0)%nat then first_three (x_dot_0 a)
              else l <- last_three (x_dot_vecs st) (n_pts st) ;;
                   Ret (map (fun q => q * tau a) l)) ;;
    r <- artificialPotentialFieldCoupling [] x_avd v_avd (obstacle a)
           (beta st) (gamma st) (k st) (arg_m a) (arg_n a) ;;
    Ret {| cr_apf_ct := if (dims =? 6)%nat then resize (cr_apf_ct r) 6 0
                        else cr_apf_ct r;
           cr_beta := cr_beta r; cr_gamma := cr_gamma r; cr_k := cr_k r |}
  else
    Ret {| cr_apf_ct := repeat 0 dims;
           cr_beta := beta st; cr_gamma := gamma st; cr_k := k st |}.

(** The forcing term of a sub-step of dimension [i] at loop time [t]. *)
Definition forcing (w : list Q) (t s : Q) : Q :=
  let log_s := (t + t_0 a) / tau a in
  if Qgeb log_s 1 then 0 else evalAt w log_s * s.

(** One turn of the integration loop of dimension [i]: the pair is [(x, v)]. *)
Definition substep (t : Q) (apf_ct : list Q) (i iter : nat) (xv : Q * Q)
  : outcome (Q * Q) :=
  let '(x, v) := xv in
  let s := calcPhase ((t + t_0 a) + dt * inject_Z (Z.of_nat iter)) (tau a) in
  dmp <- at_ (dmp_list a) i ;;
  let f_eval := forcing (weights dmp) t s in
  g <- at_ (goal a) i ;;
  x0 <- at_ (x_0 a) i ;;
  c <- at_ apf_ct i ;;
  let v_dot := (k_gain dmp * ((g - x) - (g - x0) * s + f_eval) - d_gain dmp * v + c)
               / tau a in
  let x_dot := v / tau a in
  Ret (x + x_dot * dt, v + v_dot * dt).

(** The [x] and [v] that dimension [i] starts a turn from. *)
Definition start_state (st : PlanState) (i : nat) : outcome (Q * Q) :=
  if (n_pts st =? 0)%nat then
    x <- at_ (x_0 a) i ;; v <- at_ (x_dot_0 a) i ;; Ret (x, v)
  else
    xs <- at_ (x_vecs st) i ;; x <- at_ xs (n_pts st - 1) ;;
    vs <- at_ (x_dot_vecs st) i ;; v <- at_ vs (n_pts st - 1) ;;
    Ret (x, v * tau a).

Definition integrate (t : Q) (apf_ct : list Q) (i : nat) (xv : Q * Q)
  : outcome (Q * Q) :=
  for_each (seq 0 (Z.to_nat (integrate_iter a))) (substep t apf_ct i) xv.

(** The body of [for(int i=0; i<dims; i++)]: plan dimension [i] and push the
    new [x] and [v/tau]. *)
Definition plan_dimension (apf_ct : list Q) (i : nat) (st : PlanState)
  : outcome PlanState :=
  xv <- start_state st i ;;
  '(x, v) <- integrate (t st) apf_ct i xv ;;
  xs <- at_ (x_vecs st) i ;;
  x_vecs' <- set_at (x_vecs st) i (xs ++ [x]) ;;
  vs <- at_ (x_dot_vecs st) i ;;
  x_dot_vecs' <- set_at (x_dot_vecs st) i (vs ++ [v / tau a]) ;;
  Ret {| t := t st; n_pts := n_pts st;
         x_vecs := x_vecs'; x_dot_vecs := x_dot_vecs';
         t_vec := t_vec st; at_goal := at_goal st; seg_end := seg_end st;
         beta := beta st; gamma := gamma st; k := k st |}.

(** The goal test of dimension [i] inside [if((t+t_0) >= tau)]. *)
Definition goal_check (st : PlanState) (i : nat) (at_goal : bool) : outcome bool :=
  thr <- at_ (goal_thresh a) i ;;
  if Qgtb thr 0 then
    xs <- at_ (x_vecs st) i ;;
    x <- at_ xs (n_pts st - 1) ;;
    g <- at_ (goal a) i ;;
    if Qgtb (Qabs (x - g)) thr then Ret false else Ret at_goal
  else Ret at_goal.

(** The body of the [while] loop. *)
Definition plan_body (st : PlanState) : outcome PlanState :=
  let seg_end' := check_segment st in
  r <- plan_coupling st ;;
  let st := {| t := t st; n_pts := n_pts st;
               x_vecs := x_vecs st; x_dot_vecs := x_dot_vecs st;
               t_vec := t_vec st; at_goal := at_goal st; seg_end := seg_end';
               beta := cr_beta r; gamma := cr_gamma r; k := cr_k r |} in
  st <- for_each (seq 0 dims) (plan_dimension (cr_apf_ct r)) st ;;
  let t' := t st + total_dt a in
  let st := {| t := t'; n_pts := S (n_pts st);
               x_vecs := x_vecs st; x_dot_vecs := x_dot_vecs st;
               t_vec := t_vec st ++ [t']; at_goal := at_goal st;
               seg_end := seg_end st;
               beta := beta st; gamma := gamma st; k := k st |} in
  if Qgeb (t st + t_0 a) (tau a) then
    ag <- for_each (seq 0 dims) (goal_check st) true ;;
    Ret {| t := t st; n_pts := n_pts st;
           x_vecs := x_vecs st; x_dot_vecs := x_dot_vecs st;
           t_vec := t_vec st; at_goal := ag; seg_end := seg_end st;
           beta := beta st; gamma := gamma st; k := k st |}
  else Ret st.

(** The [while] loop, run for at most [fuel] turns. *)
Fixpoint plan_loop (fuel : nat) (st : PlanState) : outcome PlanState :=
  if plan_cond st then
    match fuel with
    | O => Diverge
    | S fuel' => st' <- plan_body st ;; plan_loop fuel' st'
    end
  else Ret st.

(** [plan.points[j].positions[i] = x_vecs[i][j];
     plan.points[j].velocities[i] = x_dot_vecs[i][j];]. *)
Definition fill_point (st : PlanState) (i j : nat) (pts : list DMPPoint)
  : outcome (list DMPPoint) :=
  xs <- at_ (x_vecs st) i ;;
  x <- at_ xs j ;;
  p <- at_ pts j ;;
  pos <- set_at (positions p) i x ;;
  pts <- set_at pts j {| positions := pos; velocities := velocities p |} ;;
  vs <- at_ (x_dot_vecs st) i ;;
  v <- at_ vs j ;;
  p <- at_ pts j ;;
  vel <- set_at (velocities p) i v ;;
  set_at pts j {| positions := positions p; velocities := vel |}.

(** The plan built from the collected trajectories once the loop is over. *)
Definition make_plan (st : PlanState) : outcome DMPTraj :=
  let blank := {| positions := repeat 0 dims; velocities := repeat 0 dims |} in
  pts <- for_each (seq 0 dims)
           (fun i pts => for_each (seq 0 (n_pts st)) (fill_point st i) pts)
           (repeat blank (n_pts st)) ;;
  Ret {| points := pts; times := t_vec st |}.

(** [generatePlan]: the outputs [plan] and [at_goal]. *)
Definition generatePlan (fuel : nat) : outcome (DMPTraj * bool) :=
  st <- plan_loop fuel plan_init ;;
  plan <- make_plan st ;;
  Ret (plan, at_goal st).

End Plan.

End Program.

(** ** dmp_server.cpp: decoding the flat obstacle list of a plan request *)

(** The loop [for(int i=0; i<req.obstacle.size(); i+=3)] of [planCallback],
    entered at index [i]; each turn reads three scalars, and [fuel] bounds the
    number of turns. *)
Fixpoint obstacle_rows (fuel : nat) (req_obstacle : list Q) (i : nat)
  (obstacle : list (list Q)) : outcome (list (list Q)) :=
  if (i <? length req_obstacle)%nat then
    match fuel with
    | O => Diverge
    | S fuel' =>
        a <- at_ req_obstacle i ;;
        b <- at_ req_obstacle (i + 1) ;;
        c <- at_ req_obstacle (i + 2) ;;
        obstacle_rows fuel' req_obstacle (i + 3) (obstacle ++ [[a; b; c]])
    end
  else Ret obstacle.

(** The obstacle argument that [planCallback] hands to [generatePlan]. *)
Definition planCallback_obstacle (req_obstacle : list Q) : outcome (list (list Q)) :=
  if (3 <? length req_obstacle)%nat then
    obstacle_rows (length req_obstacle) req_obstacle 0 []
  else if (length req_obstacle =? 3)%nat then
    Ret [req_obstacle]
  else Ret [].

(** ** dmp_server.cpp: the three service callbacks *)

Record LearnDMPFromDemoRequest : Type := {
  req_demo : DMPTraj;
  req_k_gains : list Q;
  req_d_gains : list Q;
  req_num_bases : Z
}.

Record LearnDMPFromDemoResponse : Type := {
  res_dmp_list : list DMPData;
  res_tau : Q
}.

Record GetDMPPlanRequest : Type := {
  req_x_0 : list Q;
  req_x_dot_0 : list Q;
  req_t_0 : Q;
  req_goal : list Q;
  req_goal_thresh : list Q;
  req_seg_length : Q;
  req_tau : Q;
  req_dt : Q;
  req_integrate_iter : Z;
  req_obstacle : list Q;
  req_beta : list Q;
  req_gamma : list Q;
  req_k : list Q;
  req_scale_m : Q;
  req_scale_n : Q
}.

Record GetDMPPlanResponse : Type := {
  res_plan : DMPTraj;
  res_at_goal : bool
}.

(** [v[v.size()-1]]: on an empty vector the unsigned index wraps around to
    the largest [size_t], which is out of range. *)
Definition at_last {A : Type} (v : list A) : outcome A :=
  match length v with
  | O => OutOfBounds
  | S m => at_ v m
  end.

(** The global [active_dmp_list] when the server starts. *)
Definition active_dmp_list_init : list DMPData := [].

(** [activeCallback]: the new [active_dmp_list] and [res.success]. *)
Definition activeCallback (active_dmp_list req_dmp_list : list DMPData)
  : list DMPData * bool :=
  (req_dmp_list, true).

Section Callbacks.

Context {E : Extern}.

(** [lfdCallback]: the response on return; [heap] is what the arrays of
    [learnFromDemo] hold on allocation. *)
Definition lfdCallback (heap : DemoBuffers) (req : LearnDMPFromDemoRequest)
  : outcome LearnDMPFromDemoResponse :=
  dmp_list <- learnFromDemo heap (req_demo req) (req_k_gains req)
                (req_d_gains req) (req_num_bases req) [] ;;
  tau <- at_last (times (req_demo req)) ;;
  Ret {| res_dmp_list := dmp_list; res_tau := tau |}.

(** The arguments [planCallback] passes to [generatePlan]. *)
Definition planCallback_args (active_dmp_list : list DMPData)
  (req : GetDMPPlanRequest) (obstacle : list (list Q)) : PlanArgs :=
  {| dmp_list := active_dmp_list;
     x_0 := req_x_0 req; x_dot_0 := req_x_dot_0 req; t_0 := req_t_0 req;
     goal := req_goal req; goal_thresh := req_goal_thresh req;
     seg_length := req_seg_length req; tau := req_tau req;
     total_dt := req_dt req; integrate_iter := req_integrate_iter req;
     obstacle := obstacle;
     arg_beta := req_beta req; arg_gamma := req_gamma req; arg_k := req_k req;
     arg_m := req_scale_m req; arg_n := req_scale_n req |}.

(** [planCallback]: the response on return. *)
Definition planCallback (active_dmp_list : list DMPData)
  (req : GetDMPPlanRequest) (fuel : nat) : outcome GetDMPPlanResponse :=
  obstacle <- planCallback_obstacle (req_obstacle req) ;;
  '(plan, at_goal) <-
    generatePlan (planCallback_args active_dmp_list req obstacle) fuel ;;
  Ret {| res_plan := plan; res_at_goal := at_goal |}.

End Callbacks.

(** ** Sample inputs *)

Definition plan_small : PlanArgs :=
  {| dmp_list := [ {| k_gain := 25; d_gain := 10; weights := [0; 0];
                      f_domain := []; f_targets := [] |} ];
     x_0 := [0]; x_dot_0 := [0]; t_0 := 0; goal := [10];
     goal_thresh := [1 # 100]; seg_length := -1; tau := 2; total_dt := 1;
     integrate_iter := 1; obstacle := [];
     arg_beta := []; arg_gamma := []; arg_k := []; arg_m := 0; arg_n := 0 |}.

(** Arrays of [n] doubles that happen to hold zeros. *)
Definition zero_buffers (n : nat) : DemoBuffers :=
  {| x_demo := repeat 0 n; v_demo := repeat 0 n; v_dot_demo := repeat 0 n;
     buf_f_domain := repeat 0 n; buf_f_targets := repeat 0 n |}.

(** A demonstration of three points in one dimension. *)
Definition demo_line : DMPTraj :=
  {| points := [ {| positions := [0]; velocities := [] |};
                 {| positions := [4]; velocities := [] |};
                 {| positions := [10]; velocities := [] |} ];
     times := [0; 1; 2] |}.


(** [plan_small] cut off after a segment of one second. *)
Definition plan_segment : PlanArgs :=
  {| dmp_list := dmp_list plan_small;
     x_0 := [0]; x_dot_0 := [0]; t_0 := 0; goal := [10];
     goal_thresh := [1 # 100]; seg_length := 1; tau := 2; total_dt := 1;
     integrate_iter := 1; obstacle := [];
     arg_beta := []; arg_gamma := []; arg_k := []; arg_m := 0; arg_n := 0 |}.

(** [plan_small] started at position 3 with velocity 4, without
    integration sub-steps. *)
Definition plan_frozen : PlanArgs :=
  {| dmp_list := dmp_list plan_small;
     x_0 := [3]; x_dot_0 := [4]; t_0 := 0; goal := [10];
     goal_thresh := [1 # 100]; seg_length := -1; tau := 2; total_dt := 1;
     integrate_iter := 0; obstacle := [];
     arg_beta := []; arg_gamma := []; arg_k := []; arg_m := 0; arg_n := 0 |}.

(** [plan_small] with no start position. *)
Definition plan_no_start : PlanArgs :=
  {| dmp_list := dmp_list plan_small;
     x_0 := []; x_dot_0 := [0]; t_0 := 0; goal := [10];
     goal_thresh := [1 # 100]; seg_length := -1; tau := 2; total_dt := 1;
     integrate_iter := 1; obstacle := [];
     arg_beta := []; arg_gamma := []; arg_k := []; arg_m := 0; arg_n := 0 |}.

(** Six dimensions (a pose) next to an obstacle of one point. *)
Definition plan_six : PlanArgs :=
  {| dmp_list := repeat {| k_gain := 25; d_gain := 10; weights := [0; 0];
                           f_domain := []; f_targets := [] |} 6;
     x_0 := repeat 0 6; x_dot_0 := repeat 0 6; t_0 := 0; goal := repeat 1 6;
     goal_thresh := repeat 0 6; seg_length := -1; tau := 2; total_dt := 1;
     integrate_iter := 1; obstacle := [[1; 1; 1]];
     arg_beta := [1]; arg_gamma := [1]; arg_k := [1]; arg_m := 1; arg_n := 1 |}.

(** Arrays of [n] doubles that happen to hold ones. *)
Definition one_buffers (n : nat) : DemoBuffers :=
  {| x_demo := repeat 1 n; v_demo := repeat 1 n; v_dot_demo := repeat 1 n;
     buf_f_domain := repeat 1 n; buf_f_targets := repeat 1 n |}.

(** The request to learn from [demo_line]. *)
Definition learn_request : LearnDMPFromDemoRequest :=
  {| req_demo := demo_line; req_k_gains := [25]; req_d_gains := [10];
     req_num_bases := 4 |}.

(** A request to learn from a demonstration without points. *)
Definition learn_nothing : LearnDMPFromDemoRequest :=
  {| req_demo := {| points := []; times := [0; 1] |};
     req_k_gains := [25]; req_d_gains := [10]; req_num_bases := 4 |}.

(** A plan request with the flat obstacle list [o]. *)
Definition plan_request (o : list Q) : GetDMPPlanRequest :=
  {| req_x_0 := [0]; req_x_dot_0 := [0]; req_t_0 := 0; req_goal := [10];
     req_goal_thresh := [1 # 100]; req_seg_length := -1; req_tau := 2;
     req_dt := 1; req_integrate_iter := 1; req_obstacle := o;
     req_beta := [1]; req_gamma := [1]; req_k := [1];
     req_scale_m := 1; req_scale_n := 1 |}.

(** [plan_small] handed an obstacle and coupling parameters, which one
    dimension does not use. *)
Definition plan_unused_obstacle : PlanArgs :=
  {| dmp_list := dmp_list plan_small;
     x_0 := [0]; x_dot_0 := [0]; t_0 := 0; goal := [10];
     goal_thresh := [1 # 100]; seg_length := -1; tau := 2; total_dt := 1;
     integrate_iter := 1; obstacle := [[1; 1; 1]; [2; 2; 3]];
     arg_beta := [1]; arg_gamma := [2]; arg_k := [3]; arg_m := 4; arg_n := 5 |}.

(** ** A rational stand-in for the external functions

    Low-order rational approximations, used only to run the model on
    concrete inputs; every theorem below holds for any [Extern]. *)

Definition newton_sqrt (x : Q) : Q :=
  let step y := (y + x / y) / 2 in
  Qred (step (step (step 1))).

Fixpoint horner (w : list Q) (x : Q) : Q :=
  match w with
  | [] => 0
  | c :: w' => Qred (c + x * horner w' x)
  end.

Definition rational_extern : Extern := {|
  exp := fun x => Qred (1 + x + x * x / 2 + x * x * x / 6);
  log := fun x => Qred (2 * ((x - 1) / (x + 1)));
  acos := fun x => Qred (M_PI / 2 - x - x * x * x / 6);
  sqrt := newton_sqrt;
  sin := fun x => Qred (x - x * x * x / 6);
  cos := fun x => Qred (1 - x * x / 2);
  Vector3d_default := V3 0 0 0;
  evalAt := horner;
  leastSquaresWeights := fun num_bases _ _ _ => repeat 0 (Z.to_nat num_bases)
|}.

(** * The same code on IEEE binary64

    The definitions above compute with exact rationals.  Where a claim
    depends on what rounding, infinities or NaN do, the code is modelled
    once more on Rocq's primitive floats, which are the binary64 doubles
    of C++ with round-to-nearest: the obstacle coupling with its geometry
    helpers, and [generatePlan].  The names are those of the source; the
    module keeps them apart from the exact ones. *)

Module Binary64.

Import PrimFloat.

Local Open Scope float_scope.

(** [a > b] and [a >= b]; both are false when an operand is NaN. *)
Definition gtb (a b : float) : bool := b <? a.
Definition geb (a b : float) : bool := b <=? a.

Definition std_min (a b : float) : float := if b <? a then b else a.
Definition std_max (a b : float) : float := if a <? b then b else a.

(** An [int] converted to [double]. *)
Definition of_int (z : Z) : float :=
  match z with
  | Z0 => 0
  | Zpos _ => of_uint63 (Uint63.of_Z z)
  | Zneg p => - of_uint63 (Uint63.of_Z (Zpos p))
  end.

Record vec3 : Type := V3 { vx : float; vy : float; vz : float }.
Record mat3 : Type := M3 { row0 : vec3; row1 : vec3; row2 : vec3 }.

(** What lives outside [src/]: <cmath> (but for [sqrt] and [fabs], which
    IEEE 754 fixes), the default Eigen vector and FourierApprox. *)
Class Extern : Type := {
  exp : float -> float;
  log : float -> float;
  acos : float -> float;
  sin : float -> float;
  cos : float -> float;
  Vector3d_default : vec3;
  evalAt : list float -> float -> float
}.

#[warnings="-inexact-float"]
Definition M_PI : float := 3.14159265358979323846.

Definition MAX_PLAN_LENGTH : float := 1000.

#[warnings="-inexact-float"]
Definition epsilon : float := 1e-10.

Definition vadd (a b : vec3) : vec3 := V3 (vx a + vx b) (vy a + vy b) (vz a + vz b).
Definition vsub (a b : vec3) : vec3 := V3 (vx a - vx b) (vy a - vy b) (vz a - vz b).
Definition vscale_l (s : float) (a : vec3) : vec3 := V3 (s * vx a) (s * vy a) (s * vz a).
Definition vscale_r (a : vec3) (s : float) : vec3 := V3 (vx a * s) (vy a * s) (vz a * s).
Definition vdiv (a : vec3) (s : float) : vec3 := V3 (vx a / s) (vy a / s) (vz a / s).
Definition cwise_mul (a b : vec3) : vec3 := V3 (vx a * vx b) (vy a * vy b) (vz a * vz b).
Definition dot (a b : vec3) : float := vx a * vx b + vy a * vy b + vz a * vz b.
Definition cross (a b : vec3) : vec3 :=
  V3 (vy a * vz b - vz a * vy b) (vz a * vx b - vx a * vz b) (vx a * vy b - vy a * vx b).
Definition mscale_l (s : float) (m : mat3) : mat3 :=
  M3 (vscale_l s (row0 m)) (vscale_l s (row1 m)) (vscale_l s (row2 m)).
Definition mat_vec (m : mat3) (a : vec3) : vec3 :=
  V3 (dot (row0 m) a) (dot (row1 m) a) (dot (row2 m) a).
Definition vec3_to_list (a : vec3) : list float := [vx a; vy a; vz a].

Record DMPPoint : Type := {
  positions : list float;
  velocities : list float
}.

Record DMPTraj : Type := {
  points : list DMPPoint;
  times : list float
}.

Record DMPData : Type := {
  k_gain : float;
  d_gain : float;
  weights : list float;
  f_domain : list float;
  f_targets : list float
}.

Record PlanArgs : Type := {
  dmp_list : list DMPData;
  x_0 : list float;
  x_dot_0 : list float;
  t_0 : float;
  goal : list float;
  goal_thresh : list float;
  seg_length : float;
  tau : float;
  total_dt : float;
  integrate_iter : Z;
  obstacle : list (list float);
  arg_beta : list float;
  arg_gamma : list float;
  arg_k : list float;
  arg_m : float;
  arg_n : float
}.

Record PlanState : Type := {
  t : float;
  n_pts : nat;
  x_vecs : list (list float);
  x_dot_vecs : list (list float);
  t_vec : list float;
  at_goal : bool;
  seg_end : bool;
  beta : list float;
  gamma : list float;
  k : list float
}.

Record CouplingResult : Type := {
  cr_apf_ct : list float;
  cr_beta : list float;
  cr_gamma : list float;
  cr_k : list float
}.

Section Program.

Context {E : Extern}.

Definition squaredNorm (a : vec3) : float := dot a a.
Definition norm (a : vec3) : float := sqrt (squaredNorm a).

Definition normalized (a : vec3) : vec3 :=
  if gtb (squaredNorm a) 0 then vdiv a (sqrt (squaredNorm a)) else a.

Definition toRotationMatrix (angle : float) (axis : vec3) : mat3 :=
  let sin_axis := vscale_l (sin angle) axis in
  let c := cos angle in
  let cos1_axis := vscale_l (1 - c) axis in
  let t01 := vx cos1_axis * vy axis in
  let t02 := vx cos1_axis * vz axis in
  let t12 := vy cos1_axis * vz axis in
  M3 (V3 (vx cos1_axis * vx axis + c) (t01 - vz sin_axis) (t02 + vy sin_axis))
     (V3 (t01 + vz sin_axis) (vy cos1_axis * vy axis + c) (t12 - vx sin_axis))
     (V3 (t02 - vy sin_axis) (t12 + vx sin_axis) (vz cos1_axis * vz axis + c)).

#[warnings="-inexact-float"]
Definition alpha : float := - log 0.01.

Definition calcPhase (curr_time tau : float) : float :=
  exp (- (alpha / tau) * curr_time).

(** *** Geometry helpers *)

Definition bbox_update_point (point : list float) (mm : list float * list float)
  : outcome (list float * list float) :=
  for_each (seq 0 (length point))
    (fun i '(min_values, max_values) =>
       p <- at_ point i ;;
       lo <- at_ min_values i ;;
       min_values' <- set_at min_values i (std_min lo p) ;;
       hi <- at_ max_values i ;;
       max_values' <- set_at max_values i (std_max hi p) ;;
       Ret (min_values', max_values'))
    mm.

Fixpoint bbox_scan (points : list (list float)) (mm : list float * list float)
  : outcome (list float * list float) :=
  match points with
  | [] => Ret mm
  | point :: rest => mm' <- bbox_update_point point mm ;; bbox_scan rest mm'
  end.

Definition calculate_bounding_box_dimensions (points : list (list float))
  : outcome (list string * vec3) :=
  match points with
  | [] => Ret (["Error: Empty input points vector."%string], Vector3d_default)
  | [] :: _ => Ret (["Error: Empty input points vector."%string], Vector3d_default)
  | p0 :: _ =>
      '(min_values, max_values) <- bbox_scan points (p0, p0) ;;
      dimensions <-
        for_each (seq 0 (length min_values))
          (fun i dimensions =>
             hi <- at_ max_values i ;;
             lo <- at_ min_values i ;;
             Ret (dimensions ++ [hi - lo]))
          [] ;;
      d0 <- at_ dimensions 0 ;;
      d1 <- at_ dimensions 1 ;;
      d2 <- at_ dimensions 2 ;;
      Ret ([], V3 d0 d1 d2)
  end.

Fixpoint verticesVectorToEigen (vertices : list (list float)) : outcome (list vec3) :=
  match vertices with
  | [] => Ret []
  | vtx :: rest =>
      a <- at_ vtx 0 ;;
      b <- at_ vtx 1 ;;
      c <- at_ vtx 2 ;;
      rows <- verticesVectorToEigen rest ;;
      Ret (V3 a b c :: rows)
  end.

(** [calculateCentroid]; on a matrix without rows the division is [0 / 0],
    a NaN, and the function returns it. *)
Definition calculateCentroid (points : list vec3) : vec3 :=
  let centroid := fold_left vadd points (V3 0 0 0) in
  vdiv centroid (of_int (Z.of_nat (length points))).

Fixpoint minCoeff_from (rest : list float) (i : nat) (best : float) (index : nat)
  : float * nat :=
  match rest with
  | [] => (best, index)
  | d :: rest' =>
      if d <? best then minCoeff_from rest' (S i) d i
      else minCoeff_from rest' (S i) best index
  end.

Definition minCoeff (v : list float) : outcome (float * nat) :=
  match v with
  | [] => OutOfBounds
  | d0 :: rest => Ret (minCoeff_from rest 1 d0 0%nat)
  end.

Definition nearestObjectPoint (vertices_matrix : list vec3) (path_point : vec3)
  : outcome vec3 :=
  let distances := map (fun r => norm (vsub r path_point)) vertices_matrix in
  '(min_dist, index) <- minCoeff distances ;;
  at_ vertices_matrix index.

(** *** Obstacle coupling *)

Definition coupling_term (g : float) (R : mat3) (v_e : vec3)
  (theta b kk dist : float) : vec3 :=
  vscale_r
    (vscale_r (vscale_r (mat_vec (mscale_l g R) v_e) theta) (exp (- b * theta)))
    (exp (- kk * dist)).

(** The argument of [acos] in the coupling. *)
Definition steering_cosine (d v_e : vec3) : float :=
  dot d v_e / (norm d * norm v_e + epsilon).

Definition steering_angle (d v_e : vec3) : float :=
  acos (steering_cosine d v_e).

Definition steering_rotation (d v_e : vec3) : mat3 :=
  let r := 0.5 * M_PI * norm (cross d v_e) in
  toRotationMatrix r (normalized (cross d v_e)).

Definition pad_coeffs (c : list float) (n : nat) : outcome (list float) :=
  if (length c <? n)%nat then c0 <- at_ c 0 ;; Ret (c0 :: repeat 0 (n - 1))
  else Ret c.

Definition artificialPotentialFieldCoupling (apf_ct x v : list float)
  (o : list (list float)) (beta gamma k : list float) (m n : float)
  : outcome CouplingResult :=
  x0 <- at_ x 0 ;; x1 <- at_ x 1 ;; x2 <- at_ x 2 ;;
  let x_e := V3 x0 x1 x2 in
  v0 <- at_ v 0 ;; v1 <- at_ v 1 ;; v2 <- at_ v 2 ;;
  let v_e := V3 v0 v1 v2 in
  if (length o =? 1)%nat then
    o0 <- at_ o 0 ;;
    oa <- at_ o0 0 ;; ob <- at_ o0 1 ;; oc <- at_ o0 2 ;;
    let o_e := V3 oa ob oc in
    let o_diff := vsub o_e x_e in
    let R := steering_rotation o_diff v_e in
    let theta := steering_angle o_diff v_e in
    g0 <- at_ gamma 0 ;; b0 <- at_ beta 0 ;; k0 <- at_ k 0 ;;
    let apf_ct_e := coupling_term g0 R v_e theta b0 k0 (norm o_diff) in
    Ret {| cr_apf_ct := apf_ct ++ vec3_to_list apf_ct_e;
           cr_beta := beta; cr_gamma := gamma; cr_k := k |}
  else
    '(_, dim_e) <- calculate_bounding_box_dimensions o ;;
    ov_e <- verticesVectorToEigen o ;;
    let oc_e := calculateCentroid ov_e in
    op_e <- nearestObjectPoint ov_e x_e ;;
    beta <- pad_coeffs beta 2 ;;
    gamma <- pad_coeffs gamma 3 ;;
    k <- pad_coeffs k 3 ;;
    let oc_diff := vsub oc_e x_e in
    let R := steering_rotation oc_diff v_e in
    let theta_o := steering_angle oc_diff v_e in
    g0 <- at_ gamma 0 ;; b0 <- at_ beta 0 ;; k0 <- at_ k 0 ;;
    let apf_ct_e := coupling_term g0 R v_e theta_o b0 k0 (norm oc_diff) in
    let op_diff := vsub op_e x_e in
    let theta_p := steering_angle op_diff v_e in
    g1 <- at_ gamma 1 ;; b1 <- at_ beta 1 ;; k1 <- at_ k 1 ;;
    let apf_ct_e := vadd apf_ct_e (coupling_term g1 R v_e theta_p b1 k1 (norm op_diff)) in
    g2 <- at_ gamma 2 ;; k2 <- at_ k 2 ;;
    let apf_ct_e :=
      vadd apf_ct_e
        (vscale_r (mat_vec (mscale_l g2 R) v_e) (exp (- k2 * norm op_diff))) in
    let dim_s_e := V3 (n + m * vx dim_e) (n + m * vy dim_e) (n + m * vy dim_e) in
    let apf_ct_e := cwise_mul apf_ct_e dim_s_e in
    Ret {| cr_apf_ct := apf_ct ++ vec3_to_list apf_ct_e;
           cr_beta := beta; cr_gamma := gamma; cr_k := k |}.

(** *** generatePlan *)

Section Plan.

Variable a : PlanArgs.

Definition dims : nat := length (dmp_list a).

Definition dt : float := total_dt a / of_int (integrate_iter a).

Definition plan_init : PlanState :=
  {| t := 0; n_pts := 0;
     x_vecs := repeat [] dims; x_dot_vecs := repeat [] dims;
     t_vec := []; at_goal := false; seg_end := false;
     beta := arg_beta a; gamma := arg_gamma a; k := arg_k a |}.

Definition plan_cond (st : PlanState) : bool :=
  ((t st + t_0 a <? tau a)
   || (negb (at_goal st) && (t st <? MAX_PLAN_LENGTH)))
  && negb (seg_end st).

Definition check_segment (st : PlanState) : bool :=
  if gtb (seg_length a) 0 then
    if gtb (t st) (seg_length a) then true else seg_end st
  else seg_end st.

Definition last_three (vecs : list (list float)) (n_pts : nat)
  : outcome (list float) :=
  v0 <- at_ vecs 0 ;; a0 <- at_ v0 (n_pts - 1) ;;
  v1 <- at_ vecs 1 ;; a1 <- at_ v1 (n_pts - 1) ;;
  v2 <- at_ vecs 2 ;; a2 <- at_ v2 (n_pts - 1) ;;
  Ret [a0; a1; a2].

Definition first_three (v : list float) : outcome (list float) :=
  a0 <- at_ v 0 ;; a1 <- at_ v 1 ;; a2 <- at_ v 2 ;; Ret [a0; a1; a2].

Definition plan_coupling (st : PlanState) : outcome CouplingResult :=
  if (0 <? length (obstacle a))%nat && ((dims =? 3)%nat || (dims =? 6)%nat) then
    x_avd <- (if (n_pts st =? 0)%nat then first_three (x_0 a)
              else last_three (x_vecs st) (n_pts st)) ;;
    v_avd <- (if (n_pts st =? 0)%nat then first_three (x_dot_0 a)
              else l <- last_three (x_dot_vecs st) (n_pts st) ;;
                   Ret (map (fun q => q * tau a) l)) ;;
    r <- artificialPotentialFieldCoupling [] x_avd v_avd (obstacle a)
           (beta st) (gamma st) (k st) (arg_m a) (arg_n a) ;;
    Ret {| cr_apf_ct := if (dims =? 6)%nat then resize (cr_apf_ct r) 6 0
                        else cr_apf_ct r;
           cr_beta := cr_beta r; cr_gamma := cr_gamma r; cr_k := cr_k r |}
  else
    Ret {| cr_apf_ct := repeat 0 dims;
           cr_beta := beta st; cr_gamma := gamma st; cr_k := k st |}.

Definition forcing (w : list float) (t s : float) : float :=
  let log_s := (t + t_0 a) / tau a in
  if geb log_s 1 then 0 else evalAt w log_s * s.

Definition substep (t : float) (apf_ct : list float) (i iter : nat)
  (xv : float * float) : outcome (float * float) :=
  let '(x, v) := xv in
  let s := calcPhase ((t + t_0 a) + dt * of_int (Z.of_nat iter)) (tau a) in
  dmp <- at_ (dmp_list a) i ;;
  let f_eval := forcing (weights dmp) t s in
  g <- at_ (goal a) i ;;
  x0 <- at_ (x_0 a) i ;;
  c <- at_ apf_ct i ;;
  let v_dot := (k_gain dmp * ((g - x) - (g - x0) * s + f_eval) - d_gain dmp * v + c)
               / tau a in
  let x_dot := v / tau a in
  Ret (x + x_dot * dt, v + v_dot * dt).

Definition start_state (st : PlanState) (i : nat) : outcome (float * float) :=
  if (n_pts st =? 0)%nat then
    x <- at_ (x_0 a) i ;; v <- at_ (x_dot_0 a) i ;; Ret (x, v)
  else
    xs <- at_ (x_vecs st) i ;; x <- at_ xs (n_pts st - 1) ;;
    vs <- at_ (x_dot_vecs st) i ;; v <- at_ vs (n_pts st - 1) ;;
    Ret (x, v * tau a).

Definition integrate (t : float) (apf_ct : list float) (i : nat)
  (xv : float * float) : outcome (float * float) :=
  for_each (seq 0 (Z.to_nat (integrate_iter a))) (substep t apf_ct i) xv.

Definition plan_dimension (apf_ct : list float) (i : nat) (st : PlanState)
  : outcome PlanState :=
  xv <- start_state st i ;;
  '(x, v) <- integrate (t st) apf_ct i xv ;;
  xs <- at_ (x_vecs st) i ;;
  x_vecs' <- set_at (x_vecs st) i (xs ++ [x]) ;;
  vs <- at_ (x_dot_vecs st) i ;;
  x_dot_vecs' <- set_at (x_dot_vecs st) i (vs ++ [v / tau a]) ;;
  Ret {| t := t st; n_pts := n_pts st;
         x_vecs := x_vecs'; x_dot_vecs := x_dot_vecs';
         t_vec := t_vec st; at_goal := at_goal st; seg_end := seg_end st;
         beta := beta st; gamma := gamma st; k := k st |}.

Definition goal_check (st : PlanState) (i : nat) (at_goal : bool) : outcome bool :=
  thr <- at_ (goal_thresh a) i ;;
  if gtb thr 0 then
    xs <- at_ (x_vecs st) i ;;
    x <- at_ xs (n_pts st - 1) ;;
    g <- at_ (goal a) i ;;
    if gtb (abs (x - g)) thr then Ret false else Ret at_goal
  else Ret at_goal.

Definition plan_body (st : PlanState) : outcome PlanState :=
  let seg_end' := check_segment st in
  r <- plan_coupling st ;;
  let st := {| t := t st; n_pts := n_pts st;
               x_vecs := x_vecs st; x_dot_vecs := x_dot_vecs st;
               t_vec := t_vec st; at_goal := at_goal st; seg_end := seg_end';
               beta := cr_beta r; gamma := cr_gamma r; k := cr_k r |} in
  st <- for_each (seq 0 dims) (plan_dimension (cr_apf_ct r)) st ;;
  let t' := t st + total_dt a in
  let st := {| t := t'; n_pts := S (n_pts st);
               x_vecs := x_vecs st; x_dot_vecs := x_dot_vecs st;
               t_vec := t_vec st ++ [t']; at_goal := at_goal st;
               seg_end := seg_end st;
               beta := beta st; gamma := gamma st; k := k st |} in
  if geb (t st + t_0 a) (tau a) then
    ag <- for_each (seq 0 dims) (goal_check st) true ;;
    Ret {| t := t st; n_pts := n_pts st;
           x_vecs := x_vecs st; x_dot_vecs := x_dot_vecs st;
           t_vec := t_vec st; at_goal := ag; seg_end := seg_end st;
           beta := beta st; gamma := gamma st; k := k st |}
  else Ret st.

Fixpoint plan_loop (fuel : nat) (st : PlanState) : outcome PlanState :=
  if plan_cond st then
    match fuel with
    | O => Diverge
    | S fuel' => st' <- plan_body st ;; plan_loop fuel' st'
    end
  else Ret st.

Definition fill_point (st : PlanState) (i j : nat) (pts : list DMPPoint)
  : outcome (list DMPPoint) :=
  xs <- at_ (x_vecs st) i ;;
  x <- at_ xs j ;;
  p <- at_ pts j ;;
  pos <- set_at (positions p) i x ;;
  pts <- set_at pts j {| positions := pos; velocities := velocities p |} ;;
  vs <- at_ (x_dot_vecs st) i ;;
  v <- at_ vs j ;;
  p <- at_ pts j ;;
  vel <- set_at (velocities p) i v ;;
  set_at pts j {| positions := positions p; velocities := vel |}.

Definition make_plan (st : PlanState) : outcome DMPTraj :=
  let blank := {| positions := repeat 0 dims; velocities := repeat 0 dims |} in
  pts <- for_each (seq 0 dims)
           (fun i pts => for_each (seq 0 (n_pts st)) (fill_point st i) pts)
           (repeat blank (n_pts st)) ;;
  Ret {| points := pts; times := t_vec st |}.

Definition generatePlan (fuel : nat) : outcome (DMPTraj * bool) :=
  st <- plan_loop fuel plan_init ;;
  plan <- make_plan st ;;
  Ret (plan, at_goal st).

End Plan.

End Program.

(** ** Stand-ins for the external functions

    Crude approximations that keep what IEEE 754 and the C standard fix:
    [acos] of an argument outside [-1, 1] is a NaN, [exp] of a very
    negative argument is 0, and a NaN argument gives a NaN. *)

Fixpoint squarings (n : nat) (y : float) : float :=
  match n with
  | O => y
  | S m => squarings m (y * y)
  end.

(** [(1 + x / 2^20) ^ 2^20]. *)
Definition exp_stand_in (x : float) : float :=
  if x <? -745 then 0
  else if 709 <? x then infinity
  else squarings 20 (1 + x / 1048576).

(** Newton's iteration for [exp y = x], started at 0. *)
Fixpoint log_newton (n : nat) (x y : float) : float :=
  match n with
  | O => y
  | S m => log_newton m x (y - 1 + x * exp_stand_in (- y))
  end.

Definition acos_stand_in (x : float) : float :=
  if 1 <? abs x then nan else M_PI / 2 - x - x * x * x / 6.

Fixpoint horner (w : list float) (x : float) : float :=
  match w with
  | [] => 0
  | c :: w' => c + x * horner w' x
  end.

Definition stand_in : Extern := {|
  exp := exp_stand_in;
  log := fun x => log_newton 40 x 0;
  acos := acos_stand_in;
  sin := fun x => x - x * x * x / 6;
  cos := fun x => 1 - x * x / 2;
  Vector3d_default := V3 0 0 0;
  evalAt := horner
|}.

(** The exact value of a finite double. *)
Definition to_Q (f : float) : option Q :=
  match Prim2SF f with
  | S754_zero _ => Some 0%Q
  | S754_finite s m e =>
      Some ((if s then - inject_Z (Zpos m) else inject_Z (Zpos m))
            * Qpower 2 e)%Q
  | _ => None
  end.

(** ** Sample inputs *)

(** One dimension integrated with a step as long as [tau]: with these
    gains the explicit Euler step multiplies the error by about nine. *)
#[warnings="-inexact-float"]
Definition plan_diverging : PlanArgs :=
  {| dmp_list := [ {| k_gain := 100; d_gain := 20; weights := [];
                      f_domain := []; f_targets := [] |} ];
     x_0 := [0]; x_dot_0 := [0]; t_0 := 0; goal := [1];
     goal_thresh := [0.01]; seg_length := -1; tau := 1; total_dt := 1;
     integrate_iter := 1; obstacle := [];
     arg_beta := []; arg_gamma := []; arg_k := []; arg_m := 0; arg_n := 0 |}.

(** One second planned in steps of a tenth. *)
#[warnings="-inexact-float"]
Definition plan_tenth : PlanArgs :=
  {| dmp_list := [ {| k_gain := 25; d_gain := 10; weights := [];
                      f_domain := []; f_targets := [] |} ];
     x_0 := [0]; x_dot_0 := [0]; t_0 := 0; goal := [1];
     goal_thresh := [0]; seg_length := -1; tau := 1; total_dt := 0.1;
     integrate_iter := 1; obstacle := [];
     arg_beta := []; arg_gamma := []; arg_k := []; arg_m := 0; arg_n := 0 |}.

End Binary64.

(** * Specifications and invariants *)

(** ** planCallback *)

(** A flat list read three scalars at a time; a list whose length is not a
    multiple of three cannot be read to its end. *)
Fixpoint rows_of (l : list Q) : outcome (list (list Q)) :=
  match l with
  | [] => Ret []
  | a :: b :: c :: rest => rs <- rows_of rest ;; Ret ([a; b; c] :: rs)
  | _ => OutOfBounds
  end.

(** ** learnFromDemo *)

(** The demonstration as the specification indexes it: [x[i]] in dimension
    [d]. *)
Definition demo_x (demo : DMPTraj) (d i : nat) : Q :=
  nth d (positions (nth i (points demo) {| positions := []; velocities := [] |})) 0.

(** [t[i]]. *)
Definition demo_t (demo : DMPTraj) (i : nat) : Q := nth i (times demo) 0.

(** [v[i] = (x[i]-x[i-1]) / (t[i]-t[i-1])], [v[0] = 0]. *)
Definition spec_v (demo : DMPTraj) (d i : nat) : Q :=
  match i with
  | O => 0
  | S j => (demo_x demo d i - demo_x demo d j) / (demo_t demo i - demo_t demo j)
  end.

(** The first difference of [v], [v_dot[0] = 0]. *)
Definition spec_v_dot (demo : DMPTraj) (d i : nat) : Q :=
  match i with
  | O => 0
  | S j => (spec_v demo d i - spec_v demo d j) / (demo_t demo i - demo_t demo j)
  end.

(** [target[i]] of the specification, for dimension [d] with gains [k] and
    [dg]. *)
Definition spec_target {E : Extern} (demo : DMPTraj) (k dg : Q) (d i : nat) : Q :=
  let last := (length (points demo) - 1)%nat in
  let tau := demo_t demo last in
  let x_0 := demo_x demo d 0 in
  let goal := demo_x demo d last in
  let phase := calcPhase (demo_t demo i) tau in
  ((tau ^ 2 * spec_v_dot demo d i + dg * tau * spec_v demo d i) / k
   - (goal - demo_x demo d i) + (goal - x_0) * phase) / phase.

(** The number of dimensions of a demonstration. *)
Definition demo_dims (demo : DMPTraj) : nat :=
  length (positions (nth 0 (points demo) {| positions := []; velocities := [] |})).

(** What [learnFromDemo] expects of its arguments: a time stamp per point,
    and a position and a pair of gains per dimension. *)
Definition demo_wf (demo : DMPTraj) (k_gains d_gains : list Q) : Prop :=
  (length (points demo) <= length (times demo))%nat
  /\ Forall (fun p => (demo_dims demo <= length (positions p))%nat) (points demo)
  /\ (demo_dims demo <= length k_gains)%nat
  /\ (demo_dims demo <= length d_gains)%nat.

(** The five scratch arrays have [n] cells each. *)
Definition buf_sized (n : nat) (buf : DemoBuffers) : Prop :=
  length (x_demo buf) = n /\ length (v_demo buf) = n
  /\ length (v_dot_demo buf) = n
  /\ length (buf_f_domain buf) = n /\ length (buf_f_targets buf) = n.

(** After the turns below [i] of the first loop of dimension [d] the arrays
    hold the positions and the two first differences up to [i]. *)
Definition deriv_inv (demo : DMPTraj) (d i : nat) (buf : DemoBuffers) : Prop :=
  buf_sized (length (points demo)) buf
  /\ forall j, (j < i)%nat ->
       nth j (x_demo buf) 0 = demo_x demo d j
       /\ nth j (v_demo buf) 0 = spec_v demo d j
       /\ nth j (v_dot_demo buf) 0 = spec_v_dot demo d j.

(** After the turns below [i] of the second loop the target and domain
    arrays hold the specified values up to [i]; the other arrays are as the
    first loop left them. *)
Definition target_inv {E : Extern} (demo : DMPTraj) (k_gains d_gains : list Q)
  (d : nat) (buf0 : DemoBuffers) (i : nat) (buf : DemoBuffers) : Prop :=
  buf_sized (length (points demo)) buf
  /\ x_demo buf = x_demo buf0 /\ v_demo buf = v_demo buf0
  /\ v_dot_demo buf = v_dot_demo buf0
  /\ forall j, (j < i)%nat ->
       nth j (buf_f_targets buf) 0
         = spec_target demo (nth d k_gains 0) (nth d d_gains 0) d j
       /\ nth j (buf_f_domain buf) 0
          = demo_t demo j / demo_t demo (length (points demo) - 1).

(** What [learnFromDemo] stores for dimension [d]. *)
Definition learned {E : Extern} (demo : DMPTraj) (k_gains d_gains : list Q)
  (num_bases : Z) (d : nat) (p : DMPData) : Prop :=
  k_gain p = nth d k_gains 0 /\ d_gain p = nth d d_gains 0
  /\ length (f_targets p) = length (points demo)
  /\ length (f_domain p) = length (points demo)
  /\ (forall i, (i < length (points demo))%nat ->
        nth i (f_targets p) 0
          = spec_target demo (nth d k_gains 0) (nth d d_gains 0) d i)
  /\ (forall i, (i < length (points demo))%nat ->
        nth i (f_domain p) 0
          = demo_t demo i / demo_t demo (length (points demo) - 1))
  /\ weights p
     = leastSquaresWeights num_bases (f_domain p) (f_targets p)
         (length (points demo)).

(** ** Obstacle coupling *)

(** A 3-D obstacle: one point or more, each with three coordinates. *)
Definition obstacle_3d (o : list (list Q)) : Prop :=
  o <> [] /\ Forall (fun p => length p = 3%nat) o.

(** ** Geometry helpers *)

(** Coordinate [c] of a vertex. *)
Definition coord (c : nat) (p : list Q) : Q := nth c p 0.

(** [lo] and [hi] are the smallest and largest coordinate [c] among the
    vertices [seen]. *)
Definition axis_inv (seen : list (list Q)) (c : nat) (lo hi : list Q) : Prop :=
  (forall p, In p seen -> coord c lo <= coord c p <= coord c hi)
  /\ (exists p, In p seen /\ coord c p = coord c lo)
  /\ (exists p, In p seen /\ coord c p = coord c hi).

(** The scan of [minCoeff] has reached index [length pre] of the
    coefficients [pre ++ rest]: [best] is the coefficient at [index], no
    coefficient of [pre] is smaller, and those before [index] are larger. *)
Definition minCoeff_inv (pre : list Q) (best : Q) (index : nat) : Prop :=
  nth_error pre index = Some best
  /\ (forall j d, nth_error pre j = Some d -> best <= d)
  /\ (forall j d, (j < index)%nat -> nth_error pre j = Some d -> best < d).

(** ** generatePlan *)



(** What [generatePlan] expects of its arguments: an entry per dimension
    in the start, goal and threshold vectors and, where the obstacle is
    used, 3-D obstacle points and non-empty coefficient vectors. *)
Definition plan_wf (a : PlanArgs) : Prop :=
  (dims a <= length (x_0 a))%nat
  /\ (dims a <= length (x_dot_0 a))%nat
  /\ (dims a <= length (goal a))%nat
  /\ (dims a <= length (goal_thresh a))%nat
  /\ (obstacle a <> [] -> dims a = 3%nat \/ dims a = 6%nat ->
      obstacle_3d (obstacle a)
      /\ arg_beta a <> [] /\ arg_gamma a <> [] /\ arg_k a <> []).

(** The obstacle is taken into account. *)
Definition obstacle_used (a : PlanArgs) : Prop :=
  obstacle a <> [] /\ (dims a = 3%nat \/ dims a = 6%nat).

(** The last planned position of dimension [i]: [x_vecs[i][n_pts-1]]. *)
Definition last_x (st : PlanState) (i : nat) : Q :=
  nth (n_pts st - 1) (nth i (x_vecs st) []) 0.

(** Dimension [i] does not keep the plan from being at the goal: its
    threshold is not positive, or [|x - goal|] does not exceed it. *)
Definition dim_within (a : PlanArgs) (st : PlanState) (i : nat) : bool :=
  let thr := nth i (goal_thresh a) 0 in
  negb (Qgtb thr 0 && Qgtb (Qabs (last_x st i - nth i (goal a) 0)) thr).

(** No dimension keeps the plan from being at the goal. *)
Definition goals_met (a : PlanArgs) (st : PlanState) : bool :=
  forallb (dim_within a st) (seq 0 (dims a)).

(** The planning horizon: [tau - t_0] or [MAX_PLAN_LENGTH], whichever is
    longer. *)
Definition plan_horizon (a : PlanArgs) : Q :=
  Qmax MAX_PLAN_LENGTH (tau a - t_0 a).

(** A number of loop turns that covers the horizon. *)
Definition plan_fuel (a : PlanArgs) : nat :=
  Z.to_nat (Qceiling (plan_horizon a / total_dt a)).

(** The states at the head of the [while] loop of a call. *)
Inductive reachable {E : Extern} (a : PlanArgs) : PlanState -> Prop :=
| reach_init : reachable a (plan_init a)
| reach_step st st' :
    reachable a st -> plan_cond a st = true -> plan_body a st = Ret st' ->
    reachable a st'.

(** Every access of a loop turn that starts in a [safe] state is in
    range. *)
Definition safe (a : PlanArgs) (st : PlanState) : Prop :=
  length (x_vecs st) = dims a
  /\ length (x_dot_vecs st) = dims a
  /\ (forall i, (i < dims a)%nat -> length (nth i (x_vecs st) []) = n_pts st)
  /\ (forall i, (i < dims a)%nat -> length (nth i (x_dot_vecs st) []) = n_pts st)
  /\ (obstacle_used a -> beta st <> [] /\ gamma st <> [] /\ k st <> []).

(** The loop over the dimensions, about to plan dimension [i] of a turn
    that started in [st0]: the trajectories below [i] have grown by one. *)
Definition dim_inv (a : PlanArgs) (st0 : PlanState) (i : nat) (st : PlanState)
  : Prop :=
  t st = t st0 /\ n_pts st = n_pts st0 /\ t_vec st = t_vec st0
  /\ at_goal st = at_goal st0 /\ seg_end st = seg_end st0
  /\ beta st = beta st0 /\ gamma st = gamma st0 /\ k st = k st0
  /\ length (x_vecs st) = dims a
  /\ length (x_dot_vecs st) = dims a
  /\ (forall j, (j < dims a)%nat ->
        length (nth j (x_vecs st) [])
          = if (j <? i)%nat then S (n_pts st0) else n_pts st0)
  /\ (forall j, (j < dims a)%nat ->
        length (nth j (x_dot_vecs st) [])
          = if (j <? i)%nat then S (n_pts st0) else n_pts st0).

(** What one turn of the [while] loop does to the state. *)
Definition turn_post (a : PlanArgs) (st st' : PlanState) : Prop :=
  t st' = t st + total_dt a
  /\ n_pts st' = S (n_pts st)
  /\ t_vec st' = t_vec st ++ [t st + total_dt a]
  /\ seg_end st' = check_segment a st
  /\ at_goal st' = (if Qgeb (t st' + t_0 a) (tau a) then goals_met a st'
                    else at_goal st)
  /\ safe a st'.

(** The time stamps collected so far are the multiples of [total_dt]. *)
Definition time_inv (a : PlanArgs) (st : PlanState) : Prop :=
  length (t_vec st) = n_pts st
  /\ t st == inject_Z (Z.of_nat (n_pts st)) * total_dt a
  /\ forall j, (j < n_pts st)%nat ->
       nth j (t_vec st) 0 == inject_Z (Z.of_nat (S j)) * total_dt a.

(** The points of a plan under construction: [n] points of [d] positions
    and velocities each. *)
Definition plan_shape (d n : nat) (pts : list DMPPoint) : Prop :=
  length pts = n
  /\ forall j, (j < n)%nat ->
       length (positions (nth j pts {| positions := []; velocities := [] |})) = d
       /\ length (velocities (nth j pts {| positions := []; velocities := [] |})) = d.

(** Position [i] of point [j] of a plan. *)
Definition plan_position (pts : list DMPPoint) (j i : nat) : Q :=
  nth i (positions (nth j pts {| positions := []; velocities := [] |})) 0.

(** Velocity [i] of point [j] of a plan. *)
Definition plan_velocity (pts : list DMPPoint) (j i : nat) : Q :=
  nth i (velocities (nth j pts {| positions := []; velocities := [] |})) 0.

(** The plan under construction when the copy loops are about to fill
    dimension [i] of point [j]: the cells before that one hold the
    trajectories of [st]. *)
Definition plan_filled (a : PlanArgs) (st : PlanState) (i j : nat)
  (pts : list DMPPoint) : Prop :=
  plan_shape (dims a) (n_pts st) pts
  /\ forall i' j', (i' < dims a)%nat -> (j' < n_pts st)%nat ->
       (i' < i)%nat \/ (i' = i /\ (j' < j)%nat) ->
       plan_position pts j' i' = nth j' (nth i' (x_vecs st) []) 0
       /\ plan_velocity pts j' i' = nth j' (nth i' (x_dot_vecs st) []) 0.

(** The obstacle test of a loop turn. *)
Definition plan_uses_obstacle (a : PlanArgs) : bool :=
  (0 <? length (obstacle a))%nat && ((dims a =? 3)%nat || (dims a =? 6)%nat).

(** The same call without obstacle and coupling parameters. *)
Definition without_obstacle (a : PlanArgs) : PlanArgs :=
  {| dmp_list := dmp_list a; x_0 := x_0 a; x_dot_0 := x_dot_0 a; t_0 := t_0 a;
     goal := goal a; goal_thresh := goal_thresh a; seg_length := seg_length a;
     tau := tau a; total_dt := total_dt a; integrate_iter := integrate_iter a;
     obstacle := []; arg_beta := []; arg_gamma := []; arg_k := [];
     arg_m := 0; arg_n := 0 |}.

(** A loop state with its coefficient vectors forgotten. *)
Definition erase_coeffs (st : PlanState) : PlanState :=
  {| t := t st; n_pts := n_pts st; x_vecs := x_vecs st;
     x_dot_vecs := x_dot_vecs st; t_vec := t_vec st; at_goal := at_goal st;
     seg_end := seg_end st; beta := []; gamma := []; k := [] |}.

(** The outcome with [f] applied to its result. *)
Definition outcome_map {A B : Type} (f : A -> B) (m : outcome A) : outcome B :=
  x <- m ;; Ret (f x).


(** The state in which the loop over the dimensions of a turn starts, [r]
    being what the coupling left. *)
Definition turn_start (a : PlanArgs) (st : PlanState) (r : CouplingResult)
  : PlanState :=
  {| t := t st; n_pts := n_pts st;
     x_vecs := x_vecs st; x_dot_vecs := x_dot_vecs st;
     t_vec := t_vec st; at_goal := at_goal st; seg_end := check_segment a st;
     beta := cr_beta r; gamma := cr_gamma r; k := cr_k r |}.

(** The end of a turn, after the loop over the dimensions: advance the
    time and test the goal. *)
Definition turn_finish {E : Extern} (a : PlanArgs) (st : PlanState)
  : outcome PlanState :=
  let t' := t st + total_dt a in
  let st := {| t := t'; n_pts := S (n_pts st);
               x_vecs := x_vecs st; x_dot_vecs := x_dot_vecs st;
               t_vec := t_vec st ++ [t']; at_goal := at_goal st;
               seg_end := seg_end st;
               beta := beta st; gamma := gamma st; k := k st |} in
  if Qgeb (t st + t_0 a) (tau a) then
    ag <- for_each (seq 0 (dims a)) (goal_check a st) true ;;
    Ret {| t := t st; n_pts := n_pts st;
           x_vecs := x_vecs st; x_dot_vecs := x_dot_vecs st;
           t_vec := t_vec st; at_goal := ag; seg_end := seg_end st;
           beta := beta st; gamma := gamma st; k := k st |}
  else Ret st.

(** The [x] and [v] that dimension [i] starts point [j] from: the start of
    the call for the first point, the point before (its velocity times
    [tau]) afterwards. *)
Definition chain_start (a : PlanArgs) (pos vel : nat -> Q) (i j : nat) : Q * Q :=
  match j with
  | O => (nth i (x_0 a) 0, nth i (x_dot_0 a) 0)
  | S m => (pos m, vel m * tau a)
  end.

(** The loop time [t] at which point [j] is planned. *)
Definition chain_time (ts : list Q) (j : nat) : Q :=
  match j with
  | O => 0
  | S m => nth m ts 0
  end.

(** The coupling vector of a turn: an entry per dimension, all zero when
    the obstacle is not used. *)
Definition turn_coupling (a : PlanArgs) (apf_ct : list Q) : Prop :=
  (dims a <= length apf_ct)%nat
  /\ (plan_uses_obstacle a = false -> apf_ct = repeat 0 (dims a)).

(** Point [j] of the trajectories [pos] and [vel] (by dimension, then by
    point) with the times [ts]: one coupling vector for the point, and in
    every dimension the result of the integration loop started from the
    point before. *)
Definition chain_point {E : Extern} (a : PlanArgs) (pos vel : nat -> nat -> Q)
  (ts : list Q) (j : nat) : Prop :=
  exists apf_ct,
    turn_coupling a apf_ct
    /\ forall i, (i < dims a)%nat ->
         exists x v,
           integrate a (chain_time ts j) apf_ct i
             (chain_start a (pos i) (vel i) i j) = Ret (x, v)
           /\ pos i j = x /\ vel i j = v / tau a.

(** The trajectories of a loop state, by dimension and point. *)
Definition state_pos (st : PlanState) (i j : nat) : Q :=
  nth j (nth i (x_vecs st) []) 0.
Definition state_vel (st : PlanState) (i j : nat) : Q :=
  nth j (nth i (x_dot_vecs st) []) 0.

(** Every point planned so far follows from the one before it. *)
Definition chain_inv {E : Extern} (a : PlanArgs) (st : PlanState) : Prop :=
  t st = chain_time (t_vec st) (n_pts st)
  /\ forall j, (j < n_pts st)%nat ->
       chain_point a (state_pos st) (state_vel st) (t_vec st) j.

(** A computation that returns or reads out of range. *)
Definition benign {A : Type} (m : outcome A) : Prop :=
  m = OutOfBounds \/ exists x, m = Ret x.

(** The loop over the dimensions of a turn that started in [st0] with the
    coupling [apf_ct], about to plan dimension [i]: each dimension below [i]
    has received the result of its integration loop, the others are
    untouched. *)
Definition dim_eff {E : Extern} (a : PlanArgs) (st0 : PlanState)
  (apf_ct : list Q) (i : nat) (st : PlanState) : Prop :=
  dim_inv a st0 i st
  /\ (forall j, (j < i)%nat -> (j < dims a)%nat ->
        exists xv x v,
          start_state a st0 j = Ret xv
          /\ integrate a (t st0) apf_ct j xv = Ret (x, v)
          /\ nth j (x_vecs st) [] = nth j (x_vecs st0) [] ++ [x]
          /\ nth j (x_dot_vecs st) [] = nth j (x_dot_vecs st0) [] ++ [v / tau a])
  /\ (forall j, (i <= j)%nat ->
        nth j (x_vecs st) [] = nth j (x_vecs st0) []
        /\ nth j (x_dot_vecs st) [] = nth j (x_dot_vecs st0) [])
  /\ length (x_vecs st0) = dims a /\ length (x_dot_vecs st0) = dims a.

(** The response of [planCallback] for what [generatePlan] returned. *)
Definition plan_response (r : DMPTraj * bool) : GetDMPPlanResponse :=
  {| res_plan := fst r; res_at_goal := snd r |}.

(** As long as [seg_end] is clear, no turn has started at a loop time
    above [seg_length]. *)
Definition seg_stamps (a : PlanArgs) (st : PlanState) : Prop :=
  seg_end st = false ->
  forall j, (j < n_pts st)%nat ->
    Qgtb (chain_time (t_vec st) j) (seg_length a) = false.


(** The last time stamp of a plan. *)
Definition last_time (plan : DMPTraj) : Q :=
  nth (length (times plan) - 1) (times plan) 0.



(** The position and the velocity that a turn hands to the obstacle
    coupling: the first three entries of [x_0] and [x_dot_0] in the first
    turn, of the last planned point (the velocity times [tau])
    afterwards. *)
Definition avoid_position (a : PlanArgs) (st : PlanState) : list Q :=
  if (n_pts st =? 0)%nat then firstn 3 (x_0 a)
  else map (fun i => nth (n_pts st - 1) (nth i (x_vecs st) []) 0) [0; 1; 2]%nat.

Definition avoid_velocity (a : PlanArgs) (st : PlanState) : list Q :=
  if (n_pts st =? 0)%nat then firstn 3 (x_dot_0 a)
  else map (fun i => nth (n_pts st - 1) (nth i (x_dot_vecs st) []) 0 * tau a)
         [0; 1; 2]%nat.

(** * Properties *)

Unset Implicit Arguments.

(** ** Outcomes, vectors and comparisons *)

Lemma Qltb_lt a b : Qltb a b = true <-> a < b.
Proof.
  unfold Qltb. rewrite Qlt_alt. destruct (a ?= b); split; congruence.
Qed.

Lemma Qltb_ge a b : Qltb a b = false <-> b <= a.
Proof.
  unfold Qltb. rewrite Qle_alt, <- Qgt_alt, Qlt_alt.
  destruct (a ?= b); split; congruence.
Qed.

Lemma Qgtb_le a b : Qgtb a b = false <-> a <= b.
Proof. apply Qltb_ge. Qed.

Lemma Qgeb_ge a b : Qgeb a b = true <-> b <= a.
Proof. unfold Qgeb. apply Qle_bool_iff. Qed.

Lemma Qgeb_lt a b : Qgeb a b = false <-> a < b.
Proof.
  unfold Qgeb. split; intro H.
  - apply Qnot_le_lt. intro Hle. apply Qle_bool_iff in Hle. congruence.
  - destruct (Qle_bool b a) eqn:Hb; [|reflexivity].
    apply Qle_bool_iff in Hb. lra.
Qed.

Lemma bind_Ret {A B} (m : outcome A) (f : A -> outcome B) (b : B) :
  bind m f = Ret b -> exists x, m = Ret x /\ f x = Ret b.
Proof. destruct m; simpl; intro H; try discriminate. eauto. Qed.

Lemma at_Ret {A} (v : list A) i x : at_ v i = Ret x <-> nth_error v i = Some x.
Proof. unfold at_. destruct (nth_error v i); split; congruence. Qed.

Lemma at_in_bounds {A} (v : list A) i (d : A) :
  (i < length v)%nat -> at_ v i = Ret (nth i v d).
Proof.
  intro H. unfold at_. rewrite (nth_error_nth' v d H). reflexivity.
Qed.

Lemma at_skipn {A} (v : list A) i j : at_ (skipn i v) j = at_ v (i + j).
Proof. unfold at_. rewrite nth_error_skipn. reflexivity. Qed.

(** ** planCallback: the obstacle list *)

Lemma obstacle_rows_rows_of fuel : forall o i acc,
  (length o - i <= fuel)%nat ->
  obstacle_rows fuel o i acc = (rs <- rows_of (skipn i o) ;; Ret (acc ++ rs)).
Proof.
  induction fuel as [|fuel IH]; intros o i acc Hfuel.
  - simpl. destruct (i <? length o)%nat eqn:Hi.
    + apply Nat.ltb_lt in Hi. lia.
    + apply Nat.ltb_ge in Hi. rewrite skipn_all2 by lia. simpl.
      rewrite app_nil_r. reflexivity.
  - simpl. destruct (i <? length o)%nat eqn:Hi.
    + apply Nat.ltb_lt in Hi.
      replace (at_ o i) with (at_ (skipn i o) 0)
        by (rewrite at_skipn; f_equal; lia).
      rewrite <- (at_skipn o i 1), <- (at_skipn o i 2).
      assert (Hs : skipn (i + 3) o = skipn 3 (skipn i o))
        by (rewrite skipn_skipn; f_equal; lia).
      assert (Hl : length (skipn i o) = (length o - i)%nat) by apply length_skipn.
      destruct (skipn i o) as [|a [|b [|c rest]]]; simpl in *; try reflexivity.
      * lia.
      * rewrite IH by lia. rewrite Hs.
        destruct (rows_of rest); simpl; try reflexivity.
        rewrite <- app_assoc. reflexivity.
    + apply Nat.ltb_ge in Hi. rewrite skipn_all2 by lia. simpl.
      rewrite app_nil_r. reflexivity.
Qed.

Lemma rows_of_multiple n : forall l,
  length l = (3 * n)%nat ->
  exists rows, rows_of l = Ret rows /\ length rows = n /\ concat rows = l
               /\ Forall (fun r => length r = 3%nat) rows.
Proof.
  induction n as [|n IH]; intros l Hl.
  - destruct l; [|simpl in Hl; lia]. exists []. simpl. auto.
  - destruct l as [|a [|b [|c rest]]]; simpl in Hl; try lia.
    destruct (IH rest) as (rows & Hr & Hn & Hc & Hf); [lia|].
    exists ([a; b; c] :: rows). simpl. rewrite Hr. simpl.
    repeat split; auto. congruence.
Qed.

Lemma rows_of_ragged n : forall l r,
  length l = (3 * n + r)%nat -> (0 < r < 3)%nat -> rows_of l = OutOfBounds.
Proof.
  induction n as [|n IH]; intros l r Hl Hr.
  - destruct l as [|a [|b [|c rest]]]; simpl in Hl; try lia; reflexivity.
  - destruct l as [|a [|b [|c rest]]]; simpl in Hl; try lia.
    simpl. rewrite (IH rest r) by lia. reflexivity.
Qed.

(** Fewer than three scalars: no obstacle. *)
Lemma planCallback_obstacle_short o :
  (length o < 3)%nat -> planCallback_obstacle o = Ret [].
Proof.
  intro H. unfold planCallback_obstacle.
  destruct (3 <? length o)%nat eqn:H3; [apply Nat.ltb_lt in H3; lia|].
  destruct (length o =? 3)%nat eqn:H3'; [apply Nat.eqb_eq in H3'; lia|].
  reflexivity.
Qed.

(** Exactly three scalars: one point. *)
Lemma planCallback_obstacle_point o :
  length o = 3%nat -> planCallback_obstacle o = Ret [o].
Proof.
  intro H. unfold planCallback_obstacle. rewrite H. reflexivity.
Qed.

(** A multiple of three above three: that many vertices, in order. *)
Lemma planCallback_obstacle_vertices o n :
  length o = (3 * n)%nat -> (1 < n)%nat ->
  exists rows, planCallback_obstacle o = Ret rows /\ length rows = n
               /\ concat rows = o /\ Forall (fun r => length r = 3%nat) rows.
Proof.
  intros H Hn. unfold planCallback_obstacle.
  destruct (3 <? length o)%nat eqn:H3; [|apply Nat.ltb_ge in H3; lia].
  rewrite obstacle_rows_rows_of by lia. simpl skipn.
  destruct (rows_of_multiple n o H) as (rows & Hr & Hrest).
  exists rows. rewrite Hr. simpl. auto.
Qed.

(** Any other length above three: the last turn of the loop reads past the
    end of the list. *)
Lemma planCallback_obstacle_ragged o n r :
  length o = (3 * n + r)%nat -> (0 < n)%nat -> (0 < r < 3)%nat ->
  planCallback_obstacle o = OutOfBounds.
Proof.
  intros H Hn Hr. unfold planCallback_obstacle.
  destruct (3 <? length o)%nat eqn:H3; [|apply Nat.ltb_ge in H3; lia].
  rewrite obstacle_rows_rows_of by lia. simpl skipn.
  rewrite (rows_of_ragged n o r H Hr). reflexivity.
Qed.

(** C5.  A flat obstacle list of four scalars is not treated as "no
    obstacle": [planCallback] enters its three-at-a-time loop, and the second
    turn reads the elements at indices 4 and 5 of a list that has four. *)
Theorem planCallback_obstacle_four_scalars :
  planCallback_obstacle [1; 2; 3; 4] = OutOfBounds
  /\ planCallback_obstacle [1; 2; 3; 4] <> Ret [].
Proof. split; [reflexivity | discriminate]. Qed.

(** ** Geometry helpers *)

Ltac bind_inv H :=
  repeat match type of H with
  | bind _ _ = Ret _ =>
      let x := fresh "x" in
      let Hx := fresh "Hx" in
      apply bind_Ret in H; destruct H as (x & Hx & H); cbv beta in H
  end.

Lemma length_three {A} (p : list A) :
  length p = 3%nat -> exists a b c, p = [a; b; c].
Proof.
  destruct p as [|a [|b [|c [|d p]]]]; simpl; intro H; try discriminate.
  eauto.
Qed.

Section Geometry.

Context {E : Extern}.

Lemma bbox_scan_three points : forall lo hi,
  Forall (fun p => length p = 3%nat) points ->
  length lo = 3%nat -> length hi = 3%nat ->
  exists lo' hi', bbox_scan points (lo, hi) = Ret (lo', hi')
                  /\ length lo' = 3%nat /\ length hi' = 3%nat.
Proof.
  induction points as [|p points IH]; intros lo hi Hall Hlo Hhi.
  - exists lo, hi. simpl. auto.
  - inversion Hall as [|? ? Hp Hrest]; subst.
    destruct (length_three _ Hp) as (a & b & c & ->).
    destruct (length_three _ Hlo) as (l0 & l1 & l2 & ->).
    destruct (length_three _ Hhi) as (h0 & h1 & h2 & ->).
    simpl. apply IH; auto.
Qed.

Lemma bounding_box_three points :
  points <> [] -> Forall (fun p => length p = 3%nat) points ->
  exists dim, calculate_bounding_box_dimensions points = Ret ([], dim).
Proof.
  intros Hne Hall. destruct points as [|p0 points]; [congruence|].
  assert (Hp0 : length p0 = 3%nat) by (inversion Hall; assumption).
  destruct (bbox_scan_three _ p0 p0 Hall Hp0 Hp0) as (lo & hi & Hscan & Hlo & Hhi).
  destruct (length_three _ Hp0) as (a & b & c & ->).
  unfold calculate_bounding_box_dimensions. rewrite Hscan.
  destruct (length_three _ Hlo) as (l0 & l1 & l2 & ->).
  destruct (length_three _ Hhi) as (h0 & h1 & h2 & ->).
  simpl. eauto.
Qed.

Lemma verticesVectorToEigen_three vertices :
  Forall (fun p => length p = 3%nat) vertices ->
  exists rows, verticesVectorToEigen vertices = Ret rows
               /\ length rows = length vertices.
Proof.
  induction 1 as [|p vertices Hp _ IH].
  - exists []. auto.
  - destruct (length_three _ Hp) as (a & b & c & ->).
    destruct IH as (rows & Hr & Hl).
    exists (V3 a b c :: rows). simpl. rewrite Hr. simpl. auto.
Qed.

Lemma calculateCentroid_rows points :
  points <> [] -> exists c, calculateCentroid points = Ret c.
Proof.
  intro H. unfold calculateCentroid.
  destruct points; [congruence|]. simpl. eauto.
Qed.

Lemma minCoeff_from_index rest : forall i best index,
  (index < i)%nat ->
  (snd (minCoeff_from rest i best index) < i + length rest)%nat.
Proof.
  induction rest as [|d rest IH]; intros i best index Hi; simpl.
  - lia.
  - destruct (Qltb d best).
    + specialize (IH (S i) d i). lia.
    + specialize (IH (S i) best index). lia.
Qed.

Lemma nearestObjectPoint_rows vertices_matrix path_point :
  vertices_matrix <> [] ->
  exists p, nearestObjectPoint vertices_matrix path_point = Ret p.
Proof.
  intro H. unfold nearestObjectPoint.
  destruct vertices_matrix as [|r0 rows]; [congruence|].
  simpl map. unfold minCoeff.
  pose proof (minCoeff_from_index
                (map (fun r => norm (vsub r path_point)) rows) 1
                (norm (vsub r0 path_point)) 0 Nat.lt_0_1) as Hidx.
  destruct (minCoeff_from _ _ _ _) as [min_dist index]. simpl in *.
  rewrite length_map in Hidx.
  rewrite (at_in_bounds (r0 :: rows) index r0) by (simpl; lia). eauto.
Qed.

(** C7.  On an empty vertex list only the bounding-box helper reports an
    error (and returns a default-constructed vector); the centroid helper
    divides the zero sum by a row count of zero and reports nothing, and the
    nearest-vertex helper takes the minimum of an empty vector. *)
Theorem geometry_helpers_empty_input :
  calculate_bounding_box_dimensions []
    = Ret (["Error: Empty input points vector."%string], Vector3d_default)
  /\ calculateCentroid [] = NotFinite
  /\ (forall path_point, nearestObjectPoint [] path_point = OutOfBounds).
Proof. repeat split. Qed.

End Geometry.

(** ** Obstacle coupling *)

Section Coupling.

Context {E : Extern}.

Lemma pad_coeffs_nonempty c n :
  c <> [] -> exists c', pad_coeffs c n = Ret c' /\ c' <> []
                        /\ (n <= length c')%nat.
Proof.
  intro H. destruct c as [|c0 c]; [congruence|].
  unfold pad_coeffs. destruct (length (c0 :: c) <? n)%nat eqn:Hn.
  - apply Nat.ltb_lt in Hn. exists (c0 :: repeat 0 (n - 1)).
    split; [reflexivity|]. split; [discriminate|].
    simpl. rewrite repeat_length. lia.
  - apply Nat.ltb_ge in Hn. exists (c0 :: c).
    split; [reflexivity|]. split; [discriminate|assumption].
Qed.

(** With 3-D state and obstacle and non-empty coefficient vectors the
    coupling runs to its end; it appends three scalars, and leaves the
    coefficient vectors as they were (point) or padded (vertex list). *)
Lemma coupling_defined apf_ct x v o beta gamma k m n :
  (3 <= length x)%nat -> (3 <= length v)%nat ->
  beta <> [] -> gamma <> [] -> k <> [] -> obstacle_3d o ->
  exists r c0 c1 c2,
    artificialPotentialFieldCoupling apf_ct x v o beta gamma k m n = Ret r
    /\ cr_apf_ct r = apf_ct ++ [c0; c1; c2]
    /\ (length o = 1%nat ->
        cr_beta r = beta /\ cr_gamma r = gamma /\ cr_k r = k)
    /\ (length o <> 1%nat ->
        pad_coeffs beta 2 = Ret (cr_beta r)
        /\ pad_coeffs gamma 3 = Ret (cr_gamma r)
        /\ pad_coeffs k 3 = Ret (cr_k r)).
Proof.
  intros Hx Hv Hb Hg Hk [Hne Hall].
  destruct x as [|x0 [|x1 [|x2 x]]]; simpl in Hx; try lia.
  destruct v as [|v0 [|v1 [|v2 v]]]; simpl in Hv; try lia.
  unfold artificialPotentialFieldCoupling. cbn [at_ nth_error bind].
  destruct (length o =? 1)%nat eqn:Ho.
  - apply Nat.eqb_eq in Ho.
    destruct o as [|p [|q o]]; simpl in Ho; try lia.
    inversion Hall as [|? ? Hp _]; subst.
    destruct (length_three _ Hp) as (a & b & c & ->).
    destruct beta as [|b0 beta]; [congruence|].
    destruct gamma as [|g0 gamma]; [congruence|].
    destruct k as [|k0 k]; [congruence|].
    cbn [at_ nth_error bind]. do 4 eexists.
    split; [reflexivity|]. cbn [cr_apf_ct cr_beta cr_gamma cr_k].
    split; [reflexivity|]. split; [auto|]. simpl. lia.
  - apply Nat.eqb_neq in Ho.
    destruct (bounding_box_three _ Hne Hall) as (dim & ->).
    destruct (verticesVectorToEigen_three _ Hall) as (rows & -> & Hrows).
    assert (Hrne : rows <> []).
    { destruct rows; [|discriminate]. destruct o; [congruence|discriminate]. }
    cbn [bind].
    destruct (calculateCentroid_rows _ Hrne) as (oc & ->).
    destruct (nearestObjectPoint_rows _ (V3 x0 x1 x2) Hrne) as (op & ->).
    destruct (pad_coeffs_nonempty _ 2 Hb) as (beta' & Hbeta & _ & Hlb).
    destruct (pad_coeffs_nonempty _ 3 Hg) as (gamma' & Hgamma & _ & Hlg).
    destruct (pad_coeffs_nonempty _ 3 Hk) as (k' & Hkk & _ & Hlk).
    rewrite Hbeta, Hgamma, Hkk. cbn [bind].
    destruct beta' as [|b0 [|b1 beta']]; simpl in Hlb; try lia.
    destruct gamma' as [|g0 [|g1 [|g2 gamma']]]; simpl in Hlg; try lia.
    destruct k' as [|k0 [|k1 [|k2 k']]]; simpl in Hlk; try lia.
    cbn [at_ nth_error bind]. do 4 eexists.
    split; [reflexivity|]. cbn [cr_apf_ct cr_beta cr_gamma cr_k].
    split; [reflexivity|]. split; [intro; lia|auto].
Qed.

Lemma pad_coeffs_long c n : (n <= length c)%nat -> pad_coeffs c n = Ret c.
Proof.
  intro H. unfold pad_coeffs.
  replace (length c <? n)%nat with false by (symmetry; apply Nat.ltb_ge; lia).
  reflexivity.
Qed.

Lemma pad_coeffs_one c0 n :
  (1 < n)%nat -> pad_coeffs [c0] n = Ret (c0 :: repeat 0 (n - 1)).
Proof.
  intro H. unfold pad_coeffs. cbn [length].
  replace (1 <? n)%nat with true by (symmetry; apply Nat.ltb_lt; lia).
  reflexivity.
Qed.

(** C10 (as amended).  When the position and velocity have at least three
    entries, the three coefficient vectors are non-empty and the obstacle is
    a non-empty list of three-entry points, no element access of the
    coupling is out of range.  A point obstacle leaves the coefficient
    vectors untouched, and its result depends on their first entries only.
    For a vertex list [beta] has at least 2 and [gamma] and [k] at least 3
    entries before the entries 1 and 2 are read: a vector that long is
    left as it is, and a one-entry vector is padded with trailing
    zeros. *)
Theorem coupling_accesses_in_bounds apf_ct x v o beta gamma k m n :
  (3 <= length x)%nat -> (3 <= length v)%nat ->
  beta <> [] -> gamma <> [] -> k <> [] -> obstacle_3d o ->
  exists r,
    artificialPotentialFieldCoupling apf_ct x v o beta gamma k m n = Ret r
    /\ (length o = 1%nat ->
        cr_beta r = beta /\ cr_gamma r = gamma /\ cr_k r = k
        /\ forall beta' gamma' k',
             hd_error beta' = hd_error beta ->
             hd_error gamma' = hd_error gamma ->
             hd_error k' = hd_error k ->
             exists r',
               artificialPotentialFieldCoupling apf_ct x v o beta' gamma' k' m n
                 = Ret r'
               /\ cr_apf_ct r' = cr_apf_ct r)
    /\ (length o <> 1%nat ->
        (2 <= length (cr_beta r))%nat
        /\ (3 <= length (cr_gamma r))%nat
        /\ (3 <= length (cr_k r))%nat
        /\ ((2 <= length beta)%nat -> cr_beta r = beta)
        /\ ((3 <= length gamma)%nat -> cr_gamma r = gamma)
        /\ ((3 <= length k)%nat -> cr_k r = k)
        /\ (forall b0, beta = [b0] -> cr_beta r = [b0; 0])
        /\ (forall g0, gamma = [g0] -> cr_gamma r = [g0; 0; 0])
        /\ (forall k0, k = [k0] -> cr_k r = [k0; 0; 0])).
Proof.
  intros Hx Hv Hb Hg Hk Ho.
  destruct (coupling_defined apf_ct x v o beta gamma k m n Hx Hv Hb Hg Hk Ho)
    as (r & c0 & c1 & c2 & Hr & Hct & Hpoint & Hverts).
  exists r. split; [exact Hr|]. split.
  - intro Hone. destruct (Hpoint Hone) as (Eb & Eg & Ek).
    repeat (split; [assumption|]).
    intros beta' gamma' k' Hhb Hhg Hhk.
    destruct beta as [|b0 beta]; [congruence|].
    destruct gamma as [|g0 gamma]; [congruence|].
    destruct k as [|k0 k]; [congruence|].
    destruct beta' as [|b0' beta']; [discriminate|].
    destruct gamma' as [|g0' gamma']; [discriminate|].
    destruct k' as [|k0' k']; [discriminate|].
    simpl in Hhb, Hhg, Hhk.
    injection Hhb as ->. injection Hhg as ->. injection Hhk as ->.
    revert Hr. unfold artificialPotentialFieldCoupling.
    apply Nat.eqb_eq in Hone. rewrite Hone.
    destruct (at_ x 0); cbn [bind]; try discriminate.
    destruct (at_ x 1); cbn [bind]; try discriminate.
    destruct (at_ x 2); cbn [bind]; try discriminate.
    destruct (at_ v 0); cbn [bind]; try discriminate.
    destruct (at_ v 1); cbn [bind]; try discriminate.
    destruct (at_ v 2); cbn [bind]; try discriminate.
    destruct (at_ o 0) as [o0| | |]; cbn [bind]; try discriminate.
    destruct (at_ o0 0); cbn [bind]; try discriminate.
    destruct (at_ o0 1); cbn [bind]; try discriminate.
    destruct (at_ o0 2); cbn [bind]; try discriminate.
    cbn [at_ nth_error bind]. intro Hret. injection Hret as <-.
    eexists. split; reflexivity.
  - intro Hmany. destruct (Hverts Hmany) as (Eb & Eg & Ek).
    destruct (pad_coeffs_nonempty _ 2 Hb) as (b' & Hb' & _ & Hlb).
    destruct (pad_coeffs_nonempty _ 3 Hg) as (g' & Hg' & _ & Hlg).
    destruct (pad_coeffs_nonempty _ 3 Hk) as (k' & Hk' & _ & Hlk).
    rewrite Eb in Hb'. rewrite Eg in Hg'. rewrite Ek in Hk'.
    injection Hb' as <-. injection Hg' as <-. injection Hk' as <-.
    do 3 (split; [assumption|]).
    split; [intro H; rewrite (pad_coeffs_long _ _ H) in Eb; congruence|].
    split; [intro H; rewrite (pad_coeffs_long _ _ H) in Eg; congruence|].
    split; [intro H; rewrite (pad_coeffs_long _ _ H) in Ek; congruence|].
    split; [intros b0 ->; rewrite pad_coeffs_one in Eb by lia;
            injection Eb as <-; reflexivity|].
    split; [intros g0 ->; rewrite pad_coeffs_one in Eg by lia;
            injection Eg as <-; reflexivity|].
    intros k0 ->. rewrite pad_coeffs_one in Ek by lia.
    injection Ek as <-. reflexivity.
Qed.

(** X24.  A [gamma] or [k] of two entries that reaches the vertex-list
    branch is not padded but replaced by its first entry and two zeros:
    the second entry is lost. *)
Theorem coupling_two_entry_coefficients apf_ct x v o beta gamma k m n :
  (3 <= length x)%nat -> (3 <= length v)%nat ->
  beta <> [] -> gamma <> [] -> k <> [] -> obstacle_3d o ->
  length o <> 1%nat ->
  exists r,
    artificialPotentialFieldCoupling apf_ct x v o beta gamma k m n = Ret r
    /\ (forall g0 g1, gamma = [g0; g1] -> cr_gamma r = [g0; 0; 0])
    /\ (forall k0 k1, k = [k0; k1] -> cr_k r = [k0; 0; 0]).
Proof.
  intros Hx Hv Hb Hg Hk Ho Hmany.
  destruct (coupling_defined apf_ct x v o beta gamma k m n Hx Hv Hb Hg Hk Ho)
    as (r & c0 & c1 & c2 & Hr & _ & _ & Hverts).
  destruct (Hverts Hmany) as (_ & Eg & Ek).
  exists r. split; [exact Hr|]. split.
  - intros g0 g1 ->. injection Eg as <-. reflexivity.
  - intros k0 k1 ->. injection Ek as <-. reflexivity.
Qed.

End Coupling.

(** The coupling as C10 states it, without a condition on the obstacle,
    reads [o[0][2]] of a two-entry point. *)
Lemma coupling_short_obstacle_row :
  ~ (forall (E : Extern) apf_ct x v o beta gamma k m n,
       (3 <= length x)%nat -> (3 <= length v)%nat ->
       beta <> [] -> gamma <> [] -> k <> [] ->
       artificialPotentialFieldCoupling apf_ct x v o beta gamma k m n
         <> OutOfBounds).
Proof.
  intro H.
  apply (H rational_extern [] [0; 0; 0] [1; 0; 0] [[1; 1]] [1] [1] [1] 0 0);
    try (simpl; lia); try discriminate.
  reflexivity.
Qed.

(** ** Loops and arrays *)

Lemma for_each_app {S} (l1 l2 : list nat) (body : nat -> S -> outcome S) s :
  for_each (l1 ++ l2) body s = (s' <- for_each l1 body s ;; for_each l2 body s').
Proof.
  revert s. induction l1 as [|i l1 IH]; intro s; simpl; [reflexivity|].
  destruct (body i s); simpl; auto.
Qed.

(** Invariant rule for a counting [for] loop that never leaves its range. *)
Lemma for_each_seq_inv {S} (P : nat -> S -> Prop) (body : nat -> S -> outcome S) :
  forall len start s,
    P start s ->
    (forall i s, (start <= i < start + len)%nat -> P i s ->
                 exists s', body i s = Ret s' /\ P (Datatypes.S i) s') ->
    exists s', for_each (seq start len) body s = Ret s' /\ P (start + len)%nat s'.
Proof.
  induction len as [|len IH]; intros start s H0 Hstep.
  - exists s. rewrite Nat.add_0_r. simpl. auto.
  - simpl. destruct (Hstep start s) as (s1 & Hb & H1); [lia|assumption|].
    rewrite Hb. simpl.
    destruct (IH (Datatypes.S start) s1 H1) as (s' & Hs' & HP).
    + intros i s2 Hi. apply Hstep. lia.
    + exists s'. split; [assumption|].
      replace (start + Datatypes.S len)%nat with (Datatypes.S start + len)%nat by lia.
      assumption.
Qed.

Lemma set_at_in_bounds {A} (v : list A) : forall i a,
  (i < length v)%nat ->
  exists v', set_at v i a = Ret v' /\ length v' = length v
             /\ (forall j d, nth j v' d = if (j =? i)%nat then a else nth j v d).
Proof.
  induction v as [|hd tl IH]; intros i a Hi; simpl in Hi; [lia|].
  destruct i as [|i].
  - exists (a :: tl). simpl. repeat split. intros [|j] d; reflexivity.
  - destruct (IH i a) as (tl' & Hs & Hl & Hn); [lia|].
    exists (hd :: tl'). simpl. rewrite Hs. simpl. repeat split; [congruence|].
    intros [|j] d; [reflexivity|]. simpl. apply Hn.
Qed.

Lemma firstn_snoc {A} (v : list A) n d :
  (n < length v)%nat -> firstn (Datatypes.S n) v = firstn n v ++ [nth n v d].
Proof.
  revert n. induction v as [|a v IH]; intros n Hn; simpl in Hn; [lia|].
  destruct n as [|n]; [reflexivity|].
  cbn [firstn nth app]. f_equal. apply IH. lia.
Qed.

Lemma copy_out_all arr n_pts :
  length arr = n_pts -> copy_out arr n_pts = Ret arr.
Proof.
  intro Hl. unfold copy_out.
  assert (H : forall m, (m <= length arr)%nat ->
            for_each (seq 0 m) (fun i out => a <- at_ arr i ;; Ret (out ++ [a])) []
            = Ret (firstn m arr)).
  { induction m as [|m IH]; intro Hm; [reflexivity|].
    rewrite seq_S, for_each_app, IH by lia. rewrite Nat.add_0_l.
    cbn [bind for_each]. rewrite (at_in_bounds arr m 0) by lia.
    cbn [bind]. rewrite (firstn_snoc arr m 0) by lia. reflexivity. }
  rewrite H by lia. rewrite <- Hl. rewrite firstn_all. reflexivity.
Qed.

(** ** learnFromDemo *)

Section Learn.

Context {E : Extern}.

Variable demo : DMPTraj.
Variables k_gains d_gains : list Q.
Variable num_bases : Z.

Hypothesis demo_nonempty : points demo <> [].
Hypothesis demo_ok : demo_wf demo k_gains d_gains.

Local Abbreviation n := (length (points demo)).

Lemma n_positive : (0 < n)%nat.
Proof. destruct (points demo); [congruence|simpl; lia]. Qed.

Lemma demo_position_ok i d :
  (i < n)%nat -> (d < demo_dims demo)%nat ->
  demo_position demo i d = Ret (demo_x demo d i).
Proof.
  intros Hi Hd. unfold demo_position, demo_x.
  set (blank := {| positions := []; velocities := [] |}).
  rewrite (at_in_bounds (points demo) i blank) by exact Hi. simpl.
  apply at_in_bounds.
  destruct demo_ok as (_ & Hall & _). rewrite Forall_forall in Hall.
  specialize (Hall (nth i (points demo) blank) (nth_In _ _ Hi)). lia.
Qed.

Lemma demo_time_ok i : (i < n)%nat -> at_ (times demo) i = Ret (demo_t demo i).
Proof.
  intro Hi. apply at_in_bounds. destruct demo_ok as (Hl & _). lia.
Qed.

Lemma demo_derivatives_ok d buf :
  (d < demo_dims demo)%nat -> deriv_inv demo d 1 buf ->
  exists buf', demo_derivatives demo d n buf = Ret buf' /\ deriv_inv demo d n buf'.
Proof.
  intros Hd H1. unfold demo_derivatives.
  match goal with |- exists _, for_each _ ?body _ = _ /\ _ =>
    destruct (for_each_seq_inv (deriv_inv demo d) body (n - 1) 1 buf H1)
      as (buf' & Hrun & Hfin) end;
    [| exists buf'; split; [exact Hrun|];
       replace n with (1 + (n - 1))%nat by (pose proof n_positive; lia);
       exact Hfin].
  clear buf H1. intros i buf Hi ((Lx & Lv & Lvd & Ld & Lt) & Hinv).
  assert (Hin : (i < n)%nat) by lia.
  assert (Hpn : (i - 1 < n)%nat) by lia.
  rewrite demo_position_ok by assumption. cbn [bind].
  destruct (set_at_in_bounds (x_demo buf) i (demo_x demo d i))
    as (xs & -> & Lxs & Nxs); [lia|]. cbn [bind].
  rewrite (at_in_bounds xs i 0), (at_in_bounds xs (i - 1) 0) by lia.
  cbn [bind]. rewrite !demo_time_ok by assumption. cbn [bind].
  destruct (set_at_in_bounds (v_demo buf) i
              ((nth i xs 0 - nth (i - 1) xs 0)
               / (demo_t demo i - demo_t demo (i - 1))))
    as (vs & -> & Lvs & Nvs); [lia|]. cbn [bind].
  rewrite (at_in_bounds vs i 0), (at_in_bounds vs (i - 1) 0) by lia.
  cbn [bind].
  destruct (set_at_in_bounds (v_dot_demo buf) i
              ((nth i vs 0 - nth (i - 1) vs 0)
               / (demo_t demo i - demo_t demo (i - 1))))
    as (vds & -> & Lvds & Nvds); [lia|]. cbn [bind].
  eexists. split; [reflexivity|].
  split; [repeat split; simpl; congruence|].
  assert (Hxi : nth i xs 0 = demo_x demo d i).
  { rewrite Nxs, Nat.eqb_refl. reflexivity. }
  assert (Hxp : nth (i - 1) xs 0 = demo_x demo d (i - 1)).
  { rewrite Nxs. replace (i - 1 =? i)%nat with false
      by (symmetry; apply Nat.eqb_neq; lia). apply Hinv. lia. }
  assert (Hvi : nth i vs 0 = spec_v demo d i).
  { rewrite Nvs, Nat.eqb_refl, Hxi, Hxp.
    destruct i as [|i']; [lia|]. simpl. rewrite Nat.sub_0_r. reflexivity. }
  assert (Hvp : nth (i - 1) vs 0 = spec_v demo d (i - 1)).
  { rewrite Nvs. replace (i - 1 =? i)%nat with false
      by (symmetry; apply Nat.eqb_neq; lia). apply Hinv. lia. }
  intros j Hj. cbn [x_demo v_demo v_dot_demo].
  destruct (Nat.eq_dec j i) as [->|Hji].
  - repeat split; [exact Hxi | exact Hvi |].
    rewrite Nvds, Nat.eqb_refl, Hvi, Hvp. destruct i as [|i']; [lia|].
    cbn [spec_v_dot]. replace (Datatypes.S i' - 1)%nat with i' by lia.
    reflexivity.
  - rewrite Nxs, Nvs, Nvds.
    replace (j =? i)%nat with false by (symmetry; apply Nat.eqb_neq; lia).
    apply Hinv. lia.
Qed.

Local Abbreviation last := (length (points demo) - 1)%nat.
Local Abbreviation tau := (demo_t demo (length (points demo) - 1)%nat).

Lemma demo_targets_ok d buf0 :
  (d < demo_dims demo)%nat -> deriv_inv demo d n buf0 ->
  exists buf,
    demo_targets demo n tau (nth d k_gains 0) (nth d d_gains 0)
      (demo_x demo d 0) (demo_x demo d last) buf0 = Ret buf
    /\ target_inv demo k_gains d_gains d buf0 n buf.
Proof.
  intros Hd (Hsz & Hder). unfold demo_targets.
  match goal with |- exists _, for_each _ ?body _ = _ /\ _ =>
    destruct (for_each_seq_inv (target_inv demo k_gains d_gains d buf0) body n 0 buf0)
      as (buf' & Hrun & Hfin) end;
    [ | | exists buf'; split; assumption].
  { split; [exact Hsz|]. repeat (split; [reflexivity|]). intros j Hj. lia. }
  intros i buf Hi ((Lx & Lv & Lvd & Ld & Lt) & Ex & Ev & Evd & Hinv).
  assert (Hin : (i < n)%nat) by lia.
  rewrite demo_time_ok by assumption. cbn [bind].
  destruct (set_at_in_bounds (buf_f_domain buf) i (demo_t demo i / tau))
    as (doms & -> & Ldoms & Ndoms); [lia|]. cbn [bind].
  rewrite (at_in_bounds (v_dot_demo buf) i 0),
          (at_in_bounds (v_demo buf) i 0),
          (at_in_bounds (x_demo buf) i 0) by lia. cbn [bind].
  match goal with |- context [set_at (buf_f_targets buf) i ?a] =>
    destruct (set_at_in_bounds (buf_f_targets buf) i a)
      as (tg1 & -> & Ltg1 & Ntg1) end; [lia|]. cbn [bind].
  rewrite (at_in_bounds tg1 i 0) by lia. cbn [bind].
  match goal with |- context [set_at tg1 i ?a] =>
    destruct (set_at_in_bounds tg1 i a) as (tg2 & -> & Ltg2 & Ntg2) end; [lia|].
  eexists. split; [reflexivity|].
  split; [repeat split; simpl; congruence|].
  repeat (split; [assumption|]).
  intros j Hj. cbn [buf_f_targets buf_f_domain].
  rewrite Ntg2, Ndoms. destruct (Nat.eq_dec j i) as [->|Hji].
  - rewrite Nat.eqb_refl. split; [|reflexivity].
    rewrite Ntg1, Nat.eqb_refl, Ex, Ev, Evd.
    destruct (Hder i Hin) as (-> & -> & ->). reflexivity.
  - replace (j =? i)%nat with false by (symmetry; apply Nat.eqb_neq; lia).
    rewrite Ntg1.
    replace (j =? i)%nat with false by (symmetry; apply Nat.eqb_neq; lia).
    apply Hinv. lia.
Qed.

Lemma learn_dimension_ok d buf out :
  (d < demo_dims demo)%nat -> buf_sized n buf ->
  exists buf' p,
    learn_dimension demo k_gains d_gains num_bases n tau d (buf, out)
      = Ret (buf', out ++ [p])
    /\ buf_sized n buf' /\ learned demo k_gains d_gains num_bases d p.
Proof.
  intros Hd (Lx & Lv & Lvd & Ld & Lt). pose proof n_positive as Hn.
  destruct demo_ok as (_ & _ & Hk & Hdg).
  unfold learn_dimension.
  rewrite (at_in_bounds k_gains d 0), (at_in_bounds d_gains d 0) by lia.
  cbn [bind]. rewrite !demo_position_ok by (assumption || lia). cbn [bind].
  destruct (set_at_in_bounds (x_demo buf) 0 (demo_x demo d 0))
    as (xs & -> & Lxs & Nxs); [lia|].
  destruct (set_at_in_bounds (v_demo buf) 0 0)
    as (vs & -> & Lvs & Nvs); [lia|].
  destruct (set_at_in_bounds (v_dot_demo buf) 0 0)
    as (vds & -> & Lvds & Nvds); [lia|].
  cbn [bind].
  match goal with |- context [demo_derivatives demo d n ?b] =>
    destruct (demo_derivatives_ok d b Hd) as (buf1 & -> & Hder) end.
  { split; [repeat split; simpl; congruence|].
    intros j Hj. assert (j = 0%nat) as -> by lia. simpl.
    rewrite Nxs, Nvs, Nvds. simpl. auto. }
  cbn [bind].
  destruct (demo_targets_ok d buf1 Hd Hder)
    as (buf2 & Hrun & (L2x & L2v & L2vd & L2d & L2t) & _ & _ & _ & Htg).
  rewrite Hrun. cbn [bind].
  rewrite !copy_out_all by assumption. cbn [bind].
  do 2 eexists. split; [reflexivity|].
  split; [repeat split; assumption|].
  unfold learned. cbn [k_gain d_gain f_targets f_domain weights].
  repeat split; try assumption; intros i Hi; apply Htg; assumption.
Qed.

Lemma learn_dimensions_ok buf dmp_list0 :
  buf_sized n buf ->
  exists buf' prims,
    for_each (seq 0 (demo_dims demo))
      (learn_dimension demo k_gains d_gains num_bases n tau) (buf, dmp_list0)
      = Ret (buf', dmp_list0 ++ prims)
    /\ length prims = demo_dims demo
    /\ forall d p, nth_error prims d = Some p -> learned demo k_gains d_gains num_bases d p.
Proof.
  intro Hsz.
  set (P := fun (d : nat) (s : DemoBuffers * list DMPData) =>
              buf_sized n (fst s)
              /\ exists prims, snd s = dmp_list0 ++ prims /\ length prims = d
                   /\ forall d' p, nth_error prims d' = Some p -> learned demo k_gains d_gains num_bases d' p).
  destruct (for_each_seq_inv P
              (learn_dimension demo k_gains d_gains num_bases n tau)
              (demo_dims demo) 0 (buf, dmp_list0))
    as ([buf' out] & Hrun & Hsz' & prims & Hout & Hlen & Hall).
  - split; [exact Hsz|]. exists []. simpl. rewrite app_nil_r.
    split; [reflexivity|]. split; [reflexivity|].
    intros [|d'] p H; discriminate.
  - intros d [b out] Hd (Hb & prims & Hout & Hlen & Hall). simpl in Hb, Hout.
    destruct (learn_dimension_ok d b out) as (b' & p & Hrun & Hb' & Hp);
      [lia | assumption |].
    exists (b', out ++ [p]). split; [exact Hrun|].
    split; [exact Hb'|]. exists (prims ++ [p]). simpl.
    split; [rewrite Hout, app_assoc; reflexivity|].
    split; [rewrite length_app; simpl; lia|].
    intros d' q Hq. destruct (Nat.lt_ge_cases d' (length prims)) as [Hlt|Hge].
    + rewrite nth_error_app1 in Hq by assumption. eauto.
    + rewrite nth_error_app2 in Hq by assumption.
      destruct (d' - length prims)%nat as [|e] eqn:He; simpl in Hq.
      * injection Hq as <-. replace d' with d by lia. exact Hp.
      * destruct e; discriminate.
  - simpl in Hout. subst out. exists buf', prims. auto.
Qed.

(** C1.  For a non-empty demonstration with a time stamp per point and a
    position and gains per dimension, [learnFromDemo] appends one primitive
    per dimension, whatever the freshly allocated arrays hold; the targets
    of dimension [d], which are the ones handed to the function approximator
    together with the domain, are
    [((tau^2 v_dot[i] + d_gain tau v[i]) / k_gain - (goal - x[i])
      + (goal - x_0) phase(t[i], tau)) / phase(t[i], tau)]
    with [tau] the last time stamp, [x_0] and [goal] the first and last
    position, and [v], [v_dot] the first differences starting at zero. *)
Theorem learnFromDemo_forcing_targets heap dmp_list0 :
  buf_sized (length (points demo)) heap ->
  exists prims,
    learnFromDemo heap demo k_gains d_gains num_bases dmp_list0
      = Ret (dmp_list0 ++ prims)
    /\ length prims = demo_dims demo
    /\ forall d p, nth_error prims d = Some p ->
         length (f_targets p) = length (points demo)
         /\ (forall i, (i < length (points demo))%nat ->
               nth i (f_targets p) 0
                 = spec_target demo (nth d k_gains 0) (nth d d_gains 0) d i)
         /\ weights p
              = leastSquaresWeights num_bases (f_domain p) (f_targets p)
                  (length (points demo)).
Proof.
  intro Hheap. pose proof n_positive as Hn.
  unfold learnFromDemo.
  destruct (n <? 1)%nat eqn:Hn1; [apply Nat.ltb_lt in Hn1; lia|].
  set (blank := {| positions := []; velocities := [] |}).
  rewrite (at_in_bounds (points demo) 0 blank) by exact Hn. cbn [bind].
  rewrite demo_time_ok by lia. cbn [bind].
  destruct (learn_dimensions_ok heap dmp_list0 Hheap)
    as (buf' & prims & Hrun & Hlen & Hall).
  subst blank. unfold demo_dims in Hrun. rewrite Hrun. cbn [bind].
  exists prims. split; [reflexivity|]. split; [exact Hlen|].
  intros d p Hp. destruct (Hall d p Hp) as (_ & _ & Ht & _ & Htg & _ & Hw).
  auto.
Qed.

End Learn.

Lemma learnFromDemo_forcing_targets_witness :
  exists prims,
    learnFromDemo (E := rational_extern) (zero_buffers 3) demo_line [25] [10] 4 []
      = Ret ([] ++ prims)
    /\ length prims = demo_dims demo_line
    /\ forall d p, nth_error prims d = Some p ->
         length (f_targets p) = length (points demo_line)
         /\ (forall i, (i < length (points demo_line))%nat ->
               nth i (f_targets p) 0
                 = spec_target (E := rational_extern) demo_line
                     (nth d [25] 0) (nth d [10] 0) d i)
         /\ weights p
              = leastSquaresWeights (Extern := rational_extern) 4
                  (f_domain p) (f_targets p) (length (points demo_line)).
Proof.
  apply (learnFromDemo_forcing_targets (E := rational_extern)).
  - discriminate.
  - unfold demo_wf, demo_dims. simpl.
    repeat split; try lia; repeat constructor.
  - repeat split.
Defined.

(** ** generatePlan: one turn of the loop *)

Lemma resize_length {A} (v : list A) n x : length (resize v n x) = n.
Proof.
  unfold resize. rewrite length_app, length_firstn, repeat_length. lia.
Qed.

Lemma first_three_total v :
  (3 <= length v)%nat -> exists l, first_three v = Ret l /\ length l = 3%nat.
Proof.
  intro H. destruct v as [|a0 [|a1 [|a2 v]]]; simpl in H; try lia.
  eexists. split; reflexivity.
Qed.

Lemma last_three_total vecs n :
  (3 <= length vecs)%nat ->
  (forall i, (i < 3)%nat -> (n - 1 < length (nth i vecs []))%nat) ->
  exists l, last_three vecs n = Ret l /\ length l = 3%nat.
Proof.
  intros H Hn. unfold last_three.
  rewrite (at_in_bounds vecs 0 []), (at_in_bounds vecs 1 []),
          (at_in_bounds vecs 2 []) by lia. cbn [bind].
  rewrite (at_in_bounds (nth 0 vecs []) (n - 1) 0) by (apply Hn; lia).
  rewrite (at_in_bounds (nth 1 vecs []) (n - 1) 0) by (apply Hn; lia).
  rewrite (at_in_bounds (nth 2 vecs []) (n - 1) 0) by (apply Hn; lia).
  cbn [bind]. eexists. split; reflexivity.
Qed.

Section PlanTurn.

Context {E : Extern}.

Variable a : PlanArgs.

Hypothesis args_ok : plan_wf a.

Lemma plan_coupling_total st :
  safe a st ->
  exists r, plan_coupling a st = Ret r
            /\ (dims a <= length (cr_apf_ct r))%nat
            /\ (obstacle_used a ->
                cr_beta r <> [] /\ cr_gamma r <> [] /\ cr_k r <> []).
Proof.
  intros (Lx & Lv & Hx & Hv & Hco). unfold plan_coupling.
  destruct ((0 <? length (obstacle a))%nat
            && ((dims a =? 3)%nat || (dims a =? 6)%nat)) eqn:Huse.
  - apply andb_true_iff in Huse. destruct Huse as (Ho & Hd).
    apply Nat.ltb_lt in Ho. apply orb_true_iff in Hd.
    rewrite !Nat.eqb_eq in Hd.
    assert (Hne : obstacle a <> []) by (destruct (obstacle a); [simpl in Ho; lia|discriminate]).
    destruct args_ok as (W0 & Wd & _ & _ & Wo).
    destruct (Wo Hne Hd) as (Ho3 & _).
    destruct (Hco (conj Hne Hd)) as (Hb & Hg & Hk).
    assert (H3 : (3 <= dims a)%nat) by lia.
    assert (Hxa : exists l,
              (if (n_pts st =? 0)%nat then first_three (x_0 a)
               else last_three (x_vecs st) (n_pts st)) = Ret l
              /\ length l = 3%nat).
    { destruct (n_pts st =? 0)%nat eqn:Hn.
      - apply first_three_total. lia.
      - apply Nat.eqb_neq in Hn. apply last_three_total; [lia|].
        intros i Hi. rewrite Hx by lia. lia. }
    assert (Hva : exists l,
              (if (n_pts st =? 0)%nat then first_three (x_dot_0 a)
               else l <- last_three (x_dot_vecs st) (n_pts st) ;;
                    Ret (map (fun q => q * tau a) l)) = Ret l
              /\ length l = 3%nat).
    { destruct (n_pts st =? 0)%nat eqn:Hn.
      - apply first_three_total. lia.
      - apply Nat.eqb_neq in Hn.
        destruct (last_three_total (x_dot_vecs st) (n_pts st)) as (l & -> & Hl);
          [lia | intros i Hi; rewrite Hv by lia; lia |].
        cbn [bind]. eexists. split; [reflexivity|].
        rewrite length_map. exact Hl. }
    destruct Hxa as (x_avd & -> & Lxa). destruct Hva as (v_avd & -> & Lva).
    cbn [bind].
    destruct (coupling_defined [] x_avd v_avd (obstacle a)
                (beta st) (gamma st) (k st) (arg_m a) (arg_n a))
      as (r & c0 & c1 & c2 & -> & Hct & Hpoint & Hverts);
      try assumption; try lia.
    cbn [bind]. eexists. split; [reflexivity|].
    cbn [cr_apf_ct cr_beta cr_gamma cr_k]. split.
    + destruct (dims a =? 6)%nat eqn:H6.
      * rewrite resize_length. apply Nat.eqb_eq in H6. lia.
      * apply Nat.eqb_neq in H6. rewrite Hct. simpl. lia.
    + intros _. destruct (Nat.eq_dec (length (obstacle a)) 1) as [H1|H1].
      * destruct (Hpoint H1) as (-> & -> & ->). auto.
      * destruct (Hverts H1) as (Pb & Pg & Pk).
        destruct (pad_coeffs_nonempty _ 2 Hb) as (b' & Hb' & Nb & _).
        destruct (pad_coeffs_nonempty _ 3 Hg) as (g' & Hg' & Ng & _).
        destruct (pad_coeffs_nonempty _ 3 Hk) as (k' & Hk' & Nk & _).
        rewrite Pb in Hb'. rewrite Pg in Hg'. rewrite Pk in Hk'.
        injection Hb' as <-. injection Hg' as <-. injection Hk' as <-. auto.
  - eexists. split; [reflexivity|].
    cbn [cr_apf_ct cr_beta cr_gamma cr_k]. rewrite repeat_length.
    split; [lia|]. exact Hco.
Qed.

Lemma integrate_total tm apf_ct i xv :
  (i < dims a)%nat -> (dims a <= length apf_ct)%nat ->
  exists xv', integrate a tm apf_ct i xv = Ret xv'.
Proof.
  intros Hi Hc. destruct args_ok as (W0 & _ & Wg & _).
  destruct (for_each_seq_inv (fun _ _ => True) (substep a tm apf_ct i)
              (Z.to_nat (integrate_iter a)) 0 xv I) as (xv' & Hrun & _).
  - intros iter [x v] _ _. unfold substep. unfold dims in *.
    rewrite (at_in_bounds (dmp_list a) i
               {| k_gain := 0; d_gain := 0; weights := [];
                  f_domain := []; f_targets := [] |}) by lia.
    rewrite (at_in_bounds (goal a) i 0), (at_in_bounds (x_0 a) i 0),
            (at_in_bounds apf_ct i 0) by lia.
    cbn [bind]. eexists. split; [reflexivity|exact I].
  - exists xv'. exact Hrun.
Qed.

Lemma start_state_total st0 i st :
  (i < dims a)%nat -> dim_inv a st0 i st ->
  exists xv, start_state a st i = Ret xv.
Proof.
  intros Hi (_ & En & _ & _ & _ & _ & _ & _ & Lx & Lv & Hx & Hv).
  destruct args_ok as (W0 & Wd & _). unfold start_state.
  destruct (n_pts st =? 0)%nat eqn:Hn.
  - rewrite (at_in_bounds (x_0 a) i 0), (at_in_bounds (x_dot_0 a) i 0) by lia.
    cbn [bind]. eauto.
  - apply Nat.eqb_neq in Hn.
    specialize (Hx i Hi). specialize (Hv i Hi).
    rewrite Nat.ltb_irrefl in Hx, Hv.
    rewrite (at_in_bounds (x_vecs st) i []),
            (at_in_bounds (x_dot_vecs st) i []) by lia. cbn [bind].
    rewrite (at_in_bounds (nth i (x_vecs st) []) (n_pts st - 1) 0) by lia.
    cbn [bind].
    rewrite (at_in_bounds (nth i (x_dot_vecs st) []) (n_pts st - 1) 0) by lia.
    cbn [bind]. eauto.
Qed.

Lemma plan_dimension_step apf_ct st0 i st :
  (i < dims a)%nat -> (dims a <= length apf_ct)%nat -> dim_inv a st0 i st ->
  exists st', plan_dimension a apf_ct i st = Ret st' /\ dim_inv a st0 (S i) st'.
Proof.
  intros Hi Hc Hinv. unfold plan_dimension.
  destruct (start_state_total st0 i st Hi Hinv) as (xv & ->). cbn [bind].
  destruct (integrate_total (t st) apf_ct i xv Hi Hc) as ([x v] & ->).
  cbn [bind].
  destruct Hinv as (Et & En & Etv & Eag & Ese & Eb & Eg & Ek & Lx & Lv & Hx & Hv).
  rewrite (at_in_bounds (x_vecs st) i []) by lia. cbn [bind].
  destruct (set_at_in_bounds (x_vecs st) i (nth i (x_vecs st) [] ++ [x]))
    as (xs' & -> & Lxs' & Nxs'); [lia|]. cbn [bind].
  rewrite (at_in_bounds (x_dot_vecs st) i []) by lia. cbn [bind].
  destruct (set_at_in_bounds (x_dot_vecs st) i
              (nth i (x_dot_vecs st) [] ++ [v / tau a]))
    as (vs' & -> & Lvs' & Nvs'); [lia|]. cbn [bind].
  eexists. split; [reflexivity|].
  unfold dim_inv. cbn [t n_pts t_vec at_goal seg_end beta gamma k x_vecs x_dot_vecs].
  repeat (split; [congruence|]).
  assert (Hcase : forall j, (j <? S i)%nat
                            = ((j =? i)%nat || (j <? i)%nat)).
  { intro j. destruct (j =? i)%nat eqn:E1; destruct (j <? i)%nat eqn:E2;
      destruct (j <? S i)%nat eqn:E3; simpl; try reflexivity;
      rewrite ?Nat.eqb_eq, ?Nat.eqb_neq, ?Nat.ltb_lt, ?Nat.ltb_ge in *; lia. }
  split; intros j Hj; rewrite Hcase.
  - rewrite Nxs'. destruct (j =? i)%nat eqn:Hji; simpl.
    + apply Nat.eqb_eq in Hji. subst j. rewrite length_app, Hx by lia.
      rewrite Nat.ltb_irrefl. simpl. lia.
    + apply Hx. exact Hj.
  - rewrite Nvs'. destruct (j =? i)%nat eqn:Hji; simpl.
    + apply Nat.eqb_eq in Hji. subst j. rewrite length_app, Hv by lia.
      rewrite Nat.ltb_irrefl. simpl. lia.
    + apply Hv. exact Hj.
Qed.

Lemma goal_check_run st l : forall b,
  (forall i, In i l -> (i < dims a)%nat) ->
  length (x_vecs st) = dims a ->
  (forall i, (i < dims a)%nat -> (n_pts st - 1 < length (nth i (x_vecs st) []))%nat) ->
  for_each l (goal_check a st) b = Ret (b && forallb (dim_within a st) l).
Proof.
  destruct args_ok as (_ & _ & Wg & Wt & _).
  induction l as [|i l IH]; intros b Hl Lx Hx.
  - simpl. rewrite andb_true_r. reflexivity.
  - assert (Hi : (i < dims a)%nat) by (apply Hl; left; reflexivity).
    cbn [for_each forallb]. unfold goal_check at 1.
    rewrite (at_in_bounds (goal_thresh a) i 0) by lia. cbn [bind].
    unfold dim_within at 1, last_x.
    destruct (Qgtb (nth i (goal_thresh a) 0) 0).
    + rewrite (at_in_bounds (x_vecs st) i []) by lia. cbn [bind].
      rewrite (at_in_bounds (nth i (x_vecs st) []) (n_pts st - 1) 0)
        by (apply Hx; exact Hi).
      cbn [bind]. rewrite (at_in_bounds (goal a) i 0) by lia. cbn [bind].
      destruct (Qgtb _ (nth i (goal_thresh a) 0)); cbn [bind andb negb].
      * rewrite IH by (auto; intros; apply Hl; right; assumption).
        rewrite andb_false_r. reflexivity.
      * rewrite IH by (auto; intros; apply Hl; right; assumption).
        reflexivity.
    + cbn [bind andb negb].
      rewrite IH by (auto; intros; apply Hl; right; assumption). reflexivity.
Qed.

(** A turn that starts in a safe state runs to its end. *)
Lemma plan_body_turn st :
  safe a st -> exists st', plan_body a st = Ret st' /\ turn_post a st st'.
Proof.
  intro Hsafe. unfold plan_body.
  destruct (plan_coupling_total st Hsafe) as (r & -> & Hlen & Hco).
  cbn [bind]. destruct Hsafe as (Lx & Lv & Hx & Hv & _).
  match goal with |- context [for_each (seq 0 (dims a)) ?body ?s0] =>
    destruct (for_each_seq_inv (dim_inv a s0) body (dims a) 0 s0)
      as (st1 & -> & Hinv) end.
  { unfold dim_inv.
    cbn [t n_pts t_vec at_goal seg_end beta gamma k x_vecs x_dot_vecs].
    do 8 (split; [reflexivity|]). do 2 (split; [assumption|]).
    split; intros j Hj; cbn [Nat.ltb Nat.leb]; [apply Hx | apply Hv]; exact Hj. }
  { intros i s Hi Hs. apply plan_dimension_step; [lia | exact Hlen | exact Hs]. }
  cbn [bind]. simpl in Hinv.
  destruct Hinv as (Et & En & Etv & Eag & Ese & Eb & Eg & Ek & Lx1 & Lv1 & Hx1 & Hv1).
  cbn [t n_pts t_vec at_goal seg_end beta gamma k x_vecs x_dot_vecs]
    in Et, En, Etv, Eag, Ese, Eb, Eg, Ek, Hx1, Hv1.
  assert (Hx2 : forall i, (i < dims a)%nat ->
                  length (nth i (x_vecs st1) []) = S (n_pts st)).
  { intros i Hi. rewrite (Hx1 i Hi).
    apply Nat.ltb_lt in Hi. rewrite Hi. reflexivity. }
  assert (Hv2 : forall i, (i < dims a)%nat ->
                  length (nth i (x_dot_vecs st1) []) = S (n_pts st)).
  { intros i Hi. rewrite (Hv1 i Hi).
    apply Nat.ltb_lt in Hi. rewrite Hi. reflexivity. }
  cbn [t n_pts t_vec at_goal seg_end beta gamma k x_vecs x_dot_vecs].
  match goal with |- context [if ?c then _ else _] => destruct c eqn:Hge end.
  - rewrite goal_check_run.
    + cbn [bind andb]. eexists. split; [reflexivity|].
      unfold turn_post, safe.
      cbn [t n_pts t_vec at_goal seg_end beta gamma k x_vecs x_dot_vecs].
      rewrite Et, En, Etv, Ese in *. rewrite Hge.
      repeat (split; [reflexivity || assumption|]).
      rewrite Eb, Eg, Ek. exact Hco.
    + intros i Hi. apply in_seq in Hi. lia.
    + exact Lx1.
    + intros i Hi. cbn [n_pts x_vecs]. rewrite Hx2 by exact Hi. lia.
  - eexists. split; [reflexivity|].
    unfold turn_post, safe.
    cbn [t n_pts t_vec at_goal seg_end beta gamma k x_vecs x_dot_vecs].
    rewrite Et, En, Etv, Ese, Eag in *. rewrite Hge.
    repeat (split; [reflexivity || assumption|]).
    rewrite Eb, Eg, Ek. exact Hco.
Qed.

End PlanTurn.

(** ** generatePlan: the loop *)

Lemma inject_Z_succ n :
  inject_Z (Z.of_nat (S n)) == inject_Z (Z.of_nat n) + 1.
Proof. rewrite Nat2Z.inj_succ. unfold Z.succ. rewrite inject_Z_plus. reflexivity. Qed.

Lemma dim_within_spec a st i :
  dim_within a st i = true
  <-> (0 < nth i (goal_thresh a) 0 ->
       Qabs (last_x st i - nth i (goal a) 0) <= nth i (goal_thresh a) 0).
Proof.
  unfold dim_within. rewrite negb_true_iff, andb_false_iff.
  rewrite Qgtb_le, Qgtb_le. split.
  - intros [H|H] Hpos; [lra | exact H].
  - intro H. destruct (Qlt_le_dec 0 (nth i (goal_thresh a) 0)); auto.
Qed.

Lemma goals_met_spec a st :
  goals_met a st = true
  <-> forall i, (i < dims a)%nat -> 0 < nth i (goal_thresh a) 0 ->
        Qabs (last_x st i - nth i (goal a) 0) <= nth i (goal_thresh a) 0.
Proof.
  unfold goals_met. rewrite forallb_forall. split.
  - intros H i Hi. apply dim_within_spec. apply H. apply in_seq. lia.
  - intros H i Hi. apply in_seq in Hi. apply dim_within_spec. apply H. lia.
Qed.

Section PlanRun.

Context {E : Extern}.

Variable a : PlanArgs.

Hypothesis args_ok : plan_wf a.

Lemma plan_init_safe : safe a (plan_init a).
Proof.
  unfold safe, plan_init. cbn [x_vecs x_dot_vecs n_pts beta gamma k].
  rewrite !repeat_length. repeat (split; [reflexivity|]).
  assert (Hn : forall i, length (nth i (repeat (@nil Q) (dims a)) []) = 0%nat).
  { intro i. destruct (nth_in_or_default i (repeat (@nil Q) (dims a)) [])
      as [Hin | ->]; [|reflexivity].
    apply repeat_spec in Hin. rewrite Hin. reflexivity. }
  split; [intros; apply Hn|]. split; [intros; apply Hn|].
  intros (Hne & Hd). destruct args_ok as (_ & _ & _ & _ & Wo).
  destruct (Wo Hne Hd) as (_ & H). exact H.
Qed.

Lemma reachable_safe st : reachable a st -> safe a st.
Proof.
  induction 1 as [|st st' _ IH _ Hbody]; [apply plan_init_safe|].
  destruct (plan_body_turn a args_ok st IH) as (st2 & Hrun & Hpost).
  rewrite Hrun in Hbody. injection Hbody as <-. apply Hpost.
Qed.

Lemma reachable_turn st st' :
  reachable a st -> plan_body a st = Ret st' -> turn_post a st st'.
Proof.
  intros Hr Hbody.
  destruct (plan_body_turn a args_ok st (reachable_safe st Hr))
    as (st2 & Hrun & Hpost).
  rewrite Hrun in Hbody. injection Hbody as <-. exact Hpost.
Qed.

Lemma reachable_time st : reachable a st -> time_inv a st.
Proof.
  induction 1 as [|st st' Hr (Lt & Ht & Hn) _ Hbody].
  - unfold time_inv, plan_init. cbn [t_vec n_pts t].
    split; [reflexivity|]. split; [simpl; ring|]. intros j Hj. lia.
  - destruct (reachable_turn st st' Hr Hbody) as (Et & En & Etv & _).
    unfold time_inv. rewrite Et, En, Etv, length_app. simpl length.
    split; [lia|]. split.
    + rewrite inject_Z_succ, Ht. ring.
    + intros j Hj. destruct (Nat.eq_dec j (n_pts st)) as [->|Hne].
      * rewrite app_nth2 by lia. rewrite Lt, Nat.sub_diag. simpl nth.
        rewrite inject_Z_succ, Ht. ring.
      * rewrite app_nth1 by lia. apply Hn. lia.
Qed.

(** The flag can only be set by a turn that ends at or after [tau]. *)
Lemma reachable_at_goal st :
  reachable a st -> at_goal st = true -> Qgeb (t st + t_0 a) (tau a) = true.
Proof.
  induction 1 as [|st st' Hr IH Hcond Hbody]; [discriminate|].
  destruct (reachable_turn st st' Hr Hbody) as (_ & _ & _ & _ & Eag & _).
  intro Hag. rewrite Eag in Hag.
  destruct (Qgeb (t st' + t_0 a) (tau a)); [reflexivity|].
  specialize (IH Hag). unfold plan_cond in Hcond.
  apply Qgeb_ge in IH. apply Qltb_ge in IH. rewrite IH, Hag in Hcond.
  discriminate.
Qed.

Lemma reachable_cond_not_at_goal st :
  reachable a st -> plan_cond a st = true -> at_goal st = false.
Proof.
  intros Hr Hcond. destruct (at_goal st) eqn:Hag; [|reflexivity].
  pose proof (reachable_at_goal st Hr Hag) as Hge.
  apply Qgeb_ge in Hge. apply Qltb_ge in Hge.
  unfold plan_cond in Hcond. rewrite Hge, Hag in Hcond. discriminate.
Qed.

End PlanRun.


(** ** generatePlan: building the plan *)

Section PlanBuild.

Variable a : PlanArgs.
Variable st : PlanState.

Hypothesis st_safe : safe a st.

Lemma fill_point_shape i j pts :
  (i < dims a)%nat -> (j < n_pts st)%nat ->
  plan_shape (dims a) (n_pts st) pts ->
  exists pts', fill_point st i j pts = Ret pts'
               /\ plan_shape (dims a) (n_pts st) pts'.
Proof.
  unfold plan_shape. intros Hi Hj (Lp & Hp).
  destruct st_safe as (Lx & Lv & Hx & Hv & _).
  set (blank := {| positions := []; velocities := [] |}) in *.
  unfold fill_point.
  rewrite (at_in_bounds (x_vecs st) i []) by lia. cbn [bind].
  rewrite (at_in_bounds (nth i (x_vecs st) []) j 0) by (rewrite Hx; lia).
  cbn [bind]. rewrite (at_in_bounds pts j blank) by lia. cbn [bind].
  destruct (Hp j Hj) as (Lpos & Lvel).
  match goal with |- context [set_at (positions ?p) i ?x] =>
    destruct (set_at_in_bounds (positions p) i x) as (pos & -> & Lpos' & _) end;
    [lia|]. cbn [bind].
  match goal with |- context [set_at pts j ?q] =>
    destruct (set_at_in_bounds pts j q) as (pts1 & -> & Lp1 & Np1) end;
    [lia|]. cbn [bind].
  rewrite (at_in_bounds (x_dot_vecs st) i []) by lia. cbn [bind].
  rewrite (at_in_bounds (nth i (x_dot_vecs st) []) j 0) by (rewrite Hv; lia).
  cbn [bind]. rewrite (at_in_bounds pts1 j blank) by lia. cbn [bind].
  rewrite (Np1 j blank), Nat.eqb_refl. cbn [positions velocities].
  match goal with |- context [set_at (velocities ?p) i ?x] =>
    destruct (set_at_in_bounds (velocities p) i x) as (vel & -> & Lvel' & _) end;
    [lia|]. cbn [bind].
  match goal with |- context [set_at pts1 j ?q] =>
    destruct (set_at_in_bounds pts1 j q) as (pts2 & -> & Lp2 & Np2) end;
    [lia|].
  exists pts2. split; [reflexivity|]. split; [lia|].
  intros j' Hj'. rewrite (Np2 j' blank).
  destruct (j' =? j)%nat; cbn [positions velocities]; [split; lia|].
  rewrite (Np1 j' blank). destruct (j' =? j)%nat eqn:Hjj;
    cbn [positions velocities]; [split; lia|]. apply Hp. exact Hj'.
Qed.

Lemma make_plan_total :
  exists plan, make_plan a st = Ret plan
               /\ length (points plan) = n_pts st
               /\ times plan = t_vec st.
Proof.
  unfold make_plan.
  match goal with |- context [for_each (seq 0 (dims a)) ?body ?s0] =>
    destruct (for_each_seq_inv
                (fun (_ : nat) pts => plan_shape (dims a) (n_pts st) pts)
                body (dims a) 0 s0) as (pts & -> & Lp & _) end.
  - split; [apply repeat_length|]. intros j Hj.
    rewrite nth_repeat_lt by exact Hj. simpl. rewrite !repeat_length. auto.
  - intros i pts Hi Hs.
    destruct (for_each_seq_inv
                (fun (_ : nat) pts => plan_shape (dims a) (n_pts st) pts)
                (fill_point st i) (n_pts st) 0 pts Hs) as (pts' & Hrun & Hs').
    + intros j pts1 Hj Hs1. apply fill_point_shape; [lia | lia | exact Hs1].
    + exists pts'. split; assumption.
  - cbn [bind]. eexists. split; [reflexivity|]. split; [exact Lp | reflexivity].
Qed.

End PlanBuild.

(** ** generatePlan: termination and the produced plan *)

Section PlanLoop.

Context {E : Extern}.

Variable a : PlanArgs.

Hypothesis args_ok : plan_wf a.
Hypothesis dt_positive : 0 < total_dt a.

Lemma plan_init_cond : plan_cond a (plan_init a) = true.
Proof.
  unfold plan_cond, plan_init. cbn [t at_goal seg_end].
  replace (Qltb 0 MAX_PLAN_LENGTH) with true by reflexivity.
  rewrite orb_true_r. reflexivity.
Qed.

(** While the loop goes on, the time planned so far is inside the
    horizon. *)
Lemma cond_inside_horizon st :
  plan_cond a st = true -> t st < plan_horizon a.
Proof.
  unfold plan_cond, plan_horizon. intro H.
  apply andb_true_iff in H. destruct H as (H & _).
  apply Q.max_lt_iff. apply orb_true_iff in H. destruct H as [H|H].
  - apply Qltb_lt in H. right. lra.
  - apply andb_true_iff in H. destruct H as (_ & H).
    apply Qltb_lt in H. left. exact H.
Qed.

Lemma cond_turns_left st :
  reachable a st -> plan_cond a st = true -> (n_pts st < plan_fuel a)%nat.
Proof.
  intros Hr Hcond. pose proof (cond_inside_horizon st Hcond) as Ht.
  destruct (reachable_time a args_ok st Hr) as (_ & Et & _).
  rewrite Et in Ht. unfold plan_fuel.
  assert (Hq : inject_Z (Z.of_nat (n_pts st)) < plan_horizon a / total_dt a).
  { apply Qlt_shift_div_l; assumption. }
  pose proof (Qle_ceiling (plan_horizon a / total_dt a)) as Hc.
  assert (Hz : (Z.of_nat (n_pts st)
                < Qceiling (plan_horizon a / total_dt a))%Z).
  { rewrite Zlt_Qlt. lra. }
  lia.
Qed.

(** The loop ends within [plan_fuel] turns. *)
Lemma plan_loop_total fuel : forall st,
  reachable a st -> (plan_fuel a <= fuel + n_pts st)%nat ->
  exists st', plan_loop a fuel st = Ret st'
              /\ reachable a st' /\ plan_cond a st' = false.
Proof.
  induction fuel as [|fuel IH]; intros st Hr Hfuel.
  - simpl. destruct (plan_cond a st) eqn:Hcond.
    + pose proof (cond_turns_left st Hr Hcond). lia.
    + exists st. auto.
  - simpl. destruct (plan_cond a st) eqn:Hcond.
    + destruct (plan_body_turn a args_ok st (reachable_safe a args_ok st Hr))
        as (st1 & Hrun & _ & En & _).
      rewrite Hrun. cbn [bind]. apply IH.
      * eapply reach_step; eassumption.
      * pose proof (cond_turns_left st Hr Hcond). lia.
    + exists st. auto.
Qed.

(** A state after the last turn: one turn at least was taken, and the last
    one started inside the horizon. *)
Lemma final_count st :
  reachable a st -> plan_cond a st = false ->
  (1 <= n_pts st)%nat
  /\ inject_Z (Z.of_nat (n_pts st)) < plan_horizon a / total_dt a + 1.
Proof.
  intros Hr Hcond. destruct Hr as [|prev st Hprev Hpc Hbody].
  - rewrite plan_init_cond in Hcond. discriminate.
  - destruct (reachable_turn a args_ok prev st Hprev Hbody) as (_ & En & _).
    rewrite En. split; [lia|].
    pose proof (cond_inside_horizon prev Hpc) as Ht.
    destruct (reachable_time a args_ok prev Hprev) as (_ & Et & _).
    rewrite Et in Ht. rewrite inject_Z_succ.
    assert (Hq : inject_Z (Z.of_nat (n_pts prev))
                 < plan_horizon a / total_dt a)
      by (apply Qlt_shift_div_l; assumption).
    lra.
Qed.

(** With enough fuel [generatePlan] returns the plan built from the state
    in which the loop ended. *)
Lemma generatePlan_runs fuel :
  (plan_fuel a <= fuel)%nat ->
  exists st plan,
    generatePlan a fuel = Ret (plan, at_goal st)
    /\ reachable a st /\ plan_cond a st = false
    /\ length (points plan) = n_pts st /\ times plan = t_vec st.
Proof.
  intro Hfuel. unfold generatePlan.
  destruct (plan_loop_total fuel (plan_init a) (reach_init a))
    as (st & -> & Hr & Hcond); [simpl; lia|].
  cbn [bind].
  destruct (make_plan_total a st (reachable_safe a args_ok st Hr))
    as (plan & -> & Lp & Tp).
  cbn [bind]. exists st, plan. auto.
Qed.

(** C9.  With [total_dt > 0] the plan has at least one point: the loop
    condition holds on entry whatever the arguments are. *)
Theorem plan_has_a_point fuel :
  (plan_fuel a <= fuel)%nat ->
  plan_cond a (plan_init a) = true
  /\ exists plan ag,
       generatePlan a fuel = Ret (plan, ag)
       /\ (1 <= length (points plan))%nat.
Proof.
  intro Hfuel. split; [apply plan_init_cond|].
  destruct (generatePlan_runs fuel Hfuel) as (st & plan & Hrun & Hr & Hc & Lp & _).
  exists plan, (at_goal st). split; [exact Hrun|].
  rewrite Lp. apply (final_count st Hr Hc).
Qed.

End PlanLoop.

(** ** The plan theorems on the sample inputs *)

Ltac plan_wf_by_evaluation :=
  unfold plan_wf, dims; simpl; repeat split; try lia; exfalso; auto.

Lemma plan_has_a_point_witness :
  plan_cond plan_small (plan_init plan_small) = true
  /\ exists plan ag,
       generatePlan (E := rational_extern) plan_small 1000 = Ret (plan, ag)
       /\ (1 <= length (points plan))%nat.
Proof.
  apply (plan_has_a_point (E := rational_extern) plan_small).
  - plan_wf_by_evaluation.
  - reflexivity.
  - vm_compute. lia.
Defined.

(** ** A plan longer than [MAX_PLAN_LENGTH / total_dt + 1] *)


(** * Further properties *)

(** ** Geometry helpers on vertex lists *)

Lemma std_min_le a b : std_min a b <= a /\ std_min a b <= b.
Proof.
  unfold std_min. destruct (Qltb b a) eqn:H.
  - apply Qltb_lt in H. lra.
  - apply Qltb_ge in H. lra.
Qed.

Lemma std_max_ge a b : a <= std_max a b /\ b <= std_max a b.
Proof.
  unfold std_max. destruct (Qltb a b) eqn:H.
  - apply Qltb_lt in H. lra.
  - apply Qltb_ge in H. lra.
Qed.

Lemma std_min_one_of a b : std_min a b = a \/ std_min a b = b.
Proof. unfold std_min. destruct (Qltb b a); auto. Qed.

Lemma std_max_one_of a b : std_max a b = a \/ std_max a b = b.
Proof. unfold std_max. destruct (Qltb a b); auto. Qed.

Lemma axis_inv_step seen c lo hi p :
  axis_inv seen c lo hi ->
  forall lo' hi',
    coord c lo' = std_min (coord c lo) (coord c p) ->
    coord c hi' = std_max (coord c hi) (coord c p) ->
    axis_inv (seen ++ [p]) c lo' hi'.
Proof.
  intros (Hall & (pl & Hpl & El) & (ph & Hph & Eh)) lo' hi' Elo Ehi.
  destruct (std_min_le (coord c lo) (coord c p)) as (Hm1 & Hm2).
  destruct (std_max_ge (coord c hi) (coord c p)) as (HM1 & HM2).
  unfold axis_inv. rewrite Elo, Ehi. split; [|split].
  - intros q Hq. apply in_app_or in Hq. destruct Hq as [Hq|[<-|[]]].
    + specialize (Hall q Hq). lra.
    + lra.
  - destruct (std_min_one_of (coord c lo) (coord c p)) as [->| ->].
    + exists pl. split; [apply in_or_app; auto | exact El].
    + exists p. split; [apply in_or_app; simpl; auto | reflexivity].
  - destruct (std_max_one_of (coord c hi) (coord c p)) as [->| ->].
    + exists ph. split; [apply in_or_app; auto | exact Eh].
    + exists p. split; [apply in_or_app; simpl; auto | reflexivity].
Qed.

Section GeometryMore.

Context {E : Extern}.

Lemma bbox_scan_axes points : forall seen lo hi,
  Forall (fun p => length p = 3%nat) points ->
  length lo = 3%nat -> length hi = 3%nat ->
  (forall c, (c < 3)%nat -> axis_inv seen c lo hi) ->
  exists lo' hi',
    bbox_scan points (lo, hi) = Ret (lo', hi')
    /\ length lo' = 3%nat /\ length hi' = 3%nat
    /\ forall c, (c < 3)%nat -> axis_inv (seen ++ points) c lo' hi'.
Proof.
  induction points as [|p points IH]; intros seen lo hi Hall Hlo Hhi Hinv.
  - exists lo, hi. rewrite app_nil_r. auto.
  - inversion Hall as [|? ? Hp Hrest]; subst.
    destruct (length_three _ Hp) as (a & b & c & ->).
    destruct (length_three _ Hlo) as (l0 & l1 & l2 & ->).
    destruct (length_three _ Hhi) as (h0 & h1 & h2 & ->).
    cbn [bbox_scan]. unfold bbox_update_point. cbn -[std_min std_max bbox_scan].
    destruct (IH (seen ++ [[a; b; c]])
                [std_min l0 a; std_min l1 b; std_min l2 c]
                [std_max h0 a; std_max h1 b; std_max h2 c] Hrest
                eq_refl eq_refl) as (lo' & hi' & Hrun & Hl & Hh & Hfin).
    + intros ax Hax. apply (axis_inv_step seen ax [l0; l1; l2] [h0; h1; h2]);
        [apply Hinv; exact Hax | |];
        destruct ax as [|[|[|ax]]]; try lia; reflexivity.
    + exists lo', hi'. rewrite <- app_assoc in Hfin. auto.
Qed.

(** X1.  The bounding-box extents of a non-empty list of 3-D vertices are, on
    every axis, the largest difference of two vertex coordinates: no
    difference exceeds them, and two vertices attain them. *)
Theorem bounding_box_extents points :
  points <> [] -> Forall (fun p => length p = 3%nat) points ->
  exists dim,
    calculate_bounding_box_dimensions points = Ret ([], dim)
    /\ forall c, (c < 3)%nat ->
         (forall p q, In p points -> In q points ->
            coord c p - coord c q <= coord c (vec3_to_list dim))
         /\ (exists p q, In p points /\ In q points
               /\ coord c (vec3_to_list dim) = coord c p - coord c q).
Proof.
  intros Hne Hall. destruct points as [|p0 points]; [congruence|].
  assert (Hp0 : length p0 = 3%nat) by (inversion Hall; assumption).
  destruct (bbox_scan_axes (p0 :: points) [p0] p0 p0 Hall Hp0 Hp0)
    as (lo & hi & Hscan & Hlo & Hhi & Hinv).
  { intros c _. unfold axis_inv. split; [|split].
    - intros p [<-|[]]. lra.
    - exists p0. simpl. auto.
    - exists p0. simpl. auto. }
  assert (Hin : forall p, In p ([p0] ++ p0 :: points) -> In p (p0 :: points)).
  { intros p [<-|Hp]; [left; reflexivity | exact Hp]. }
  destruct (length_three _ Hp0) as (a & b & c0 & ->).
  unfold calculate_bounding_box_dimensions. rewrite Hscan.
  destruct (length_three _ Hlo) as (l0 & l1 & l2 & ->).
  destruct (length_three _ Hhi) as (h0 & h1 & h2 & ->).
  cbn [bind for_each seq length at_ nth_error app].
  eexists. split; [reflexivity|].
  intros c Hc. destruct (Hinv c Hc) as (Hbound & (pl & Hpl & El) & (ph & Hph & Eh)).
  assert (Hd : coord c (vec3_to_list (V3 (h0 - l0) (h1 - l1) (h2 - l2)))
               = coord c [h0; h1; h2] - coord c [l0; l1; l2]).
  { destruct c as [|[|[|c]]]; try lia; reflexivity. }
  rewrite Hd. split.
  - intros p q Hp Hq.
    assert (Hp' : In p ([[a; b; c0]] ++ [a; b; c0] :: points)) by (right; exact Hp).
    assert (Hq' : In q ([[a; b; c0]] ++ [a; b; c0] :: points)) by (right; exact Hq).
    pose proof (Hbound p Hp'). pose proof (Hbound q Hq'). lra.
  - exists ph, pl. split; [apply Hin; exact Hph|].
    split; [apply Hin; exact Hpl|]. rewrite El, Eh. reflexivity.
Qed.

End GeometryMore.

Lemma minCoeff_from_scan rest : forall pre best index,
  minCoeff_inv pre best index ->
  minCoeff_inv (pre ++ rest)
    (fst (minCoeff_from rest (length pre) best index))
    (snd (minCoeff_from rest (length pre) best index)).
Proof.
  induction rest as [|d rest IH]; intros pre best index Hinv.
  - simpl. rewrite app_nil_r. exact Hinv.
  - destruct Hinv as (Hat & Hle & Hlt). cbn [minCoeff_from].
    assert (Hidx : (index < length pre)%nat).
    { apply nth_error_Some. congruence. }
    replace (pre ++ d :: rest) with ((pre ++ [d]) ++ rest)
      by (rewrite <- app_assoc; reflexivity).
    replace (S (length pre)) with (length (pre ++ [d]))
      by (rewrite length_app; simpl; lia).
    destruct (Qltb d best) eqn:Hd; apply IH; unfold minCoeff_inv.
    + apply Qltb_lt in Hd. split; [|split].
      * rewrite nth_error_app2, Nat.sub_diag by lia. reflexivity.
      * intros j e He.
        destruct (Nat.lt_ge_cases j (length pre)) as [Hj|Hj].
        -- rewrite nth_error_app1 in He by exact Hj.
           specialize (Hle j e He). lra.
        -- rewrite nth_error_app2 in He by exact Hj.
           destruct (j - length pre)%nat as [|[|?]]; simpl in He;
             try discriminate. injection He as <-. lra.
      * intros j e Hj He. rewrite nth_error_app1 in He by exact Hj.
        specialize (Hle j e He). lra.
    + apply Qltb_ge in Hd. split; [|split].
      * rewrite nth_error_app1 by exact Hidx. exact Hat.
      * intros j e He.
        destruct (Nat.lt_ge_cases j (length pre)) as [Hj|Hj].
        -- rewrite nth_error_app1 in He by exact Hj. eauto.
        -- rewrite nth_error_app2 in He by exact Hj.
           destruct (j - length pre)%nat as [|[|?]]; simpl in He;
             try discriminate. injection He as <-. exact Hd.
      * intros j e Hj He. rewrite nth_error_app1 in He by lia. eauto.
Qed.

Section GeometryNearest.

Context {E : Extern}.

(** X5.  [nearestObjectPoint] on a non-empty matrix returns one of its
    rows, and no row is closer to the path point. *)
Theorem nearestObjectPoint_nearest vertices_matrix path_point :
  vertices_matrix <> [] ->
  exists index p,
    nearestObjectPoint vertices_matrix path_point = Ret p
    /\ nth_error vertices_matrix index = Some p
    /\ (forall r, In r vertices_matrix ->
          norm (vsub p path_point) <= norm (vsub r path_point)).
Proof.
  intro Hne. destruct vertices_matrix as [|r0 rows]; [congruence|].
  unfold nearestObjectPoint. set (f := fun r => norm (vsub r path_point)).
  cbn [map minCoeff bind].
  pose proof (minCoeff_from_scan (map f rows) [f r0] (f r0) 0%nat) as Hscan.
  cbn [length app] in Hscan.
  destruct (minCoeff_from (map f rows) 1 (f r0) 0) as [min_dist index].
  cbn [fst snd] in Hscan.
  destruct Hscan as (Hat & Hle & Hlt).
  { split; [reflexivity|]. split.
    - intros [|j] d Hd; simpl in Hd; [injection Hd as <-; lra|].
      destruct j; discriminate.
    - intros j d Hj. lia. }
  change (f r0 :: map f rows) with (map f (r0 :: rows)) in *.
  rewrite nth_error_map in Hat.
  destruct (nth_error (r0 :: rows) index) as [p|] eqn:Hp; [|discriminate].
  simpl in Hat. injection Hat as <-.
  exists index, p. split; [cbn [bind]; unfold at_; rewrite Hp; reflexivity|].
  split; [exact Hp|].
  intros r Hr. apply In_nth_error in Hr. destruct Hr as (j & Hj).
  apply (Hle j). rewrite nth_error_map, Hj. reflexivity.
Qed.

(** X3.  [verticesVectorToEigen] keeps the vertices and their order: turned back
    into coordinate lists, the rows of the matrix are the vertices given. *)
Theorem verticesVectorToEigen_rows vertices :
  Forall (fun p => length p = 3%nat) vertices ->
  exists rows, verticesVectorToEigen vertices = Ret rows
               /\ map vec3_to_list rows = vertices.
Proof.
  induction 1 as [|p vertices Hp _ IH].
  - exists []. auto.
  - destruct (length_three _ Hp) as (a & b & c & ->).
    destruct IH as (rows & Hr & Hm).
    exists (V3 a b c :: rows). simpl. rewrite Hr. simpl.
    split; [reflexivity|]. rewrite Hm. reflexivity.
Qed.

(** X4.  A vertex with fewer than three coordinates makes
    [verticesVectorToEigen] read past its end. *)
Theorem verticesVectorToEigen_short_vertex before p after :
  Forall (fun q => length q = 3%nat) before -> (length p < 3)%nat ->
  verticesVectorToEigen (before ++ p :: after) = OutOfBounds.
Proof.
  intros Hall Hp. induction Hall as [|q before Hq _ IH].
  - destruct p as [|a [|b [|c p]]]; simpl in Hp; try lia; reflexivity.
  - destruct (length_three _ Hq) as (a & b & c & ->).
    simpl. simpl in IH. rewrite IH. reflexivity.
Qed.

End GeometryNearest.

(** ** learnFromDemo and lfdCallback *)

Lemma at_last_nonempty {A} (v : list A) d :
  v <> [] -> at_last v = Ret (nth (length v - 1) v d).
Proof.
  intro H. unfold at_last. destruct (length v) as [|m] eqn:Hl.
  - destruct v; [congruence|discriminate].
  - replace (S m - 1)%nat with m by lia. apply at_in_bounds. lia.
Qed.

Section LearnMore.

Context {E : Extern}.

Variable demo : DMPTraj.
Variables k_gains d_gains : list Q.
Variable num_bases : Z.

Hypothesis demo_nonempty : points demo <> [].
Hypothesis demo_ok : demo_wf demo k_gains d_gains.

Lemma learned_unique d p q :
  learned demo k_gains d_gains num_bases d p ->
  learned demo k_gains d_gains num_bases d q -> p = q.
Proof.
  intros (Pk & Pd & Pt & Pf & Ptg & Pdom & Pw) (Qk & Qd & Qt & Qf & Qtg & Qdom & Qw).
  assert (Et : f_targets p = f_targets q).
  { apply (nth_ext _ _ 0 0); [congruence|].
    intros i Hi. rewrite Ptg, Qtg by lia. reflexivity. }
  assert (Ef : f_domain p = f_domain q).
  { apply (nth_ext _ _ 0 0); [congruence|].
    intros i Hi. rewrite Pdom, Qdom by lia. reflexivity. }
  destruct p, q. simpl in *. subst. reflexivity.
Qed.

Lemma learnFromDemo_learned heap dmp_list0 :
  buf_sized (length (points demo)) heap ->
  exists prims,
    learnFromDemo heap demo k_gains d_gains num_bases dmp_list0
      = Ret (dmp_list0 ++ prims)
    /\ length prims = demo_dims demo
    /\ forall d p, nth_error prims d = Some p ->
         learned demo k_gains d_gains num_bases d p.
Proof.
  intro Hheap.
  pose proof (n_positive demo demo_nonempty) as Hn.
  unfold learnFromDemo.
  destruct (length (points demo) <? 1)%nat eqn:Hn1;
    [apply Nat.ltb_lt in Hn1; lia|].
  set (blank := {| positions := []; velocities := [] |}).
  rewrite (at_in_bounds (points demo) 0 blank) by exact Hn. cbn [bind].
  rewrite (demo_time_ok demo k_gains d_gains demo_ok) by lia. cbn [bind].
  destruct (learn_dimensions_ok demo k_gains d_gains num_bases
              demo_nonempty demo_ok heap dmp_list0 Hheap)
    as (buf' & prims & Hrun & Hlen & Hall).
  subst blank. unfold demo_dims in Hrun. rewrite Hrun. cbn [bind].
  exists prims. auto.
Qed.

(** X6.  What the freshly allocated arrays hold has no influence on the result
    of [learnFromDemo]: every cell is written before it is read. *)
Theorem learnFromDemo_ignores_heap heap1 heap2 dmp_list0 :
  buf_sized (length (points demo)) heap1 ->
  buf_sized (length (points demo)) heap2 ->
  learnFromDemo heap1 demo k_gains d_gains num_bases dmp_list0
  = learnFromDemo heap2 demo k_gains d_gains num_bases dmp_list0.
Proof.
  intros H1 H2.
  destruct (learnFromDemo_learned heap1 dmp_list0 H1) as (l1 & -> & L1 & A1).
  destruct (learnFromDemo_learned heap2 dmp_list0 H2) as (l2 & -> & L2 & A2).
  f_equal. f_equal.
  set (blank := {| k_gain := 0; d_gain := 0; weights := [];
                   f_domain := []; f_targets := [] |}).
  apply (nth_ext _ _ blank blank); [congruence|].
  intros d Hd. apply (learned_unique d).
  - apply A1. apply nth_error_nth'. exact Hd.
  - apply A2. apply nth_error_nth'. lia.
Qed.

(** X7.  The primitive of dimension [d] stores the gains of that dimension and,
    as its domain, the time stamps divided by the last one. *)
Theorem learnFromDemo_gains_and_domain heap dmp_list0 :
  buf_sized (length (points demo)) heap ->
  exists prims,
    learnFromDemo heap demo k_gains d_gains num_bases dmp_list0
      = Ret (dmp_list0 ++ prims)
    /\ forall d p, nth_error prims d = Some p ->
         nth_error k_gains d = Some (k_gain p)
         /\ nth_error d_gains d = Some (d_gain p)
         /\ length (f_domain p) = length (points demo)
         /\ forall i, (i < length (points demo))%nat ->
              nth i (f_domain p) 0
                = demo_t demo i / demo_t demo (length (points demo) - 1).
Proof.
  intro Hheap.
  destruct (learnFromDemo_learned heap dmp_list0 Hheap) as (prims & Hrun & Hlen & Hall).
  exists prims. split; [exact Hrun|]. intros d p Hp.
  destruct (Hall d p Hp) as (Pk & Pd & _ & Pf & _ & Pdom & _).
  assert (Hd : (d < demo_dims demo)%nat).
  { rewrite <- Hlen. apply nth_error_Some. congruence. }
  destruct demo_ok as (_ & _ & Wk & Wd).
  rewrite Pk, Pd. repeat split.
  - apply nth_error_nth'. lia.
  - apply nth_error_nth'. lia.
  - exact Pf.
  - exact Pdom.
Qed.

(** X8.  [lfdCallback] on a non-empty demonstration answers with the primitives
    of [learnFromDemo] and with the last entry of [times]; that is the [tau]
    the primitives were fitted with when there are as many time stamps as
    points. *)
Theorem lfdCallback_tau heap :
  buf_sized (length (points demo)) heap ->
  exists prims,
    learnFromDemo heap demo k_gains d_gains num_bases [] = Ret prims
    /\ lfdCallback heap
         {| req_demo := demo; req_k_gains := k_gains; req_d_gains := d_gains;
            req_num_bases := num_bases |}
       = Ret {| res_dmp_list := prims;
                res_tau := nth (length (times demo) - 1) (times demo) 0 |}
    /\ (length (times demo) = length (points demo) ->
        nth (length (times demo) - 1) (times demo) 0
        = demo_t demo (length (points demo) - 1)).
Proof.
  intro Hheap.
  destruct (learnFromDemo_learned heap [] Hheap) as (prims & Hrun & _).
  simpl in Hrun. exists prims. split; [exact Hrun|]. split.
  - unfold lfdCallback. cbn [req_demo req_k_gains req_d_gains req_num_bases].
    rewrite Hrun. cbn [bind].
    rewrite (at_last_nonempty (times demo) 0); [reflexivity|].
    pose proof (n_positive demo demo_nonempty) as Hn.
    destruct demo_ok as (Hl & _).
    destruct (times demo); [simpl in Hl; lia | discriminate].
  - intros ->. reflexivity.
Qed.

End LearnMore.

Section LearnEmpty.

Context {E : Extern}.

(** X9.  On a demonstration without points [learnFromDemo] leaves the output as
    it was, and [lfdCallback] answers with no primitive and the last entry
    of [times]; when [times] is empty as well, the callback reads
    [times[size()-1]] out of range. *)
Theorem lfdCallback_empty_demo heap req :
  points (req_demo req) = [] ->
  (forall dmp_list0,
     learnFromDemo heap (req_demo req) (req_k_gains req) (req_d_gains req)
       (req_num_bases req) dmp_list0 = Ret dmp_list0)
  /\ (times (req_demo req) = [] -> lfdCallback heap req = OutOfBounds)
  /\ (times (req_demo req) <> [] ->
      lfdCallback heap req
      = Ret {| res_dmp_list := [];
               res_tau := nth (length (times (req_demo req)) - 1)
                            (times (req_demo req)) 0 |}).
Proof.
  intro Hp.
  assert (Hl : forall l,
            learnFromDemo heap (req_demo req) (req_k_gains req)
              (req_d_gains req) (req_num_bases req) l = Ret l).
  { intro l. unfold learnFromDemo. rewrite Hp. reflexivity. }
  split; [exact Hl|]. unfold lfdCallback. rewrite Hl. cbn [bind]. split.
  - intros ->. reflexivity.
  - intro Hne. rewrite (at_last_nonempty _ 0 Hne). reflexivity.
Qed.

End LearnEmpty.

(** ** generatePlan: what the plan holds *)

Section PlanContents.

Variable a : PlanArgs.
Variable st : PlanState.

Hypothesis st_safe : safe a st.

Lemma fill_point_filled i j pts :
  (i < dims a)%nat -> (j < n_pts st)%nat ->
  plan_filled a st i j pts ->
  exists pts', fill_point st i j pts = Ret pts'
               /\ plan_filled a st i (S j) pts'.
Proof.
  unfold plan_filled, plan_shape, plan_position, plan_velocity.
  intros Hi Hj ((Lp & Hp) & Hfill).
  destruct st_safe as (Lx & Lv & Hx & Hv & _).
  set (blank := {| positions := []; velocities := [] |}) in *.
  unfold fill_point.
  rewrite (at_in_bounds (x_vecs st) i []) by lia. cbn [bind].
  rewrite (at_in_bounds (nth i (x_vecs st) []) j 0) by (rewrite Hx; lia).
  cbn [bind]. rewrite (at_in_bounds pts j blank) by lia. cbn [bind].
  destruct (Hp j Hj) as (Lpos & Lvel).
  match goal with |- context [set_at (positions ?p) i ?x] =>
    destruct (set_at_in_bounds (positions p) i x) as (pos & -> & Lpos' & Npos) end;
    [lia|]. cbn [bind].
  match goal with |- context [set_at pts j ?q] =>
    destruct (set_at_in_bounds pts j q) as (pts1 & -> & Lp1 & Np1) end;
    [lia|]. cbn [bind].
  rewrite (at_in_bounds (x_dot_vecs st) i []) by lia. cbn [bind].
  rewrite (at_in_bounds (nth i (x_dot_vecs st) []) j 0) by (rewrite Hv; lia).
  cbn [bind]. rewrite (at_in_bounds pts1 j blank) by lia. cbn [bind].
  rewrite (Np1 j blank), Nat.eqb_refl. cbn [positions velocities].
  match goal with |- context [set_at (velocities ?p) i ?x] =>
    destruct (set_at_in_bounds (velocities p) i x) as (vel & -> & Lvel' & Nvel) end;
    [lia|]. cbn [bind].
  match goal with |- context [set_at pts1 j ?q] =>
    destruct (set_at_in_bounds pts1 j q) as (pts2 & -> & Lp2 & Np2) end;
    [lia|].
  exists pts2. split; [reflexivity|]. split; [split; [lia|]|].
  - intros j' Hj'. rewrite (Np2 j' blank).
    destruct (j' =? j)%nat; cbn [positions velocities]; [split; lia|].
    rewrite (Np1 j' blank). destruct (j' =? j)%nat eqn:Hjj;
      cbn [positions velocities]; [split; lia|]. apply Hp. exact Hj'.
  - intros i' j' Hi' Hj' Hbefore. rewrite (Np2 j' blank).
    destruct (j' =? j)%nat eqn:Hjj; cbn [positions velocities].
    + apply Nat.eqb_eq in Hjj. subst j'. rewrite Npos, Nvel.
      destruct (i' =? i)%nat eqn:Hii.
      * apply Nat.eqb_eq in Hii. subst i'. auto.
      * apply Nat.eqb_neq in Hii. apply Hfill; [lia | lia |]. lia.
    + apply Nat.eqb_neq in Hjj. rewrite (Np1 j' blank).
      replace (j' =? j)%nat with false by (symmetry; apply Nat.eqb_neq; lia).
      apply Hfill; [lia | lia |]. lia.
Qed.

(** The plan built from a loop state has its time stamps, and position and
    velocity [i] of point [j] are entry [j] of the trajectories of
    dimension [i]. *)
Lemma make_plan_contents :
  exists plan,
    make_plan a st = Ret plan
    /\ times plan = t_vec st
    /\ plan_shape (dims a) (n_pts st) (points plan)
    /\ forall i j, (i < dims a)%nat -> (j < n_pts st)%nat ->
         plan_position (points plan) j i = nth j (nth i (x_vecs st) []) 0
         /\ plan_velocity (points plan) j i
            = nth j (nth i (x_dot_vecs st) []) 0.
Proof.
  unfold make_plan.
  match goal with |- context [for_each (seq 0 (dims a)) ?body ?s0] =>
    destruct (for_each_seq_inv
                (fun (i : nat) pts => plan_filled a st i 0 pts)
                body (dims a) 0 s0) as (pts & -> & Hshape & Hfill) end.
  - split.
    + split; [apply repeat_length|]. intros j Hj.
      rewrite nth_repeat_lt by exact Hj. simpl. rewrite !repeat_length. auto.
    + intros i' j' _ _ [H|[_ H]]; lia.
  - intros i pts Hi Hs.
    destruct (for_each_seq_inv
                (fun (j : nat) pts => plan_filled a st i j pts)
                (fill_point st i) (n_pts st) 0 pts Hs) as (pts' & Hrun & Hs').
    + intros j pts1 Hj Hs1. apply fill_point_filled; [lia | lia | exact Hs1].
    + exists pts'. split; [exact Hrun|].
      destruct Hs' as (Hsh & Hf). split; [exact Hsh|].
      intros i' j' Hi' Hj' Hbefore. apply Hf; [exact Hi' | exact Hj' |].
      simpl. destruct Hbefore as [H|[_ H]]; lia.
  - cbn [bind]. eexists. split; [reflexivity|]. split; [reflexivity|].
    cbn [points]. split; [exact Hshape|].
    intros i j Hi Hj. apply Hfill; [exact Hi | exact Hj |]. simpl. lia.
Qed.

End PlanContents.

(** ** generatePlan: the returned plan and flag *)

Section PlanOutput.

Context {E : Extern}.

Variable a : PlanArgs.

Hypothesis args_ok : plan_wf a.
Hypothesis dt_positive : 0 < total_dt a.

Lemma generatePlan_result fuel :
  (plan_fuel a <= fuel)%nat ->
  exists st plan,
    generatePlan a fuel = Ret (plan, at_goal st)
    /\ reachable a st /\ plan_cond a st = false
    /\ (1 <= n_pts st)%nat
    /\ length (points plan) = n_pts st
    /\ times plan = t_vec st
    /\ plan_shape (dims a) (n_pts st) (points plan)
    /\ forall i j, (i < dims a)%nat -> (j < n_pts st)%nat ->
         plan_position (points plan) j i = nth j (nth i (x_vecs st) []) 0
         /\ plan_velocity (points plan) j i
            = nth j (nth i (x_dot_vecs st) []) 0.
Proof.
  intro Hfuel. unfold generatePlan.
  destruct (plan_loop_total a args_ok dt_positive fuel (plan_init a)
              (reach_init a)) as (st & -> & Hr & Hcond); [simpl; lia|].
  cbn [bind].
  destruct (make_plan_contents a st (reachable_safe a args_ok st Hr))
    as (plan & -> & Tp & Hshape & Hfill).
  cbn [bind]. exists st, plan.
  destruct (final_count a args_ok dt_positive st Hr Hcond) as (Hn & _).
  pose proof Hshape as (Lp & _).
  repeat (split; [first [reflexivity | assumption]|]). exact Hfill.
Qed.

(** X10.  Every point of the plan has one position and one velocity per
    dimension of the primitive set. *)
Theorem plan_points_dimension fuel :
  (plan_fuel a <= fuel)%nat ->
  exists plan ag,
    generatePlan a fuel = Ret (plan, ag)
    /\ Forall (fun p => length (positions p) = dims a
                        /\ length (velocities p) = dims a) (points plan).
Proof.
  intro Hfuel.
  destruct (generatePlan_result fuel Hfuel)
    as (st & plan & Hrun & _ & _ & _ & Lp & _ & (_ & Hs) & _).
  exists plan, (at_goal st). split; [exact Hrun|].
  apply Forall_forall. intros p Hp.
  apply (In_nth _ _ {| positions := []; velocities := [] |}) in Hp.
  destruct Hp as (j & Hj & <-). apply Hs. lia.
Qed.

Lemma final_at_goal st :
  reachable a st -> plan_cond a st = false ->
  (at_goal st = true
   <-> tau a <= t st + t_0 a
       /\ forall i, (i < dims a)%nat -> 0 < nth i (goal_thresh a) 0 ->
            Qabs (last_x st i - nth i (goal a) 0) <= nth i (goal_thresh a) 0).
Proof.
  intros Hr Hcond. destruct Hr as [|prev st Hprev Hpc Hbody].
  - rewrite (plan_init_cond a) in Hcond. discriminate.
  - destruct (reachable_turn a args_ok prev st Hprev Hbody)
      as (_ & _ & _ & _ & Eag & _).
    rewrite (reachable_cond_not_at_goal a args_ok prev Hprev Hpc) in Eag.
    rewrite Eag. destruct (Qgeb (t st + t_0 a) (tau a)) eqn:Hge.
    + apply Qgeb_ge in Hge. rewrite goals_met_spec. tauto.
    + apply Qgeb_lt in Hge. split; [discriminate|]. intros (Hle & _). lra.
Qed.

Lemma reachable_no_segment st :
  seg_length a <= 0 -> reachable a st -> seg_end st = false.
Proof.
  intro Hseg. induction 1 as [|st st' Hr IH _ Hbody]; [reflexivity|].
  destruct (reachable_turn a args_ok st st' Hr Hbody) as (_ & _ & _ & Es & _).
  rewrite Es. unfold check_segment.
  apply Qgtb_le in Hseg. rewrite Hseg. exact IH.
Qed.

Lemma final_without_segment st :
  seg_length a <= 0 -> reachable a st -> plan_cond a st = false ->
  tau a <= t st + t_0 a /\ (at_goal st = false -> MAX_PLAN_LENGTH <= t st).
Proof.
  intros Hseg Hr Hcond. unfold plan_cond in Hcond.
  rewrite (reachable_no_segment st Hseg Hr) in Hcond.
  rewrite andb_true_r in Hcond. apply orb_false_iff in Hcond.
  destruct Hcond as (Htau & Hmax). apply Qltb_ge in Htau.
  split; [exact Htau|]. intro Hag. rewrite Hag in Hmax. simpl in Hmax.
  apply Qltb_ge in Hmax. exact Hmax.
Qed.

End PlanOutput.

(** ** generatePlan: a call that does not use the obstacle *)

Lemma plan_body_parts {E : Extern} a st :
  plan_body a st
  = (r <- plan_coupling a st ;;
     st1 <- for_each (seq 0 (dims a)) (plan_dimension a (cr_apf_ct r))
              (turn_start a st r) ;;
     turn_finish a st1).
Proof. reflexivity. Qed.

Lemma for_each_erase {S} (erase : S -> S) (body1 body2 : nat -> S -> outcome S) l :
  (forall i s, body1 i (erase s) = outcome_map erase (body2 i s)) ->
  forall s, for_each l body1 (erase s) = outcome_map erase (for_each l body2 s).
Proof.
  intro Hbody. induction l as [|i l IH]; intro s; [reflexivity|].
  cbn [for_each]. rewrite Hbody. unfold outcome_map.
  destruct (body2 i s) as [s1| | |]; cbn [bind]; try reflexivity.
  rewrite IH. reflexivity.
Qed.

Section PlanNoObstacle.

Context {E : Extern}.

Variable a : PlanArgs.

Hypothesis unused : plan_uses_obstacle a = false.

Lemma plan_dimension_erase apf_ct i st :
  plan_dimension (without_obstacle a) apf_ct i (erase_coeffs st)
  = outcome_map erase_coeffs (plan_dimension a apf_ct i st).
Proof.
  unfold plan_dimension, outcome_map.
  change (start_state (without_obstacle a) (erase_coeffs st) i)
    with (start_state a st i).
  destruct (start_state a st i) as [xv| | |]; cbn [bind]; try reflexivity.
  change (integrate (without_obstacle a) (t (erase_coeffs st)) apf_ct i xv)
    with (integrate a (t st) apf_ct i xv).
  destruct (integrate a (t st) apf_ct i xv) as [[x v]| | |]; cbn [bind];
    try reflexivity.
  cbn [erase_coeffs x_vecs x_dot_vecs].
  destruct (at_ (x_vecs st) i) as [xs| | |]; cbn [bind]; try reflexivity.
  destruct (set_at (x_vecs st) i (xs ++ [x])) as [xs'| | |]; cbn [bind];
    try reflexivity.
  destruct (at_ (x_dot_vecs st) i) as [vs| | |]; cbn [bind]; try reflexivity.
  change (tau (without_obstacle a)) with (tau a).
  destruct (set_at (x_dot_vecs st) i (vs ++ [v / tau a])) as [vs'| | |];
    cbn [bind]; reflexivity.
Qed.

Lemma turn_finish_erase st :
  turn_finish (without_obstacle a) (erase_coeffs st)
  = outcome_map erase_coeffs (turn_finish a st).
Proof.
  unfold turn_finish, outcome_map.
  cbn [erase_coeffs t n_pts x_vecs x_dot_vecs t_vec at_goal seg_end beta gamma k
       without_obstacle total_dt t_0 tau].
  destruct (Qgeb (t st + total_dt a + t_0 a) (tau a)); [|reflexivity].
  match goal with
  | |- bind (for_each ?l1 ?f ?b) _ = bind (bind (for_each ?l2 ?g ?b) _) _ =>
      change (for_each l1 f b) with (for_each l2 g b);
      destruct (for_each l2 g b) as [ag| | |]
  end; reflexivity.
Qed.

Lemma plan_body_erase st :
  plan_body (without_obstacle a) (erase_coeffs st)
  = outcome_map erase_coeffs (plan_body a st).
Proof.
  rewrite !plan_body_parts.
  assert (Hc : plan_coupling a st
               = Ret {| cr_apf_ct := repeat 0 (dims a); cr_beta := beta st;
                        cr_gamma := gamma st; cr_k := k st |}).
  { unfold plan_coupling. fold (plan_uses_obstacle a). rewrite unused.
    reflexivity. }
  rewrite Hc.
  change (plan_coupling (without_obstacle a) (erase_coeffs st))
    with (Ret {| cr_apf_ct := repeat 0 (dims a); cr_beta := [];
                 cr_gamma := []; cr_k := [] |}).
  cbn [bind cr_apf_ct].
  match goal with
  | |- context [turn_start a st ?r] => set (mid := turn_start a st r)
  end.
  match goal with
  | |- context [turn_start (without_obstacle a) ?s ?r] =>
      change (turn_start (without_obstacle a) s r) with (erase_coeffs mid)
  end.
  change (dims (without_obstacle a)) with (dims a).
  rewrite (for_each_erase erase_coeffs
             (plan_dimension (without_obstacle a) (repeat 0 (dims a)))
             (plan_dimension a (repeat 0 (dims a))))
    by (intros; apply plan_dimension_erase).
  unfold outcome_map.
  destruct (for_each (seq 0 (dims a)) (plan_dimension a (repeat 0 (dims a))) mid)
    as [st1| | |]; cbn [bind]; try reflexivity.
  apply turn_finish_erase.
Qed.

Lemma plan_loop_erase fuel : forall st,
  plan_loop (without_obstacle a) fuel (erase_coeffs st)
  = outcome_map erase_coeffs (plan_loop a fuel st).
Proof.
  induction fuel as [|fuel IH]; intro st; cbn [plan_loop];
    change (plan_cond (without_obstacle a) (erase_coeffs st))
      with (plan_cond a st);
    destruct (plan_cond a st); try reflexivity.
  rewrite plan_body_erase. unfold outcome_map.
  destruct (plan_body a st) as [st1| | |]; cbn [bind]; try reflexivity.
  apply IH.
Qed.

(** X15.  A call whose obstacle is empty, or whose primitive set has neither
    three nor six dimensions, returns what the same call returns without
    obstacle and coupling parameters. *)
Theorem generatePlan_obstacle_unused fuel :
  generatePlan a fuel = generatePlan (without_obstacle a) fuel.
Proof.
  unfold generatePlan.
  change (plan_init (without_obstacle a)) with (erase_coeffs (plan_init a)).
  rewrite plan_loop_erase. unfold outcome_map.
  destruct (plan_loop a fuel (plan_init a)) as [st| | |]; cbn [bind];
    reflexivity.
Qed.

End PlanNoObstacle.

(** ** planCallback *)

Section PlanCallback.

Context {E : Extern}.

(** X19.  A plan request served while no primitive set is active: when the
    obstacle list can be decoded, there is no segment length and the step
    is positive, the answer is a plan whose points have neither positions
    nor velocities, with [at_goal] set; start, goal and thresholds are not
    looked at. *)
Theorem planCallback_no_active_dmp req obstacle fuel :
  planCallback_obstacle (req_obstacle req) = Ret obstacle ->
  0 < req_dt req -> req_seg_length req <= 0 ->
  (plan_fuel (planCallback_args active_dmp_list_init req obstacle) <= fuel)%nat ->
  exists plan,
    planCallback active_dmp_list_init req fuel
      = Ret {| res_plan := plan; res_at_goal := true |}
    /\ (1 <= length (points plan))%nat
    /\ Forall (fun p => positions p = [] /\ velocities p = []) (points plan).
Proof.
  intros Ho Hdt Hseg Hfuel.
  set (a := planCallback_args active_dmp_list_init req obstacle) in *.
  assert (Hwf : plan_wf a).
  { unfold plan_wf, dims. simpl. repeat split; try lia.
    all: intros _ [H|H]; discriminate. }
  destruct (generatePlan_result a Hwf Hdt fuel Hfuel)
    as (st & plan & Hrun & Hr & Hcond & Hn & Lp & _ & (_ & Hs) & _).
  destruct (final_without_segment a Hwf st Hseg Hr Hcond) as (Htau & _).
  assert (Hag : at_goal st = true).
  { apply (final_at_goal a Hwf st Hr Hcond). split; [exact Htau|].
    intros i Hi. unfold dims in Hi. simpl in Hi. lia. }
  rewrite Hag in Hrun. exists plan. split; [|split; [lia|]].
  - unfold planCallback. rewrite Ho. cbn [bind]. fold a. rewrite Hrun.
    reflexivity.
  - apply Forall_forall. intros p Hp.
    apply (In_nth _ _ {| positions := []; velocities := [] |}) in Hp.
    destruct Hp as (j & Hj & <-). destruct (Hs j) as (Lpos & Lvel); [lia|].
    unfold dims in Lpos, Lvel. simpl in Lpos, Lvel.
    destruct (positions _); [|discriminate].
    destruct (velocities _); [|discriminate]. auto.
Qed.

End PlanCallback.

(** ** generatePlan: how the points follow from one another *)

Lemma at_Ret_nth {A} (v : list A) i x d :
  at_ v i = Ret x -> (i < length v)%nat /\ nth i v d = x.
Proof.
  intro H. apply at_Ret in H. split.
  - apply nth_error_Some. congruence.
  - apply nth_error_nth. exact H.
Qed.

Lemma set_at_Ret {A} (v : list A) i x v' :
  set_at v i x = Ret v' ->
  length v' = length v
  /\ forall j d, nth j v' d = if (j =? i)%nat then x else nth j v d.
Proof.
  intro H. destruct (Nat.lt_ge_cases i (length v)) as [Hi|Hi].
  - destruct (set_at_in_bounds v i x Hi) as (w & Hw & Hl & Hn).
    rewrite Hw in H. injection H as <-. auto.
  - exfalso. revert i v' H Hi. induction v as [|hd tl IH]; intros i v' H Hi.
    + destruct i; discriminate.
    + destruct i as [|i]; simpl in Hi; [lia|]. simpl in H.
      destruct (set_at tl i x) eqn:Hs; try discriminate.
      apply (IH i a Hs). lia.
Qed.

Section PlanChain.

Context {E : Extern}.

Variable a : PlanArgs.

Hypothesis args_ok : plan_wf a.

Lemma start_state_agree s1 s2 i :
  n_pts s1 = n_pts s2 ->
  length (x_vecs s1) = length (x_vecs s2) ->
  length (x_dot_vecs s1) = length (x_dot_vecs s2) ->
  nth i (x_vecs s1) [] = nth i (x_vecs s2) [] ->
  nth i (x_dot_vecs s1) [] = nth i (x_dot_vecs s2) [] ->
  start_state a s1 i = start_state a s2 i.
Proof.
  intros En Lx Lv Ex Ev. unfold start_state. rewrite En.
  destruct (n_pts s2 =? 0)%nat; [reflexivity|].
  assert (H : forall (u w : list (list Q)),
            length u = length w -> nth i u [] = nth i w [] ->
            at_ u i = at_ w i).
  { intros u w Hl Hn. destruct (Nat.lt_ge_cases i (length u)) as [Hi|Hi].
    - rewrite (at_in_bounds u i []), (at_in_bounds w i []) by lia.
      rewrite Hn. reflexivity.
    - unfold at_.
      assert (Hu : nth_error u i = None) by (apply nth_error_None; lia).
      assert (Hw : nth_error w i = None) by (apply nth_error_None; lia).
      rewrite Hu, Hw. reflexivity. }
  rewrite (H _ _ Lx Ex), (H _ _ Lv Ev). reflexivity.
Qed.

Lemma plan_dimension_effect st0 apf_ct i st :
  (i < dims a)%nat -> (dims a <= length apf_ct)%nat ->
  dim_eff a st0 apf_ct i st ->
  exists st', plan_dimension a apf_ct i st = Ret st'
              /\ dim_eff a st0 apf_ct (S i) st'.
Proof.
  intros Hi Hc (Hinv & Hdone & Hrest & L0x & L0v).
  destruct (plan_dimension_step a args_ok apf_ct st0 i st Hi Hc Hinv)
    as (st' & Hrun & Hinv').
  exists st'. split; [exact Hrun|]. split; [exact Hinv'|].
  cut ((forall j, (j < S i)%nat -> (j < dims a)%nat ->
          exists xv x v,
            start_state a st0 j = Ret xv
            /\ integrate a (t st0) apf_ct j xv = Ret (x, v)
            /\ nth j (x_vecs st') [] = nth j (x_vecs st0) [] ++ [x]
            /\ nth j (x_dot_vecs st') [] = nth j (x_dot_vecs st0) [] ++ [v / tau a])
       /\ (forall j, (S i <= j)%nat ->
             nth j (x_vecs st') [] = nth j (x_vecs st0) []
             /\ nth j (x_dot_vecs st') [] = nth j (x_dot_vecs st0) []));
    [intros (H1 & H2); auto|].
  destruct Hinv as (Et & En & _ & _ & _ & _ & _ & _ & Lx & Lv & _).
  destruct Hinv' as (_ & _ & _ & _ & _ & _ & _ & _ & Lx' & Lv' & _).
  unfold plan_dimension in Hrun.
  destruct (start_state a st i) as [xv| | |] eqn:Hss; try discriminate.
  cbn [bind] in Hrun.
  destruct (integrate a (t st) apf_ct i xv) as [[x v]| | |] eqn:Hint;
    try discriminate.
  cbn [bind] in Hrun.
  destruct (at_ (x_vecs st) i) as [xs| | |] eqn:Hax; try discriminate.
  cbn [bind] in Hrun.
  destruct (set_at (x_vecs st) i (xs ++ [x])) as [xs'| | |] eqn:Hsx;
    try discriminate.
  cbn [bind] in Hrun.
  destruct (at_ (x_dot_vecs st) i) as [vs| | |] eqn:Hav; try discriminate.
  cbn [bind] in Hrun.
  destruct (set_at (x_dot_vecs st) i (vs ++ [v / tau a])) as [vs'| | |] eqn:Hsv;
    try discriminate.
  cbn [bind] in Hrun. injection Hrun as <-.
  cbn [x_vecs x_dot_vecs].
  apply (at_Ret_nth _ _ _ []) in Hax. destruct Hax as (_ & <-).
  apply (at_Ret_nth _ _ _ []) in Hav. destruct Hav as (_ & <-).
  apply set_at_Ret in Hsx. destruct Hsx as (_ & Nx).
  apply set_at_Ret in Hsv. destruct Hsv as (_ & Nv).
  destruct (Hrest i (Nat.le_refl i)) as (Exi & Evi).
  assert (Hstart : start_state a st i = start_state a st0 i).
  { apply start_state_agree; congruence. }
  split.
  - intros j Hj Hjd. destruct (Nat.eq_dec j i) as [->|Hne].
    + exists xv, x, v. rewrite <- Hstart, <- Et.
      split; [exact Hss|]. split; [exact Hint|].
      rewrite Nx, Nv, Nat.eqb_refl, Exi, Evi. auto.
    + destruct (Hdone j) as (xw & xj & vj & H1 & H2 & H3 & H4); [lia|lia|].
      exists xw, xj, vj. rewrite Nx, Nv.
      replace (j =? i)%nat with false by (symmetry; apply Nat.eqb_neq; lia).
      auto.
  - intros j Hj. rewrite Nx, Nv.
    replace (j =? i)%nat with false by (symmetry; apply Nat.eqb_neq; lia).
    apply Hrest. lia.
Qed.

Lemma turn_finish_frame st st' :
  turn_finish a st = Ret st' ->
  x_vecs st' = x_vecs st /\ x_dot_vecs st' = x_dot_vecs st
  /\ n_pts st' = S (n_pts st) /\ t st' = t st + total_dt a
  /\ t_vec st' = t_vec st ++ [t st + total_dt a].
Proof.
  unfold turn_finish. cbn zeta.
  match goal with |- context [if ?c then _ else _] => destruct c end; intro H.
  - bind_inv H. injection H as <-. auto.
  - injection H as <-. auto.
Qed.

Lemma plan_coupling_zero st r :
  plan_uses_obstacle a = false -> plan_coupling a st = Ret r ->
  cr_apf_ct r = repeat 0 (dims a).
Proof.
  unfold plan_uses_obstacle, plan_coupling. intros -> H.
  injection H as <-. reflexivity.
Qed.

(** What a turn appends to the trajectories. *)
Lemma plan_body_effect st :
  safe a st ->
  exists st' r,
    plan_body a st = Ret st' /\ plan_coupling a st = Ret r
    /\ turn_coupling a (cr_apf_ct r)
    /\ n_pts st' = S (n_pts st) /\ t st' = t st + total_dt a
    /\ t_vec st' = t_vec st ++ [t st + total_dt a]
    /\ forall i, (i < dims a)%nat ->
         exists xv x v,
           start_state a st i = Ret xv
           /\ integrate a (t st) (cr_apf_ct r) i xv = Ret (x, v)
           /\ nth i (x_vecs st') [] = nth i (x_vecs st) [] ++ [x]
           /\ nth i (x_dot_vecs st') [] = nth i (x_dot_vecs st) [] ++ [v / tau a].
Proof.
  intro Hsafe.
  destruct (plan_body_turn a args_ok st Hsafe) as (st' & Hrun & _).
  destruct (plan_coupling_total a args_ok st Hsafe) as (r & Hr & Hlen & _).
  exists st', r. split; [exact Hrun|]. split; [exact Hr|].
  split; [split; [exact Hlen | intro Hu; exact (plan_coupling_zero st r Hu Hr)]|].
  rewrite plan_body_parts, Hr in Hrun. cbn [bind] in Hrun.
  destruct Hsafe as (Lx & Lv & Hx & Hv & _).
  destruct (for_each_seq_inv (dim_eff a (turn_start a st r) (cr_apf_ct r))
              (plan_dimension a (cr_apf_ct r)) (dims a) 0 (turn_start a st r))
    as (st1 & Hloop & _ & Hdone & _).
  { split; [|split; [|split]].
    - unfold dim_inv, turn_start.
      cbn [t n_pts t_vec at_goal seg_end beta gamma k x_vecs x_dot_vecs].
      do 8 (split; [reflexivity|]). do 2 (split; [assumption|]).
      split; intros j Hj; cbn [Nat.ltb Nat.leb]; [apply Hx | apply Hv]; exact Hj.
    - intros j Hj. lia.
    - intros j _. auto.
    - auto. }
  { intros i s Hi Hs. apply plan_dimension_effect; [lia | exact Hlen | exact Hs]. }
  rewrite Hloop in Hrun. cbn [bind] in Hrun.
  destruct (turn_finish_frame st1 st' Hrun) as (Ex & Ev & En & Et & Etv).
  assert (Hd : forall i, (i < dims a)%nat ->
            exists xv x v,
              start_state a st i = Ret xv
              /\ integrate a (t st) (cr_apf_ct r) i xv = Ret (x, v)
              /\ nth i (x_vecs st1) [] = nth i (x_vecs st) [] ++ [x]
              /\ nth i (x_dot_vecs st1) [] = nth i (x_dot_vecs st) [] ++ [v / tau a]).
  { intros i Hi. apply (Hdone i); simpl; lia. }
  assert (Eframe : n_pts st1 = n_pts st /\ t st1 = t st /\ t_vec st1 = t_vec st).
  { destruct (for_each_seq_inv (dim_inv a (turn_start a st r))
                (plan_dimension a (cr_apf_ct r)) (dims a) 0 (turn_start a st r))
      as (st2 & Hloop2 & Ht2 & En2 & Etv2 & _).
    - unfold dim_inv, turn_start.
      cbn [t n_pts t_vec at_goal seg_end beta gamma k x_vecs x_dot_vecs].
      do 8 (split; [reflexivity|]). do 2 (split; [assumption|]).
      split; intros j Hj; cbn [Nat.ltb Nat.leb]; [apply Hx | apply Hv]; exact Hj.
    - intros i s Hi Hs. apply plan_dimension_step; [exact args_ok | lia | exact Hlen | exact Hs].
    - rewrite Hloop in Hloop2. injection Hloop2 as <-. auto. }
  destruct Eframe as (En1 & Et1 & Etv1).
  rewrite En, Et, Etv, En1, Et1, Etv1, Ex, Ev. auto.
Qed.

Lemma start_state_chain st i :
  safe a st -> (i < dims a)%nat ->
  start_state a st i
  = Ret (chain_start a (state_pos st i) (state_vel st i) i (n_pts st)).
Proof.
  intros (Lx & Lv & Hx & Hv & _) Hi. destruct args_ok as (W0 & Wd & _).
  specialize (Hx i Hi). specialize (Hv i Hi).
  unfold start_state, chain_start, state_pos, state_vel.
  destruct (n_pts st) as [|m] eqn:Hn; cbn [Nat.eqb].
  - rewrite (at_in_bounds (x_0 a) i 0), (at_in_bounds (x_dot_0 a) i 0) by lia.
    reflexivity.
  - rewrite (at_in_bounds (x_vecs st) i []),
            (at_in_bounds (x_dot_vecs st) i []) by lia. cbn [bind].
    replace (S m - 1)%nat with m by lia.
    rewrite (at_in_bounds (nth i (x_vecs st) []) m 0) by lia. cbn [bind].
    rewrite (at_in_bounds (nth i (x_dot_vecs st) []) m 0) by lia.
    reflexivity.
Qed.

Lemma reachable_chain st : reachable a st -> chain_inv a st.
Proof.
  induction 1 as [|st st' Hr (Ht & Hpts) _ Hbody].
  - split; [reflexivity|]. intros j Hj. simpl in Hj. lia.
  - pose proof (reachable_safe a args_ok st Hr) as Hsafe.
    destruct (reachable_time a args_ok st Hr) as (Lt & _).
    destruct (plan_body_effect st Hsafe)
      as (st2 & r & Hrun & Hr' & Hc & En & Et & Etv & Heff).
    rewrite Hrun in Hbody. injection Hbody as <-.
    pose proof Hsafe as (Lx & Lv & Hx & Hv & _).
    assert (Hpos : forall i m, (i < dims a)%nat -> (m < n_pts st)%nat ->
              state_pos st2 i m = state_pos st i m
              /\ state_vel st2 i m = state_vel st i m).
    { intros i m Hi Hm. destruct (Heff i Hi) as (xv & x & v & _ & _ & Ex & Ev).
      unfold state_pos, state_vel. rewrite Ex, Ev.
      rewrite !app_nth1 by (rewrite ?Hx, ?Hv; lia). auto. }
    assert (Htime : forall m, (m <= n_pts st)%nat ->
              chain_time (t_vec st2) m = chain_time (t_vec st) m).
    { intros [|m] Hm; [reflexivity|]. cbn [chain_time].
      rewrite Etv, app_nth1 by lia. reflexivity. }
    assert (Hstart : forall i m, (i < dims a)%nat -> (m <= n_pts st)%nat ->
              chain_start a (state_pos st2 i) (state_vel st2 i) i m
              = chain_start a (state_pos st i) (state_vel st i) i m).
    { intros i [|m] Hi Hm; [reflexivity|]. cbn [chain_start].
      destruct (Hpos i m Hi) as (-> & ->); [lia|]. reflexivity. }
    split.
    + rewrite En, Etv. cbn [chain_time]. rewrite app_nth2 by lia.
      rewrite Lt, Nat.sub_diag. exact Et.
    + intros j Hj. rewrite En in Hj.
      destruct (Nat.eq_dec j (n_pts st)) as [->|Hne].
      * exists (cr_apf_ct r). split; [exact Hc|]. intros i Hi.
        destruct (Heff i Hi) as (xv & x & v & Hss & Hint & Ex & Ev).
        exists x, v. rewrite Htime, Hstart by lia. rewrite <- Ht.
        rewrite (start_state_chain st i Hsafe Hi) in Hss.
        injection Hss as <-.
        split; [exact Hint|]. unfold state_pos, state_vel. rewrite Ex, Ev.
        rewrite !app_nth2 by (rewrite ?Hx, ?Hv; lia).
        rewrite Hx, Hv by exact Hi. rewrite Nat.sub_diag. auto.
      * destruct (Hpts j) as (c & Hc' & Hdims); [lia|].
        exists c. split; [exact Hc'|]. intros i Hi.
        destruct (Hdims i Hi) as (x & v & Hint & Ex & Ev).
        exists x, v. rewrite Htime, Hstart by lia.
        destruct (Hpos i j Hi) as (-> & ->); [lia|]. auto.
Qed.

Lemma integrate_no_substeps tm apf_ct i xv :
  (integrate_iter a <= 0)%Z -> integrate a tm apf_ct i xv = Ret xv.
Proof.
  intro H. unfold integrate.
  replace (Z.to_nat (integrate_iter a)) with 0%nat by lia. reflexivity.
Qed.

Hypothesis dt_positive : 0 < total_dt a.

(** X16.  Every point of the plan is what the integration loop makes of the
    point before it (of [x_0] and [x_dot_0] for the first point), the
    stored velocity being multiplied by [tau] on the way in and divided by
    it on the way out; the loop time is the time stamp of the point before,
    and one coupling vector serves all dimensions of a point. *)
Theorem plan_integration_chain fuel :
  (plan_fuel a <= fuel)%nat ->
  exists plan ag,
    generatePlan a fuel = Ret (plan, ag)
    /\ forall j, (j < length (points plan))%nat ->
         chain_point a (fun i m => plan_position (points plan) m i)
           (fun i m => plan_velocity (points plan) m i) (times plan) j.
Proof.
  intro Hfuel.
  destruct (generatePlan_result a args_ok dt_positive fuel Hfuel)
    as (st & plan & Hrun & Hr & _ & _ & Lp & Tp & _ & Hfill).
  exists plan, (at_goal st). split; [exact Hrun|].
  intros j Hj. rewrite Lp in Hj.
  destruct (reachable_chain st Hr) as (_ & Hpts).
  destruct (Hpts j Hj) as (c & Hc & Hdims). exists c. split; [exact Hc|].
  intros i Hi. destruct (Hdims i Hi) as (x & v & Hint & Ex & Ev).
  exists x, v. rewrite Tp. destruct (Hfill i j Hi Hj) as (-> & ->).
  split; [|split; assumption].
  replace (chain_start a (fun m => plan_position (points plan) m i)
             (fun m => plan_velocity (points plan) m i) i j)
    with (chain_start a (state_pos st i) (state_vel st i) i j);
    [exact Hint|].
  destruct j as [|m]; [reflexivity|]. cbn [chain_start].
  destruct (Hfill i m Hi) as (-> & ->); [lia|]. reflexivity.
Qed.

(** X17.  With [integrate_iter <= 0] the integration loop is not entered: every
    point of the plan repeats [x_0] as its positions and [x_dot_0 / tau] as
    its velocities. *)
Theorem plan_without_substeps fuel :
  (integrate_iter a <= 0)%Z -> ~ tau a == 0 -> (plan_fuel a <= fuel)%nat ->
  exists plan ag,
    generatePlan a fuel = Ret (plan, ag)
    /\ forall i j, (i < dims a)%nat -> (j < length (points plan))%nat ->
         plan_position (points plan) j i = nth i (x_0 a) 0
         /\ plan_velocity (points plan) j i == nth i (x_dot_0 a) 0 / tau a.
Proof.
  intros Hiter Htau Hfuel.
  destruct (generatePlan_result a args_ok dt_positive fuel Hfuel)
    as (st & plan & Hrun & Hr & _ & _ & Lp & _ & _ & Hfill).
  exists plan, (at_goal st). split; [exact Hrun|].
  intros i j Hi Hj. rewrite Lp in Hj.
  destruct (Hfill i j Hi Hj) as (-> & ->).
  destruct (reachable_chain st Hr) as (_ & Hpts).
  fold (state_pos st i j) (state_vel st i j).
  induction j as [|m IH].
  - destruct (Hpts 0%nat Hj) as (c & _ & Hdims).
    destruct (Hdims i Hi) as (x & v & Hint & -> & ->).
    rewrite (integrate_no_substeps _ _ _ _ Hiter) in Hint.
    cbn [chain_start] in Hint. injection Hint as <- <-.
    split; reflexivity.
  - destruct IH as (IHx & IHv); [lia|].
    destruct (Hpts (S m) Hj) as (c & _ & Hdims).
    destruct (Hdims i Hi) as (x & v & Hint & -> & ->).
    rewrite (integrate_no_substeps _ _ _ _ Hiter) in Hint.
    cbn [chain_start] in Hint. injection Hint as <- <-.
    split; [exact IHx|]. rewrite <- IHv. field. exact Htau.
Qed.

End PlanChain.

(** ** generatePlan: sub-steps, time stamps and the end of the loop

    The statements of this section compare and add the numbers the code
    compares and adds: a time stamp is the running sum it was stored as,
    never a multiple of [total_dt], and [>], [>=] and [<] are the tests of
    the source. *)

Lemma chain_time_app ts x m :
  (m <= length ts)%nat -> chain_time (ts ++ [x]) m = chain_time ts m.
Proof.
  destruct m as [|m]; intro H; [reflexivity|].
  cbn [chain_time]. rewrite app_nth1 by lia. reflexivity.
Qed.

Lemma first_three_firstn v :
  (3 <= length v)%nat -> first_three v = Ret (firstn 3 v).
Proof.
  destruct v as [|a0 [|a1 [|a2 v]]]; simpl; intro H; try lia. reflexivity.
Qed.

Lemma last_three_nth vecs n :
  (3 <= length vecs)%nat ->
  (forall i, (i < 3)%nat -> (n - 1 < length (nth i vecs []))%nat) ->
  last_three vecs n
  = Ret (map (fun i => nth (n - 1) (nth i vecs []) 0) [0; 1; 2]%nat).
Proof.
  intros Hl Hn. unfold last_three.
  rewrite (at_in_bounds vecs 0 []) by lia. cbn [bind].
  rewrite (at_in_bounds (nth 0 vecs []) (n - 1) 0) by (apply Hn; lia).
  cbn [bind].
  rewrite (at_in_bounds vecs 1 []) by lia. cbn [bind].
  rewrite (at_in_bounds (nth 1 vecs []) (n - 1) 0) by (apply Hn; lia).
  cbn [bind].
  rewrite (at_in_bounds vecs 2 []) by lia. cbn [bind].
  rewrite (at_in_bounds (nth 2 vecs []) (n - 1) 0) by (apply Hn; lia).
  reflexivity.
Qed.

Section PlanStamps.

Context {E : Extern}.

Variable a : PlanArgs.

Hypothesis args_ok : plan_wf a.




(** Every time stamp is the loop time of its turn plus [total_dt]. *)
Lemma reachable_stamps st :
  reachable a st ->
  forall j, (j < n_pts st)%nat ->
    nth j (t_vec st) 0 = chain_time (t_vec st) j + total_dt a.
Proof.
  induction 1 as [|st st' Hr IH Hcond Hbody]; [intros j Hj; simpl in Hj; lia|].
  destruct (reachable_turn a args_ok st st' Hr Hbody) as (_ & En & Etv & _).
  destruct (reachable_time a args_ok st Hr) as (Lt & _).
  destruct (reachable_chain a args_ok st Hr) as (Et & _).
  intros j Hj. rewrite En in Hj. rewrite Etv, chain_time_app by lia.
  destruct (Nat.eq_dec j (n_pts st)) as [->|Hne].
  - rewrite app_nth2 by lia. rewrite Lt, Nat.sub_diag, <- Et. reflexivity.
  - rewrite app_nth1 by lia. apply IH. lia.
Qed.

Lemma reachable_seg_stamps st :
  Qgtb (seg_length a) 0 = true -> reachable a st -> seg_stamps a st.
Proof.
  intro Hseg. induction 1 as [|st st' Hr IH _ Hbody];
    [intros _ j Hj; simpl in Hj; lia|].
  destruct (reachable_turn a args_ok st st' Hr Hbody)
    as (_ & En & Etv & Es & _).
  destruct (reachable_time a args_ok st Hr) as (Lt & _).
  destruct (reachable_chain a args_ok st Hr) as (Et & _).
  unfold seg_stamps. rewrite Es, En, Etv. unfold check_segment. rewrite Hseg.
  destruct (Qgtb (t st) (seg_length a)) eqn:Hgt; [discriminate|].
  intros Hse j Hj. rewrite chain_time_app by lia.
  destruct (Nat.eq_dec j (n_pts st)) as [->|Hne].
  - rewrite <- Et. exact Hgt.
  - apply IH; [exact Hse | lia].
Qed.

(** The loop time on exit is the last time stamp. *)
Lemma final_time st plan :
  reachable a st -> (1 <= n_pts st)%nat -> times plan = t_vec st ->
  t st = last_time plan.
Proof.
  intros Hr Hn Tp.
  destruct (reachable_time a args_ok st Hr) as (Lt & _).
  destruct (reachable_chain a args_ok st Hr) as (Et & _).
  unfold last_time. rewrite Tp, Lt, Et.
  destruct (n_pts st) as [|m]; [lia|].
  cbn [chain_time]. replace (S m - 1)%nat with m by lia. reflexivity.
Qed.

Hypothesis dt_positive : 0 < total_dt a.



(** C8 (as amended).  With [total_dt > 0] the plan has a time stamp per
    point, and the stamps are the running sum of [total_dt]: the first is
    [0 + total_dt] and each later one is the stamp before plus [total_dt];
    a stamp is larger than the one before whenever adding [total_dt] to
    that one gives a larger number. *)
Theorem plan_times_running_sum fuel :
  (plan_fuel a <= fuel)%nat ->
  exists plan ag,
    generatePlan a fuel = Ret (plan, ag)
    /\ length (times plan) = length (points plan)
    /\ (forall j, (j < length (times plan))%nat ->
          nth j (times plan) 0 = chain_time (times plan) j + total_dt a)
    /\ (forall j, (S j < length (times plan))%nat ->
          nth j (times plan) 0 < nth j (times plan) 0 + total_dt a ->
          nth j (times plan) 0 < nth (S j) (times plan) 0).
Proof.
  intro Hfuel.
  destruct (generatePlan_result a args_ok dt_positive fuel Hfuel)
    as (st & plan & Hrun & Hr & _ & _ & Lp & Tp & _).
  exists plan, (at_goal st). split; [exact Hrun|].
  destruct (reachable_time a args_ok st Hr) as (Lt & _).
  rewrite Tp, Lp, Lt. split; [reflexivity|].
  pose proof (reachable_stamps st Hr) as Hs. split; [exact Hs|].
  intros j Hj Hlt. rewrite (Hs (S j) Hj). exact Hlt.
Qed.

(** X11.  The flag returned with the plan is set exactly when the last time
    stamp plus [t_0] is [>= tau] and no dimension with a threshold [> 0]
    has [fabs(x - goal) > goal_thresh] at the last point. *)
Theorem plan_at_goal_last_point fuel :
  (plan_fuel a <= fuel)%nat ->
  exists plan ag,
    generatePlan a fuel = Ret (plan, ag)
    /\ (ag = true
        <-> Qgeb (last_time plan + t_0 a) (tau a) = true
            /\ forall i, (i < dims a)%nat ->
                 Qgtb (nth i (goal_thresh a) 0) 0 = true ->
                 Qgtb (Qabs (plan_position (points plan)
                               (length (points plan) - 1) i
                             - nth i (goal a) 0))
                      (nth i (goal_thresh a) 0) = false).
Proof.
  intro Hfuel.
  destruct (generatePlan_result a args_ok dt_positive fuel Hfuel)
    as (st & plan & Hrun & Hr & Hcond & Hn & Lp & Tp & _ & Hfill).
  exists plan, (at_goal st). split; [exact Hrun|].
  rewrite (final_at_goal a args_ok st Hr Hcond), Lp.
  rewrite <- (final_time st plan Hr Hn Tp).
  assert (Hx : forall i, (i < dims a)%nat ->
             plan_position (points plan) (n_pts st - 1) i = last_x st i).
  { intros i Hi. unfold last_x. apply Hfill; [exact Hi | lia]. }
  rewrite Qgeb_ge.
  split; intros (Ht & Hg); (split; [exact Ht|]); intros i Hi Hthr.
  - rewrite (Hx i Hi). apply Qgtb_le. apply Hg; [exact Hi|].
    apply Qltb_lt. exact Hthr.
  - rewrite <- (Hx i Hi). apply Qgtb_le. apply Hg; [exact Hi|].
    apply Qltb_lt. exact Hthr.
Qed.

(** X12.  When [seg_length > 0] is false, the loop goes on until
    [(t + t_0) < tau] is false for the last time stamp [t], and a plan
    returned with [at_goal] clear has [t < MAX_PLAN_LENGTH] false too. *)
Theorem plan_without_segment fuel :
  Qgtb (seg_length a) 0 = false -> (plan_fuel a <= fuel)%nat ->
  exists plan ag,
    generatePlan a fuel = Ret (plan, ag)
    /\ Qltb (last_time plan + t_0 a) (tau a) = false
    /\ (ag = false -> Qltb (last_time plan) MAX_PLAN_LENGTH = false).
Proof.
  intros Hseg Hfuel. apply Qgtb_le in Hseg.
  destruct (generatePlan_result a args_ok dt_positive fuel Hfuel)
    as (st & plan & Hrun & Hr & Hcond & Hn & Lp & Tp & _).
  exists plan, (at_goal st). split; [exact Hrun|].
  rewrite <- (final_time st plan Hr Hn Tp).
  destruct (final_without_segment a args_ok st Hseg Hr Hcond) as (Htau & Hmax).
  split; [apply Qltb_ge; exact Htau|].
  intro Hag. apply Qltb_ge. exact (Hmax Hag).
Qed.

(** X13.  With [seg_length > 0] the loop stops after the first turn that
    starts at a loop time [> seg_length]: of the time stamps of the plan,
    all but the last two are not [> seg_length]. *)
Theorem plan_segment_length fuel :
  Qgtb (seg_length a) 0 = true -> (plan_fuel a <= fuel)%nat ->
  exists plan ag,
    generatePlan a fuel = Ret (plan, ag)
    /\ forall j, (j + 2 < length (times plan))%nat ->
         Qgtb (nth j (times plan) 0) (seg_length a) = false.
Proof.
  intros Hseg Hfuel.
  destruct (generatePlan_result a args_ok dt_positive fuel Hfuel)
    as (st & plan & Hrun & Hr & Hcond & Hn & Lp & Tp & _).
  exists plan, (at_goal st). split; [exact Hrun|]. rewrite Tp.
  destruct (reachable_time a args_ok st Hr) as (Lt & _). rewrite Lt.
  destruct Hr as [|prev st Hprev Hpc Hbody]; [intros j Hj; simpl in Hj; lia|].
  destruct (reachable_turn a args_ok prev st Hprev Hbody)
    as (_ & En & Etv & _).
  destruct (reachable_time a args_ok prev Hprev) as (Ltp & _).
  assert (Hse : seg_end prev = false).
  { unfold plan_cond in Hpc. apply andb_true_iff in Hpc.
    destruct Hpc as (_ & Hpc). apply negb_true_iff in Hpc. exact Hpc. }
  intros j Hj. rewrite En in Hj. rewrite Etv, app_nth1 by lia.
  exact (reachable_seg_stamps prev Hseg Hprev Hse (S j) ltac:(lia)).
Qed.

(** X14.  With six dimensions and an obstacle the coupling of a turn is the
    three entries that [artificialPotentialFieldCoupling] pushes for the
    first three dimensions of the last point, followed by three zeros; the
    coefficient vectors are those the call leaves. *)
Theorem plan_coupling_six_dimensions st :
  reachable a st -> dims a = 6%nat -> obstacle a <> [] ->
  exists r r0,
    plan_coupling a st = Ret r
    /\ artificialPotentialFieldCoupling [] (avoid_position a st)
         (avoid_velocity a st) (obstacle a) (beta st) (gamma st) (k st)
         (arg_m a) (arg_n a) = Ret r0
    /\ length (cr_apf_ct r0) = 3%nat
    /\ cr_apf_ct r = cr_apf_ct r0 ++ [0; 0; 0]
    /\ cr_beta r = cr_beta r0 /\ cr_gamma r = cr_gamma r0
    /\ cr_k r = cr_k r0.
Proof.
  intros Hr H6 Hne.
  destruct (reachable_safe a args_ok st Hr) as (Lx & Lv & Hx & Hv & Hco).
  destruct args_ok as (W0 & Wd & _ & _ & Wo).
  destruct (Wo Hne (or_intror H6)) as (Ho3 & _).
  destruct (Hco (conj Hne (or_intror H6))) as (Hb & Hg & Hk).
  assert (Lxa : length (avoid_position a st) = 3%nat).
  { unfold avoid_position. destruct (n_pts st =? 0)%nat; [|reflexivity].
    rewrite length_firstn. lia. }
  assert (Lva : length (avoid_velocity a st) = 3%nat).
  { unfold avoid_velocity. destruct (n_pts st =? 0)%nat; [|reflexivity].
    rewrite length_firstn. lia. }
  destruct (coupling_defined [] (avoid_position a st) (avoid_velocity a st)
              (obstacle a) (beta st) (gamma st) (k st) (arg_m a) (arg_n a))
    as (r0 & c0 & c1 & c2 & Hr0 & Hct & _); try assumption; try lia.
  exists {| cr_apf_ct := resize (cr_apf_ct r0) 6 0; cr_beta := cr_beta r0;
            cr_gamma := cr_gamma r0; cr_k := cr_k r0 |}, r0.
  split; [|split; [exact Hr0|]].
  - unfold plan_coupling. rewrite H6.
    assert (Hlen : (0 <? length (obstacle a))%nat = true).
    { apply Nat.ltb_lt. destruct (obstacle a); [congruence|simpl; lia]. }
    rewrite Hlen. cbn [Nat.eqb andb orb].
    assert (Hxa : (if (n_pts st =? 0)%nat then first_three (x_0 a)
                   else last_three (x_vecs st) (n_pts st))
                  = Ret (avoid_position a st)).
    { unfold avoid_position. destruct (n_pts st =? 0)%nat eqn:Hn.
      - apply first_three_firstn. lia.
      - apply Nat.eqb_neq in Hn. apply last_three_nth; [lia|].
        intros i Hi. rewrite Hx by lia. lia. }
    assert (Hva : (if (n_pts st =? 0)%nat then first_three (x_dot_0 a)
                   else l <- last_three (x_dot_vecs st) (n_pts st) ;;
                        Ret (map (fun q => q * tau a) l))
                  = Ret (avoid_velocity a st)).
    { unfold avoid_velocity. destruct (n_pts st =? 0)%nat eqn:Hn.
      - apply first_three_firstn. lia.
      - apply Nat.eqb_neq in Hn. rewrite last_three_nth; [reflexivity|lia|].
        intros i Hi. rewrite Hv by lia. lia. }
    rewrite Hxa, Hva. cbn [bind]. rewrite Hr0. reflexivity.
  - cbn [cr_apf_ct cr_beta cr_gamma cr_k]. rewrite Hct.
    repeat split; reflexivity.
Qed.

End PlanStamps.

(** ** generatePlan: start vectors shorter than the primitive set *)

Lemma benign_bind {A B} (m : outcome A) (f : A -> outcome B) :
  benign m -> (forall x, benign (f x)) -> benign (bind m f).
Proof. intros [->|(x & ->)] Hf; [left; reflexivity | apply Hf]. Qed.

Lemma at_benign {A} (v : list A) i : benign (at_ v i).
Proof. unfold at_. destruct (nth_error v i); [right; eexists; reflexivity | left; reflexivity]. Qed.

Lemma set_at_benign {A} (v : list A) : forall i x, benign (set_at v i x).
Proof.
  induction v as [|hd tl IH]; intros i x; [left; reflexivity|].
  destruct i as [|i]; cbn [set_at]; [right; eexists; reflexivity|].
  apply benign_bind; [apply IH | intro; right; eexists; reflexivity].
Qed.

Lemma for_each_benign {S} (body : nat -> S -> outcome S) l :
  (forall i s, benign (body i s)) -> forall s, benign (for_each l body s).
Proof.
  intro Hb. induction l as [|i l IH]; intro s; [right; eexists; reflexivity|].
  cbn [for_each]. apply benign_bind; [apply Hb | exact IH].
Qed.

(** A loop whose turns return or read out of range, and one of whose turns
    reads out of range whatever state it finds, reads out of range. *)
Lemma for_each_fails {S} (P : S -> Prop) (body : nat -> S -> outcome S) i :
  (forall j s, P s -> benign (body j s) /\ forall s', body j s = Ret s' -> P s') ->
  (forall s, P s -> body i s = OutOfBounds) ->
  forall l s, In i l -> P s -> for_each l body s = OutOfBounds.
Proof.
  intros Hb Hfail. induction l as [|j l IH]; intros s Hin Hs; [destruct Hin|].
  cbn [for_each]. destruct Hin as [->|Hin].
  - rewrite (Hfail s Hs). reflexivity.
  - destruct (Hb j s Hs) as ([->|(s' & Hrun)] & Hp); [reflexivity|].
    rewrite Hrun. cbn [bind]. apply IH; [exact Hin | apply Hp; exact Hrun].
Qed.

Section PlanShortStart.

Context {E : Extern}.

Variable a : PlanArgs.

Lemma substep_benign tm apf_ct i iter xv : benign (substep a tm apf_ct i iter xv).
Proof.
  unfold substep. destruct xv as [x v].
  repeat (apply benign_bind; [apply at_benign | intro]). right. eexists. reflexivity.
Qed.

Lemma start_state_benign st i : benign (start_state a st i).
Proof.
  unfold start_state. destruct (n_pts st =? 0)%nat;
    repeat (apply benign_bind; [apply at_benign | intro]); right; eexists; reflexivity.
Qed.

Lemma plan_dimension_benign apf_ct i st :
  benign (plan_dimension a apf_ct i st)
  /\ forall st', plan_dimension a apf_ct i st = Ret st' -> n_pts st' = n_pts st.
Proof.
  unfold plan_dimension. split.
  - apply benign_bind; [apply start_state_benign | intro xv].
    apply benign_bind;
      [apply for_each_benign; intros; apply substep_benign | intros [x v]].
    apply benign_bind; [apply at_benign | intro].
    apply benign_bind; [apply set_at_benign | intro].
    apply benign_bind; [apply at_benign | intro].
    apply benign_bind; [apply set_at_benign | intro]. right. eexists. reflexivity.
  - intros st' H.
    destruct (start_state a st i) as [xv| | |]; try discriminate.
    cbn [bind] in H.
    destruct (integrate a (t st) apf_ct i xv) as [[x v]| | |]; try discriminate.
    cbn [bind] in H.
    destruct (at_ (x_vecs st) i) as [xs| | |]; try discriminate.
    cbn [bind] in H.
    destruct (set_at (x_vecs st) i (xs ++ [x])) as [xs'| | |]; try discriminate.
    cbn [bind] in H.
    destruct (at_ (x_dot_vecs st) i) as [vs| | |]; try discriminate.
    cbn [bind] in H.
    destruct (set_at (x_dot_vecs st) i (vs ++ [v / tau a])) as [vs'| | |];
      try discriminate.
    cbn [bind] in H. injection H as <-. reflexivity.
Qed.

(** X18.  The planning loop reads [x_0[i]] and [x_dot_0[i]] for every dimension
    of the primitive set without looking at their sizes: when one of them
    is shorter than the set and the obstacle is not used, the first turn
    reads past its end. *)
Theorem generatePlan_short_start fuel :
  (length (x_0 a) < dims a)%nat \/ (length (x_dot_0 a) < dims a)%nat ->
  plan_uses_obstacle a = false ->
  generatePlan a (S fuel) = OutOfBounds.
Proof.
  intros Hshort Hu. unfold generatePlan. cbn [plan_loop].
  rewrite (plan_init_cond a), plan_body_parts.
  assert (Hc : plan_coupling a (plan_init a)
               = Ret {| cr_apf_ct := repeat 0 (dims a);
                        cr_beta := arg_beta a; cr_gamma := arg_gamma a;
                        cr_k := arg_k a |}).
  { unfold plan_coupling. fold (plan_uses_obstacle a). rewrite Hu.
    reflexivity. }
  rewrite Hc. cbn [bind cr_apf_ct].
  set (i := Nat.min (length (x_0 a)) (length (x_dot_0 a))).
  rewrite (for_each_fails (fun st => n_pts st = 0%nat)
             (plan_dimension a (repeat 0 (dims a))) i).
  - reflexivity.
  - intros j s Hs. destruct (plan_dimension_benign (repeat 0 (dims a)) j s)
      as (Hb & Hn). split; [exact Hb|]. intros s' Hrun.
    rewrite (Hn s' Hrun). exact Hs.
  - intros s Hs. unfold plan_dimension, start_state. rewrite Hs.
    cbn [Nat.eqb]. unfold at_ at 1.
    destruct (nth_error (x_0 a) i) as [x|] eqn:Hx; [|reflexivity].
    cbn [bind]. unfold at_ at 1.
    destruct (nth_error (x_dot_0 a) i) as [v|] eqn:Hv; [|reflexivity].
    exfalso.
    assert (Hxi : (i < length (x_0 a))%nat)
      by (apply nth_error_Some; congruence).
    assert (Hvi : (i < length (x_dot_0 a))%nat)
      by (apply nth_error_Some; congruence).
    unfold i in *. lia.
  - apply in_seq. unfold i. lia.
  - reflexivity.
Qed.

End PlanShortStart.

(** ** planCallback: the obstacle of a request *)

Section PlanCallbackObstacle.

Context {E : Extern}.

Variable active_dmp_list : list DMPData.

(** X20.  A request whose obstacle list has more than three scalars, and not a
    multiple of three of them, makes [planCallback] read past the end of
    the list; [generatePlan] is not reached. *)
Theorem planCallback_ragged_obstacle req fuel n r :
  length (req_obstacle req) = (3 * n + r)%nat -> (0 < n)%nat ->
  (0 < r < 3)%nat ->
  planCallback active_dmp_list req fuel = OutOfBounds.
Proof.
  intros H Hn Hr. unfold planCallback.
  rewrite (planCallback_obstacle_ragged _ n r H Hn Hr). reflexivity.
Qed.

(** X21.  An obstacle list of [3 n] scalars reaches [generatePlan] as [n]
    vertices of three coordinates, in the order of the list; the other
    fields of the request are passed on as they are, and the answer is the
    plan and flag that [generatePlan] returns. *)
Theorem planCallback_obstacle_in_threes req fuel n :
  length (req_obstacle req) = (3 * n)%nat -> (0 < n)%nat ->
  exists rows,
    length rows = n /\ concat rows = req_obstacle req
    /\ Forall (fun r => length r = 3%nat) rows
    /\ planCallback active_dmp_list req fuel
       = outcome_map plan_response
           (generatePlan (planCallback_args active_dmp_list req rows) fuel).
Proof.
  intros H Hn.
  assert (Ho : exists rows,
             planCallback_obstacle (req_obstacle req) = Ret rows
             /\ length rows = n /\ concat rows = req_obstacle req
             /\ Forall (fun r => length r = 3%nat) rows).
  { destruct (Nat.eq_dec n 1) as [->|Hne].
    - exists [req_obstacle req].
      rewrite (planCallback_obstacle_point _ H). cbn [concat length].
      rewrite app_nil_r. repeat split. constructor; [exact H | constructor].
    - apply planCallback_obstacle_vertices; [exact H | lia]. }
  destruct Ho as (rows & Ho & Ln & Hc & Hf). exists rows.
  split; [exact Ln|]. split; [exact Hc|]. split; [exact Hf|].
  unfold planCallback, outcome_map. rewrite Ho. cbn [bind].
  destruct (generatePlan (planCallback_args active_dmp_list req rows) fuel)
    as [[plan ag]| | |]; reflexivity.
Qed.

(** X22.  An obstacle list of one or two scalars is dropped: the plan is made
    without obstacle. *)
Theorem planCallback_obstacle_dropped req fuel :
  (length (req_obstacle req) < 3)%nat ->
  planCallback active_dmp_list req fuel
  = outcome_map plan_response
      (generatePlan (planCallback_args active_dmp_list req []) fuel).
Proof.
  intro H. unfold planCallback, outcome_map.
  rewrite (planCallback_obstacle_short _ H). cbn [bind].
  destruct (generatePlan (planCallback_args active_dmp_list req []) fuel)
    as [[plan ag]| | |]; reflexivity.
Qed.

End PlanCallbackObstacle.

(** ** Obstacle coupling: the output vector *)

Section CouplingOutput.

Context {E : Extern}.

(** X23.  The coupling does not clear its output vector: it keeps what
    [apf_ct] held and pushes three entries behind it, for a point obstacle
    and for a vertex list alike. *)
Theorem coupling_appends_three apf_ct x v o beta gamma k m n :
  (3 <= length x)%nat -> (3 <= length v)%nat ->
  beta <> [] -> gamma <> [] -> k <> [] -> obstacle_3d o ->
  exists r c0 c1 c2,
    artificialPotentialFieldCoupling apf_ct x v o beta gamma k m n = Ret r
    /\ cr_apf_ct r = apf_ct ++ [c0; c1; c2]
    /\ length (cr_apf_ct r) = (length apf_ct + 3)%nat.
Proof.
  intros Hx Hv Hb Hg Hk Ho.
  destruct (coupling_defined apf_ct x v o beta gamma k m n Hx Hv Hb Hg Hk Ho)
    as (r & c0 & c1 & c2 & Hr & Hct & _).
  exists r, c0, c1, c2. split; [exact Hr|]. split; [exact Hct|].
  rewrite Hct, length_app. reflexivity.
Qed.

End CouplingOutput.

(** * Rounding, infinities and NaN

    What the code does on doubles, evaluated on the binary64 model. *)

(** C3.  A plan that diverges ends at the goal: with gains 100 and 20 and
    a step as long as [tau], the position overflows and becomes a NaN
    after 322 turns; [fabs(x - goal) > goal_thresh] is false for a NaN, so
    [at_goal] stays set and the loop ends, although [x] is not within the
    threshold of the goal. *)
Theorem generatePlan_at_goal_with_nan :
  exists plan x g thr,
    Binary64.generatePlan (E := Binary64.stand_in) Binary64.plan_diverging 400
      = Ret (plan, true)
    /\ length (Binary64.points plan) = 322%nat
    /\ Binary64.positions
         (nth 321 (Binary64.points plan)
            {| Binary64.positions := []; Binary64.velocities := [] |}) = [x]
    /\ Binary64.goal Binary64.plan_diverging = [g]
    /\ Binary64.goal_thresh Binary64.plan_diverging = [thr]
    /\ Binary64.gtb thr 0 = true
    /\ PrimFloat.is_nan x = true
    /\ Binary64.gtb (PrimFloat.abs (x - g)) thr = false
    /\ PrimFloat.leb (PrimFloat.abs (x - g)) thr = false.
Proof.
  do 4 eexists. split; [vm_compute; reflexivity|].
  do 4 (split; [reflexivity|]).
  repeat split; vm_compute; reflexivity.
Qed.

(** C6.  With [gamma = 0] the coupling of a velocity that points at the
    obstacle is not zero: for [x = 0] and [v = o = (1000, 1000, 1000)] the
    argument of [acos] is rounded to a number above 1, [acos] of it is a
    NaN, and zero times NaN is a NaN. *)
Theorem coupling_zero_gamma_nan :
  PrimFloat.ltb 1
    (Binary64.steering_cosine (Binary64.V3 1000 1000 1000)
       (Binary64.V3 1000 1000 1000)) = true
  /\ exists r,
       Binary64.artificialPotentialFieldCoupling (E := Binary64.stand_in)
         [] [0; 0; 0]%float [1000; 1000; 1000]%float
         [[1000; 1000; 1000]%float] [1]%float [0]%float [1]%float 1 1 = Ret r
       /\ Binary64.cr_gamma r = [0]%float
       /\ map PrimFloat.is_nan (Binary64.cr_apf_ct r) = [true; true; true].
Proof.
  split; [vm_compute; reflexivity|].
  eexists. split; [vm_compute; reflexivity|].
  split; reflexivity.
Qed.

(** The time stamps of a plan in steps of a tenth: the sixth is neither
    the double [6 * 0.1] nor six times the value of [0.1] as a double, and
    the steps between neighbours differ. *)
Lemma plan_times_rounded :
  exists plan ag qd q0 q1 q4 q5,
    Binary64.generatePlan (E := Binary64.stand_in) Binary64.plan_tenth 100
      = Ret (plan, ag)
    /\ length (Binary64.times plan) = length (Binary64.points plan)
    /\ Binary64.to_Q (Binary64.total_dt Binary64.plan_tenth) = Some qd
    /\ 0 < qd
    /\ Binary64.to_Q (nth 0 (Binary64.times plan) 0%float) = Some q0
    /\ Binary64.to_Q (nth 1 (Binary64.times plan) 0%float) = Some q1
    /\ Binary64.to_Q (nth 4 (Binary64.times plan) 0%float) = Some q4
    /\ Binary64.to_Q (nth 5 (Binary64.times plan) 0%float) = Some q5
    /\ ~ q5 == 6 * qd
    /\ ~ q1 - q0 == q5 - q4
    /\ PrimFloat.eqb (nth 5 (Binary64.times plan) 0%float)
         (6 * Binary64.total_dt Binary64.plan_tenth)%float = false.
Proof.
  do 7 eexists. split; [vm_compute; reflexivity|].
  split; [reflexivity|].
  do 6 (split; [vm_compute; reflexivity|]).
  split; [vm_compute; discriminate|].
  split; [vm_compute; discriminate|].
  vm_compute. reflexivity.
Qed.

(** ** The further properties on the sample inputs *)

Lemma bounding_box_extents_witness :
  exists dim,
    calculate_bounding_box_dimensions (E := rational_extern)
      [[0; 0; 0]; [1; 2; 3]] = Ret ([], dim)
    /\ forall c, (c < 3)%nat ->
         (forall p q, In p [[0; 0; 0]; [1; 2; 3]] ->
            In q [[0; 0; 0]; [1; 2; 3]] ->
            coord c p - coord c q <= coord c (vec3_to_list dim))
         /\ (exists p q, In p [[0; 0; 0]; [1; 2; 3]]
               /\ In q [[0; 0; 0]; [1; 2; 3]]
               /\ coord c (vec3_to_list dim) = coord c p - coord c q).
Proof.
  apply (bounding_box_extents (E := rational_extern)).
  - discriminate.
  - repeat constructor.
Defined.

Lemma verticesVectorToEigen_rows_witness :
  exists rows,
    verticesVectorToEigen [[1; 2; 3]; [4; 5; 6]] = Ret rows
    /\ map vec3_to_list rows = [[1; 2; 3]; [4; 5; 6]].
Proof.
  apply verticesVectorToEigen_rows. repeat constructor.
Defined.

Lemma verticesVectorToEigen_short_vertex_witness :
  verticesVectorToEigen ([[1; 2; 3]] ++ [4; 5] :: [[6; 7; 8]]) = OutOfBounds.
Proof.
  apply verticesVectorToEigen_short_vertex.
  - repeat constructor.
  - simpl; lia.
Defined.

Lemma nearestObjectPoint_nearest_witness :
  exists index p,
    nearestObjectPoint (E := rational_extern) [V3 2 0 0; V3 1 0 0] (V3 0 0 0)
      = Ret p
    /\ nth_error [V3 2 0 0; V3 1 0 0] index = Some p
    /\ (forall r, In r [V3 2 0 0; V3 1 0 0] ->
          norm (E := rational_extern) (vsub p (V3 0 0 0))
            <= norm (E := rational_extern) (vsub r (V3 0 0 0))).
Proof.
  apply (nearestObjectPoint_nearest (E := rational_extern)). discriminate.
Defined.

Ltac demo_wf_by_evaluation :=
  unfold demo_wf, demo_dims; simpl; repeat split; try lia; repeat constructor.

Lemma learnFromDemo_ignores_heap_witness :
  learnFromDemo (E := rational_extern) (zero_buffers 3) demo_line [25] [10] 4 []
  = learnFromDemo (E := rational_extern) (one_buffers 3) demo_line [25] [10] 4 [].
Proof.
  apply (learnFromDemo_ignores_heap (E := rational_extern)).
  - discriminate.
  - demo_wf_by_evaluation.
  - repeat split.
  - repeat split.
Defined.

Lemma learnFromDemo_gains_and_domain_witness :
  exists prims,
    learnFromDemo (E := rational_extern) (zero_buffers 3) demo_line [25] [10] 4 []
      = Ret ([] ++ prims)
    /\ forall d p, nth_error prims d = Some p ->
         nth_error [25] d = Some (k_gain p)
         /\ nth_error [10] d = Some (d_gain p)
         /\ length (f_domain p) = length (points demo_line)
         /\ forall i, (i < length (points demo_line))%nat ->
              nth i (f_domain p) 0
                = demo_t demo_line i
                  / demo_t demo_line (length (points demo_line) - 1).
Proof.
  apply (learnFromDemo_gains_and_domain (E := rational_extern)).
  - discriminate.
  - demo_wf_by_evaluation.
  - repeat split.
Defined.

Lemma lfdCallback_tau_witness :
  exists prims,
    learnFromDemo (E := rational_extern) (zero_buffers 3) demo_line [25] [10] 4 []
      = Ret prims
    /\ lfdCallback (E := rational_extern) (zero_buffers 3) learn_request
       = Ret {| res_dmp_list := prims;
                res_tau := nth (length (times demo_line) - 1)
                             (times demo_line) 0 |}
    /\ (length (times demo_line) = length (points demo_line) ->
        nth (length (times demo_line) - 1) (times demo_line) 0
        = demo_t demo_line (length (points demo_line) - 1)).
Proof.
  apply (lfdCallback_tau (E := rational_extern) demo_line [25] [10] 4).
  - discriminate.
  - demo_wf_by_evaluation.
  - repeat split.
Defined.

Lemma lfdCallback_empty_demo_witness :
  (forall dmp_list0,
     learnFromDemo (E := rational_extern) (zero_buffers 0)
       (req_demo learn_nothing) (req_k_gains learn_nothing)
       (req_d_gains learn_nothing) (req_num_bases learn_nothing) dmp_list0
     = Ret dmp_list0)
  /\ (times (req_demo learn_nothing) = [] ->
      lfdCallback (E := rational_extern) (zero_buffers 0) learn_nothing
      = OutOfBounds)
  /\ (times (req_demo learn_nothing) <> [] ->
      lfdCallback (E := rational_extern) (zero_buffers 0) learn_nothing
      = Ret {| res_dmp_list := [];
               res_tau := nth (length (times (req_demo learn_nothing)) - 1)
                            (times (req_demo learn_nothing)) 0 |}).
Proof.
  apply (lfdCallback_empty_demo (E := rational_extern)). reflexivity.
Defined.

Lemma plan_points_dimension_witness :
  exists plan ag,
    generatePlan (E := rational_extern) plan_small 1000 = Ret (plan, ag)
    /\ Forall (fun p => length (positions p) = dims plan_small
                        /\ length (velocities p) = dims plan_small)
         (points plan).
Proof.
  apply (plan_points_dimension (E := rational_extern) plan_small).
  - plan_wf_by_evaluation.
  - reflexivity.
  - vm_compute. lia.
Defined.

Lemma plan_integration_chain_witness :
  exists plan ag,
    generatePlan (E := rational_extern) plan_small 1000 = Ret (plan, ag)
    /\ forall j, (j < length (points plan))%nat ->
         chain_point (E := rational_extern) plan_small
           (fun i m => plan_position (points plan) m i)
           (fun i m => plan_velocity (points plan) m i) (times plan) j.
Proof.
  apply (plan_integration_chain (E := rational_extern) plan_small).
  - plan_wf_by_evaluation.
  - reflexivity.
  - vm_compute. lia.
Defined.

Lemma plan_without_substeps_witness :
  exists plan ag,
    generatePlan (E := rational_extern) plan_frozen 1000 = Ret (plan, ag)
    /\ forall i j, (i < dims plan_frozen)%nat ->
         (j < length (points plan))%nat ->
         plan_position (points plan) j i = nth i (x_0 plan_frozen) 0
         /\ plan_velocity (points plan) j i
            == nth i (x_dot_0 plan_frozen) 0 / tau plan_frozen.
Proof.
  apply (plan_without_substeps (E := rational_extern) plan_frozen).
  - plan_wf_by_evaluation.
  - reflexivity.
  - simpl. lia.
  - discriminate.
  - vm_compute. lia.
Defined.

Lemma generatePlan_short_start_witness :
  generatePlan (E := rational_extern) plan_no_start 1 = OutOfBounds.
Proof.
  apply (generatePlan_short_start (E := rational_extern) plan_no_start).
  - left. unfold dims. simpl. lia.
  - reflexivity.
Defined.

Lemma planCallback_no_active_dmp_witness :
  exists plan,
    planCallback (E := rational_extern) active_dmp_list_init (plan_request [])
      1000
      = Ret {| res_plan := plan; res_at_goal := true |}
    /\ (1 <= length (points plan))%nat
    /\ Forall (fun p => positions p = [] /\ velocities p = []) (points plan).
Proof.
  apply (planCallback_no_active_dmp (E := rational_extern) (plan_request []) []).
  - reflexivity.
  - reflexivity.
  - vm_compute. discriminate.
  - vm_compute. lia.
Defined.

Lemma planCallback_ragged_obstacle_witness :
  planCallback (E := rational_extern) (dmp_list plan_small)
    (plan_request [1; 2; 3; 4; 5]) 1000 = OutOfBounds.
Proof.
  apply (planCallback_ragged_obstacle (E := rational_extern) _ _ _ 1%nat 2%nat).
  - reflexivity.
  - lia.
  - lia.
Defined.

Lemma planCallback_obstacle_in_threes_witness :
  exists rows,
    length rows = 2%nat
    /\ concat rows = req_obstacle (plan_request [1; 2; 3; 4; 5; 6])
    /\ Forall (fun r => length r = 3%nat) rows
    /\ planCallback (E := rational_extern) (dmp_list plan_small)
         (plan_request [1; 2; 3; 4; 5; 6]) 1000
       = outcome_map plan_response
           (generatePlan (E := rational_extern)
              (planCallback_args (dmp_list plan_small)
                 (plan_request [1; 2; 3; 4; 5; 6]) rows) 1000).
Proof.
  apply (planCallback_obstacle_in_threes (E := rational_extern)).
  - reflexivity.
  - lia.
Defined.

Lemma planCallback_obstacle_dropped_witness :
  planCallback (E := rational_extern) (dmp_list plan_small)
    (plan_request [1; 2]) 1000
  = outcome_map plan_response
      (generatePlan (E := rational_extern)
         (planCallback_args (dmp_list plan_small) (plan_request [1; 2]) [])
         1000).
Proof.
  apply (planCallback_obstacle_dropped (E := rational_extern)).
  simpl. lia.
Defined.

Lemma coupling_appends_three_witness :
  exists r c0 c1 c2,
    artificialPotentialFieldCoupling (E := rational_extern)
      [7] [0; 0; 0] [1; 0; 0] [[1; 1; 1]] [1] [1] [1] 1 1 = Ret r
    /\ cr_apf_ct r = [7] ++ [c0; c1; c2]
    /\ length (cr_apf_ct r) = (length [7] + 3)%nat.
Proof.
  apply (coupling_appends_three (E := rational_extern)).
  - simpl; lia.
  - simpl; lia.
  - discriminate.
  - discriminate.
  - discriminate.
  - split; [discriminate | repeat constructor].
Defined.

Lemma coupling_accesses_in_bounds_witness :
  exists r,
    artificialPotentialFieldCoupling (E := rational_extern)
      [] [0; 0; 0] [1; 0; 0] [[1; 1; 1]; [2; 2; 3]] [1] [1; 2; 3] [1] 1 1
      = Ret r
    /\ (length [[1; 1; 1]; [2; 2; 3]] = 1%nat ->
        cr_beta r = [1] /\ cr_gamma r = [1; 2; 3] /\ cr_k r = [1]
        /\ forall beta' gamma' k',
             hd_error beta' = hd_error [1] ->
             hd_error gamma' = hd_error [1; 2; 3] ->
             hd_error k' = hd_error [1] ->
             exists r',
               artificialPotentialFieldCoupling (E := rational_extern)
                 [] [0; 0; 0] [1; 0; 0] [[1; 1; 1]; [2; 2; 3]]
                 beta' gamma' k' 1 1 = Ret r'
               /\ cr_apf_ct r' = cr_apf_ct r)
    /\ (length [[1; 1; 1]; [2; 2; 3]] <> 1%nat ->
        (2 <= length (cr_beta r))%nat
        /\ (3 <= length (cr_gamma r))%nat
        /\ (3 <= length (cr_k r))%nat
        /\ ((2 <= length [1])%nat -> cr_beta r = [1])
        /\ ((3 <= length [1; 2; 3])%nat -> cr_gamma r = [1; 2; 3])
        /\ ((3 <= length [1])%nat -> cr_k r = [1])
        /\ (forall b0, [1] = [b0] -> cr_beta r = [b0; 0])
        /\ (forall g0, [1; 2; 3] = [g0] -> cr_gamma r = [g0; 0; 0])
        /\ (forall k0, [1] = [k0] -> cr_k r = [k0; 0; 0])).
Proof.
  apply (coupling_accesses_in_bounds (E := rational_extern)).
  - simpl; lia.
  - simpl; lia.
  - discriminate.
  - discriminate.
  - discriminate.
  - split; [discriminate | repeat constructor].
Defined.

Lemma coupling_two_entry_coefficients_witness :
  exists r,
    artificialPotentialFieldCoupling (E := rational_extern)
      [] [0; 0; 0] [1; 0; 0] [[1; 1; 1]; [2; 2; 3]] [1] [5; 7] [6; 8] 1 1
      = Ret r
    /\ (forall g0 g1, [5; 7] = [g0; g1] -> cr_gamma r = [g0; 0; 0])
    /\ (forall k0 k1, [6; 8] = [k0; k1] -> cr_k r = [k0; 0; 0]).
Proof.
  apply (coupling_two_entry_coefficients (E := rational_extern)).
  - simpl; lia.
  - simpl; lia.
  - discriminate.
  - discriminate.
  - discriminate.
  - split; [discriminate | repeat constructor].
  - simpl; lia.
Defined.



Lemma plan_times_running_sum_witness :
  exists plan ag,
    generatePlan (E := rational_extern) plan_small 1000 = Ret (plan, ag)
    /\ length (times plan) = length (points plan)
    /\ (forall j, (j < length (times plan))%nat ->
          nth j (times plan) 0
          = chain_time (times plan) j + total_dt plan_small)
    /\ (forall j, (S j < length (times plan))%nat ->
          nth j (times plan) 0 < nth j (times plan) 0 + total_dt plan_small ->
          nth j (times plan) 0 < nth (S j) (times plan) 0).
Proof.
  apply (plan_times_running_sum (E := rational_extern) plan_small).
  - plan_wf_by_evaluation.
  - reflexivity.
  - vm_compute. lia.
Defined.

Lemma plan_at_goal_last_point_witness :
  exists plan ag,
    generatePlan (E := rational_extern) plan_small 1000 = Ret (plan, ag)
    /\ (ag = true
        <-> Qgeb (last_time plan + t_0 plan_small) (tau plan_small) = true
            /\ forall i, (i < dims plan_small)%nat ->
                 Qgtb (nth i (goal_thresh plan_small) 0) 0 = true ->
                 Qgtb (Qabs (plan_position (points plan)
                               (length (points plan) - 1) i
                             - nth i (goal plan_small) 0))
                      (nth i (goal_thresh plan_small) 0) = false).
Proof.
  apply (plan_at_goal_last_point (E := rational_extern) plan_small).
  - plan_wf_by_evaluation.
  - reflexivity.
  - vm_compute. lia.
Defined.

Lemma plan_without_segment_witness :
  exists plan ag,
    generatePlan (E := rational_extern) plan_small 1000 = Ret (plan, ag)
    /\ Qltb (last_time plan + t_0 plan_small) (tau plan_small) = false
    /\ (ag = false -> Qltb (last_time plan) MAX_PLAN_LENGTH = false).
Proof.
  apply (plan_without_segment (E := rational_extern) plan_small).
  - plan_wf_by_evaluation.
  - reflexivity.
  - reflexivity.
  - vm_compute. lia.
Defined.

Lemma plan_segment_length_witness :
  exists plan ag,
    generatePlan (E := rational_extern) plan_segment 1000 = Ret (plan, ag)
    /\ forall j, (j + 2 < length (times plan))%nat ->
         Qgtb (nth j (times plan) 0) (seg_length plan_segment) = false.
Proof.
  apply (plan_segment_length (E := rational_extern) plan_segment).
  - plan_wf_by_evaluation.
  - reflexivity.
  - reflexivity.
  - vm_compute. lia.
Defined.

Lemma plan_coupling_six_dimensions_witness :
  exists r r0,
    plan_coupling (E := rational_extern) plan_six (plan_init plan_six) = Ret r
    /\ artificialPotentialFieldCoupling (E := rational_extern) []
         (avoid_position plan_six (plan_init plan_six))
         (avoid_velocity plan_six (plan_init plan_six)) (obstacle plan_six)
         (beta (plan_init plan_six)) (gamma (plan_init plan_six))
         (k (plan_init plan_six)) (arg_m plan_six) (arg_n plan_six) = Ret r0
    /\ length (cr_apf_ct r0) = 3%nat
    /\ cr_apf_ct r = cr_apf_ct r0 ++ [0; 0; 0]
    /\ cr_beta r = cr_beta r0 /\ cr_gamma r = cr_gamma r0
    /\ cr_k r = cr_k r0.
Proof.
  apply (plan_coupling_six_dimensions (E := rational_extern) plan_six).
  - unfold plan_wf, dims, obstacle_3d. simpl.
    repeat split; try lia; try discriminate. repeat constructor.
  - apply reach_init.
  - reflexivity.
  - discriminate.
Defined.

Lemma generatePlan_obstacle_unused_witness :
  generatePlan (E := rational_extern) plan_unused_obstacle 1000
  = generatePlan (E := rational_extern)
      (without_obstacle plan_unused_obstacle) 1000.
Proof.
  apply (generatePlan_obstacle_unused (E := rational_extern)
           plan_unused_obstacle).
  reflexivity.
Defined.
